(** * mcjoin: the multicast test session engine of [src/mcjoin.c]

    A shallow embedding of the group-set construction in [main], of the
    status-history plotter ([update], [spin], [plotter_show]) and of the
    run loop ([loop], [exit_loop], [show_stats]).

    Conventions.
    - C integers are [Z] with the wrap-around written out: [int] is 32 bits
      two's complement ([wrap_int]), [size_t] is 64 bits ([wrap_size]),
      [uint32_t] and [uint16_t] are [wrap32] and [wrap16].
    - Memory that the code reads through a pointer of another type (the
      address bytes seen as a [uint32_t]) is a list of bytes, each a [Z] in
      [0, 256), in memory order; the host byte order is a parameter.
    - The table [groups[MAX_NUM_GROUPS]] with its fill level [group_num] is
      the list of its first [group_num] entries.
    - The build modelled is the one with [AF_INET6] defined.
    - Terminal and log output is an event trace kept in the state.
    - Constants of the headers [mcjoin.h] and [addr.h] are the fields of
      [Config]; the C library and the sender, receiver, screen and log
      modules are the fields of [Env]. *)

From Stdlib Require Import ZArith List String Ascii Lia Bool.
From stdpp Require Import base list.
Import ListNotations.

Open Scope Z_scope.

(* ===================================================================== *)
(** ** Machine integers and byte order *)
(* ===================================================================== *)

Module Mach.

(** [uint32_t] arithmetic. *)
Definition wrap32 (x : Z) : Z := x mod 2 ^ 32.

(** Conversion to [uint16_t], as done by the prototype of [htons]. *)
Definition wrap16 (x : Z) : Z := x mod 2 ^ 16.

(** Conversion to [unsigned char]. *)
Definition wrap8 (x : Z) : Z := x mod 2 ^ 8.

(** [size_t] arithmetic. *)
Definition wrap_size (x : Z) : Z := x mod 2 ^ 64.

(** Conversion to a 32-bit two's complement [int]. *)
Definition wrap_int (x : Z) : Z := (x + 2 ^ 31) mod 2 ^ 32 - 2 ^ 31.

Definition is_byte (b : Z) : Prop := 0 <= b < 256.

Inductive endian : Set := LittleEndian | BigEndian.

(** Byte [i] of a word, least significant first. *)
Definition byte_of (x : Z) (i : Z) : Z := Z.land (Z.shiftr x (8 * i)) 255.

(** The value of four bytes, most significant first. *)
Definition be32 (bs : list Z) : Z :=
  match bs with
  | [b0; b1; b2; b3] => Z.shiftl b0 24 + Z.shiftl b1 16 + Z.shiftl b2 8 + b3
  | _ => 0
  end.

(** The value of four bytes, least significant first. *)
Definition le32 (bs : list Z) : Z :=
  match bs with
  | [b0; b1; b2; b3] => b0 + Z.shiftl b1 8 + Z.shiftl b2 16 + Z.shiftl b3 24
  | _ => 0
  end.

Definition be32_bytes (x : Z) : list Z :=
  [byte_of x 3; byte_of x 2; byte_of x 1; byte_of x 0].

Definition le32_bytes (x : Z) : list Z :=
  [byte_of x 0; byte_of x 1; byte_of x 2; byte_of x 3].

Definition be16_bytes (x : Z) : list Z := [byte_of x 1; byte_of x 0].

Definition le16_bytes (x : Z) : list Z := [byte_of x 0; byte_of x 1].

(** Reading and writing a [uint32_t] object in host byte order: what
    [memcpy(&step, p, 4)] and an access through [s_addr] do. *)
Definition load32 (host : endian) (bs : list Z) : Z :=
  match host with
  | LittleEndian => le32 bs
  | BigEndian => be32 bs
  end.

Definition store32 (host : endian) (x : Z) : list Z :=
  match host with
  | LittleEndian => le32_bytes x
  | BigEndian => be32_bytes x
  end.

Definition store16 (host : endian) (x : Z) : list Z :=
  match host with
  | LittleEndian => le16_bytes x
  | BigEndian => be16_bytes x
  end.

Definition bswap32 (x : Z) : Z :=
  Z.shiftl (byte_of x 0) 24 + Z.shiftl (byte_of x 1) 16
  + Z.shiftl (byte_of x 2) 8 + byte_of x 3.

Definition bswap16 (x : Z) : Z := Z.shiftl (byte_of x 0) 8 + byte_of x 1.

(** [ntohl] and [htonl]: the identity on a big-endian host, a byte swap on
    a little-endian one. *)
Definition ntohl (host : endian) (x : Z) : Z :=
  match host with
  | LittleEndian => bswap32 x
  | BigEndian => x
  end.

Definition htonl (host : endian) (x : Z) : Z := ntohl host x.

(** [htons] takes a [uint16_t]. *)
Definition htons (host : endian) (x : Z) : Z :=
  match host with
  | LittleEndian => bswap16 (wrap16 x)
  | BigEndian => wrap16 x
  end.

End Mach.

Import Mach.

(* ===================================================================== *)
(** ** C strings *)
(* ===================================================================== *)

Module CStr.

Definition NUL : ascii := Ascii.zero.

(** [strchr(s, c)]: the offset of the first [c] in [s], if any. *)
Fixpoint strchr (s : string) (c : ascii) : option nat :=
  match s with
  | EmptyString => None
  | String a s' =>
      if Ascii.eqb a c then Some O
      else match strchr s' c with
           | Some n => Some (S n)
           | None => None
           end
  end.

(** [strchr(s, c) != NULL]. *)
Definition has_char (s : string) (c : ascii) : bool :=
  match strchr s c with
  | Some _ => true
  | None => false
  end.

(** The string before offset [n] (what is left of [s] after [s[n] = 0]) and
    the string starting at offset [n]. *)
Definition str_take (n : nat) (s : string) : string := substring 0 n s.

Definition str_drop (n : nat) (s : string) : string :=
  substring n (String.length s - n) s.

(** [strlcpy(dst, src, size)] with [size = n + 1]: at most [n] characters
    are copied. *)
Definition strlcpy (n : nat) (src : string) : string := str_take n src.

(** The last character of a string as an integer:
    [s[strlen(s) - 1]]; 0 stands for the out-of-bounds read that the C code
    makes on an empty string. *)
Fixpoint last_char (s : string) : Z :=
  match s with
  | EmptyString => 0
  | String a EmptyString => Z.of_nat (nat_of_ascii a)
  | String _ s' => last_char s'
  end.

(** The C string held at the start of a character array: the characters
    before the first NUL. *)
Fixpoint cstr (l : list ascii) : list ascii :=
  match l with
  | [] => []
  | a :: l' => if Ascii.eqb a NUL then [] else a :: cstr l'
  end.

Definition is_space (a : ascii) : bool :=
  let n := nat_of_ascii a in
  (Nat.eqb n 32 || (Nat.leb 9 n && Nat.leb n 13))%bool.

Definition digit_of (a : ascii) : option Z :=
  let n := nat_of_ascii a in
  if (Nat.leb 48 n && Nat.leb n 57)%bool then Some (Z.of_nat n - 48) else None.

(** The leading decimal digits of a string, accumulated on [acc]. *)
Fixpoint digits_value (acc : Z) (s : string) : Z :=
  match s with
  | EmptyString => acc
  | String a s' =>
      match digit_of a with
      | Some d => digits_value (10 * acc + d) s'
      | None => acc
      end
  end.

Fixpoint skip_spaces (s : string) : string :=
  match s with
  | EmptyString => EmptyString
  | String a s' => if is_space a then skip_spaces s' else s
  end.

(** [atoi]: optional white space, an optional sign, decimal digits; anything
    else ends the number, and no digits give 0.  A value outside [int] is
    undefined in C; it is reduced to 32 bits here. *)
Definition atoi (s : string) : Z :=
  match skip_spaces s with
  | String "-"%char s' => wrap_int (- digits_value 0 s')
  | String "+"%char s' => wrap_int (digits_value 0 s')
  | s' => wrap_int (digits_value 0 s')
  end.

(** [memmove(dst, dst + 1, n)] on an array: the first [n] cells receive the
    cells [1 .. n], the cells from [n] on keep their contents. *)
Definition memmove_left {A : Type} (n : nat) (l : list A) : list A :=
  take n (drop 1 l) ++ drop n l.

(** [memset(dst, c, n)] on an array. *)
Definition memset {A : Type} (c : A) (n : nat) (l : list A) : list A :=
  replicate (Nat.min n (length l)) c ++ drop n l.

End CStr.

Import CStr.

(* ===================================================================== *)
(** ** Address stepper: the "Next group ..." block of [main] *)
(* ===================================================================== *)

Inductive family : Set := AF_INET | AF_INET6.

Section Stepper.

Variable host : endian.

(** IPv4 branch:
    [step = ntohl(sin->sin_addr.s_addr); step++;
     sin->sin_addr.s_addr = htonl(step);] on the four bytes of [sin_addr]. *)
Definition step4 (a : list Z) : list Z :=
  let step := ntohl host (load32 host (take 4 a)) in
  let step := wrap32 (step + 1) in
  store32 host (htonl host step) ++ drop 4 a.

(** IPv6 branch:
    [memcpy(&step, &s6_addr[12], 4); step = htonl(ntohl(step) + 1);
     memcpy(&s6_addr[12], &step, 4);] on the sixteen bytes of [sin6_addr]. *)
Definition step6 (a : list Z) : list Z :=
  let step := load32 host (take 4 (drop 12 a)) in
  let step := htonl host (wrap32 (ntohl host step + 1)) in
  take 12 a ++ store32 host step ++ drop 16 a.

Definition addr_step (f : family) (a : list Z) : list Z :=
  match f with
  | AF_INET => step4 a
  | AF_INET6 => step6 a
  end.

End Stepper.

(** [sizeof(struct sockaddr_in)] and [sizeof(struct sockaddr_in6)], the
    [len] the code hands to [inet_ntop]. *)
Definition sockaddr_len (f : family) : Z :=
  match f with
  | AF_INET => 16
  | AF_INET6 => 28
  end.

(** The bytes of an [in_addr] or [in6_addr]. *)
Definition addr_size (f : family) : nat :=
  match f with
  | AF_INET => 4%nat
  | AF_INET6 => 16%nat
  end.

(* ===================================================================== *)
(** ** Data model *)
(* ===================================================================== *)

(** The part of a [struct sockaddr_in] / [sockaddr_in6] that [main] fills
    in.  [sa_port] and [sa_addr] are bytes in memory order; a zeroed
    structure has no family, and no address bytes are listed for it. *)
Record sockaddr : Type := mk_sockaddr {
  sa_family : option family;
  sa_port : list Z;
  sa_addr : list Z
}.

Definition sockaddr_zero : sockaddr :=
  {| sa_family := None; sa_port := [0; 0]; sa_addr := [] |}.

(** [struct gr], the fields that [mcjoin.c] touches. *)
Record gr : Type := mk_gr {
  gr_source : option string;
  gr_group : string;
  gr_src : sockaddr;
  gr_grp : sockaddr;
  gr_status : list ascii;
  gr_spin : Z;
  gr_count : Z;
  gr_gaps : Z
}.

Definition set_gr_status (s : list ascii) (g : gr) : gr :=
  mk_gr (gr_source g) (gr_group g) (gr_src g) (gr_grp g) s (gr_spin g)
        (gr_count g) (gr_gaps g).

Definition set_gr_spin (n : Z) (g : gr) : gr :=
  mk_gr (gr_source g) (gr_group g) (gr_src g) (gr_grp g) (gr_status g) n
        (gr_count g) (gr_gaps g).

(** What the program does that is seen from outside, one event per call:
    what it writes to the terminal and to the log, [sleep], [sigaction],
    and, for the units of work of the reference platform, their result. *)
Inductive event : Type :=
| ERROR (msg : string)
| DEBUG (msg : string)
| Usage (code : Z)
| Version
| PrintGroup (gwidth : Z) (group : string) (count gaps : Z)
| PrintTotal (total : Z)
| Progress
| PlotHeader
| PlotRow (row : nat) (sgbuf : string) (act : ascii) (window : list ascii)
          (count : Z)
| Frame (title : string)
| LogShow
| Tty (op : string)
| Sleep (sec : Z)
| Sigaction (sig : string)
| Io (what : string) (rc : Z).

(** The globals of [mcjoin.c], the [static int once] of [plotter_show], and
    the output so far (newest event first). *)
Record state : Type := mk_state {
  old : Z;
  join : Z;
  foreground : Z;
  period : Z;
  width : Z;
  height : Z;
  bytes : Z;
  count : Z;
  port : Z;
  ttl : Z;
  need4 : Z;
  need6 : Z;
  groups : list gr;
  iface : string;
  running : Z;
  winchg : Z;
  once : Z;
  out : list event
}.

Definition set_old (v : Z) (s : state) : state :=
  mk_state v (join s) (foreground s) (period s) (width s) (height s)
    (bytes s) (count s) (port s) (ttl s) (need4 s) (need6 s) (groups s)
    (iface s) (running s) (winchg s) (once s) (out s).

Definition set_join (v : Z) (s : state) : state :=
  mk_state (old s) v (foreground s) (period s) (width s) (height s)
    (bytes s) (count s) (port s) (ttl s) (need4 s) (need6 s) (groups s)
    (iface s) (running s) (winchg s) (once s) (out s).

Definition set_foreground (v : Z) (s : state) : state :=
  mk_state (old s) (join s) v (period s) (width s) (height s)
    (bytes s) (count s) (port s) (ttl s) (need4 s) (need6 s) (groups s)
    (iface s) (running s) (winchg s) (once s) (out s).

Definition set_period (v : Z) (s : state) : state :=
  mk_state (old s) (join s) (foreground s) v (width s) (height s)
    (bytes s) (count s) (port s) (ttl s) (need4 s) (need6 s) (groups s)
    (iface s) (running s) (winchg s) (once s) (out s).

Definition set_size (w h : Z) (s : state) : state :=
  mk_state (old s) (join s) (foreground s) (period s) w h
    (bytes s) (count s) (port s) (ttl s) (need4 s) (need6 s) (groups s)
    (iface s) (running s) (winchg s) (once s) (out s).

Definition set_bytes (v : Z) (s : state) : state :=
  mk_state (old s) (join s) (foreground s) (period s) (width s) (height s)
    v (count s) (port s) (ttl s) (need4 s) (need6 s) (groups s)
    (iface s) (running s) (winchg s) (once s) (out s).

Definition set_count (v : Z) (s : state) : state :=
  mk_state (old s) (join s) (foreground s) (period s) (width s) (height s)
    (bytes s) v (port s) (ttl s) (need4 s) (need6 s) (groups s)
    (iface s) (running s) (winchg s) (once s) (out s).

Definition set_port (v : Z) (s : state) : state :=
  mk_state (old s) (join s) (foreground s) (period s) (width s) (height s)
    (bytes s) (count s) v (ttl s) (need4 s) (need6 s) (groups s)
    (iface s) (running s) (winchg s) (once s) (out s).

Definition set_ttl (v : Z) (s : state) : state :=
  mk_state (old s) (join s) (foreground s) (period s) (width s) (height s)
    (bytes s) (count s) (port s) v (need4 s) (need6 s) (groups s)
    (iface s) (running s) (winchg s) (once s) (out s).

Definition set_need4 (v : Z) (s : state) : state :=
  mk_state (old s) (join s) (foreground s) (period s) (width s) (height s)
    (bytes s) (count s) (port s) (ttl s) v (need6 s) (groups s)
    (iface s) (running s) (winchg s) (once s) (out s).

Definition set_need6 (v : Z) (s : state) : state :=
  mk_state (old s) (join s) (foreground s) (period s) (width s) (height s)
    (bytes s) (count s) (port s) (ttl s) (need4 s) v (groups s)
    (iface s) (running s) (winchg s) (once s) (out s).

Definition set_groups (v : list gr) (s : state) : state :=
  mk_state (old s) (join s) (foreground s) (period s) (width s) (height s)
    (bytes s) (count s) (port s) (ttl s) (need4 s) (need6 s) v
    (iface s) (running s) (winchg s) (once s) (out s).

Definition set_iface (v : string) (s : state) : state :=
  mk_state (old s) (join s) (foreground s) (period s) (width s) (height s)
    (bytes s) (count s) (port s) (ttl s) (need4 s) (need6 s) (groups s)
    v (running s) (winchg s) (once s) (out s).

Definition set_running (v : Z) (s : state) : state :=
  mk_state (old s) (join s) (foreground s) (period s) (width s) (height s)
    (bytes s) (count s) (port s) (ttl s) (need4 s) (need6 s) (groups s)
    (iface s) v (winchg s) (once s) (out s).

Definition set_winchg (v : Z) (s : state) : state :=
  mk_state (old s) (join s) (foreground s) (period s) (width s) (height s)
    (bytes s) (count s) (port s) (ttl s) (need4 s) (need6 s) (groups s)
    (iface s) (running s) v (once s) (out s).

Definition set_once (v : Z) (s : state) : state :=
  mk_state (old s) (join s) (foreground s) (period s) (width s) (height s)
    (bytes s) (count s) (port s) (ttl s) (need4 s) (need6 s) (groups s)
    (iface s) (running s) (winchg s) v (out s).

(** One more output event. *)
Definition emit (e : event) (s : state) : state :=
  mk_state (old s) (join s) (foreground s) (period s) (width s) (height s)
    (bytes s) (count s) (port s) (ttl s) (need4 s) (need6 s) (groups s)
    (iface s) (running s) (winchg s) (once s) (e :: out s).

(** [group_num]. *)
Definition group_num (s : state) : nat := length (groups s).

(** Constants of [mcjoin.h] and [addr.h], and [IFNAMSIZ]. *)
Class Config : Type := {
  MAX_NUM_GROUPS : nat;
  STATUS_HISTORY : nat;
  STATUS_POS : nat;
  INET_ADDRSTR_LEN : nat;
  DEFAULT_GROUP : string;
  DEFAULT_PORT : Z;
  BUFSZ : Z;
  IFNAMSIZ : nat
}.

(** The collaborators of [mcjoin.c]: the C library's address conversion and
    the sender, receiver, screen, log and daemon modules.
    - [inet_pton f s] is the address when the call returns 1.
    - [inet_ntop f a dst size] is the C string held by the destination
      buffer after the call, [dst] being the one it held before.
    - the four units of work return their [int] result and the state they
      leave; whatever a signal handler does while one of them runs is part
      of that state. *)
Class Env : Type := {
  host : endian;
  inet_pton : family -> string -> option (list Z);
  inet_ntop : family -> list Z -> string -> Z -> string;
  geteuid : Z;
  log_level : string -> Z;
  ifdefault : string;
  ttsize : state -> Z * Z;
  daemonize : Z;
  getrlimit : Z;
  setrlimit : Z;
  sender_init : state -> Z * state;
  receiver_init : state -> Z * state;
  sender : state -> Z * state;
  receiver : Z -> state -> Z * state
}.

(** A zeroed [struct gr] of [STATUS_HISTORY] status cells. *)
Definition gr_zero `{Config} : gr :=
  {| gr_source := None; gr_group := EmptyString;
     gr_src := sockaddr_zero; gr_grp := sockaddr_zero;
     gr_status := replicate STATUS_HISTORY NUL;
     gr_spin := 0; gr_count := 0; gr_gaps := 0 |}.

(** The initial values of the globals. *)
Definition init_state `{Config} : state :=
  {| old := 0; join := 1; foreground := 1; period := 100000;
     width := 80; height := 24; bytes := 100; count := 0;
     port := DEFAULT_PORT; ttl := 1; need4 := 0; need6 := 0;
     groups := []; iface := EmptyString; running := 1; winchg := 0;
     once := 1; out := [] |}.

(* ===================================================================== *)
(** ** Status history: [update], [spin], [plotter_show] *)
(* ===================================================================== *)

Section Plotter.

Context `{Config}.

(** The body of the loop of [update] on one record:
    [memmove(g->status, &g->status[1], STATUS_HISTORY - 1);
     g->status[STATUS_POS] = ' ';]
    A [STATUS_POS] outside the array, where the C code writes out of
    bounds, leaves the array as it is here. *)
Definition update_status (s : list ascii) : list ascii :=
  <[STATUS_POS := " "%char]> (memmove_left (STATUS_HISTORY - 1) s).

Definition update_gr (g : gr) : gr :=
  set_gr_status (update_status (gr_status g)) g.

(** [update()]: prepare next iteration. *)
Definition update (st : state) : state :=
  set_groups (map update_gr (groups st)) st.

(** Modelled from the spec: the [mark] operation of the status history
    tracker, whose callers are in the sender and receiver modules; it writes
    the symbol into the most recent slot, [status[STATUS_POS]]. *)
Definition mark (c : ascii) (s : list ascii) : list ascii :=
  <[STATUS_POS := c]> s.

(** A history of blanks: [STATUS_HISTORY - 1] blank cells and the cell that
    ends the string ([NUL] after the [memset] of [main]). *)
Definition blank_status (t : ascii) : list ascii :=
  replicate (STATUS_HISTORY - 1) " "%char ++ [t].

(** [g->status[STATUS_POS] == '.'] *)
Definition active (g : gr) : bool :=
  match gr_status g !! STATUS_POS with
  | Some c => Ascii.eqb c "."%char
  | None => false
  end.

(** ["|/-\\"] *)
Definition spinner : list ascii := ["|"; "/"; "-"; "\"]%char.

(** [spin(g)]: the glyph returned and the record left. *)
Definition spin (g : gr) : ascii * gr :=
  let num := Z.of_nat (length spinner) in
  let act := nth (Z.to_nat (gr_spin g mod num)) spinner NUL in
  (act, if active g then set_gr_spin (wrap_size (gr_spin g + 1)) g else g).

(** The first loop of the [old] branch of [plotter_show]:
    [if (g->status[STATUS_POS] == '.') act = act == '.' ? '*' : '.';] *)
Definition old_act (gs : list gr) : ascii :=
  fold_left
    (fun act g =>
       if active g then (if Ascii.eqb act "."%char then "*" else ".")%char
       else act)
    gs NUL.

(** [snprintf(sgbuf, sizeof(sgbuf), "%s,%s", g->source ? g->source : "*",
    g->group)] with [char sgbuf[35]]. *)
Definition sgbuf (g : gr) : string :=
  let src := match gr_source g with Some s => s | None => "*"%string end in
  str_take 34 (src ++ "," ++ gr_group g)%string.

(** What ["%s"] prints of [&g->status[spos]]: the cells from [spos] up to
    the first NUL.  An offset past the array, which a screen narrower than
    50 columns gives and where the C code reads on, shows nothing here. *)
Definition window (spos : nat) (s : list ascii) : list ascii :=
  cstr (drop spos s).

(** The row loop of [plotter_show], from row [i] on: the records left and
    the rows printed (first row first). *)
Fixpoint plot_rows (spos : nat) (i : nat) (gs : list gr)
  : list gr * list event :=
  match gs with
  | [] => ([], [])
  | g :: gs' =>
      let '(act, g') := spin g in
      let row := PlotRow i (sgbuf g') act (window spos (gr_status g'))
                         (gr_count g') in
      let '(gs'', rows) := plot_rows spos (S i) gs' in
      (g' :: gs'', row :: rows)
  end.

(** [swidth = width - 50; if (swidth > STATUS_HISTORY) swidth =
    STATUS_HISTORY; spos = STATUS_HISTORY - swidth;] *)
Definition status_spos (w : Z) : Z :=
  let swidth := wrap_int (w - 50) in
  let swidth :=
    if Z.of_nat STATUS_HISTORY <? swidth then Z.of_nat STATUS_HISTORY
    else swidth in
  Z.of_nat STATUS_HISTORY - swidth.

(** [plotter_show(signo)]. *)
Definition plotter_show (signo : Z) (st : state) : state :=
  if negb (old st =? 0) then
    let act := old_act (groups st) in
    let st := if Ascii.eqb act NUL then st else emit Progress st in
    update st
  else
    let st := if negb (once st =? 0) then set_once 0 st else st in
    let st := emit PlotHeader st in
    let spos := Z.to_nat (status_spos (width st)) in
    let '(gs, rows) := plot_rows spos 0 (groups st) in
    let st := set_groups gs st in
    let st := fold_left (fun s e => emit e s) rows st in
    update st.

End Plotter.

(* ===================================================================== *)
(** ** Run loop: [show_stats], [redraw], [loop] and the signal handlers *)
(* ===================================================================== *)

(** [exit_loop(signo)]. *)
Definition exit_loop (signo : Z) (st : state) : state :=
  set_running 0 (emit (DEBUG "We got signal!") st).

(** [sigwinch_cb(signo)]. *)
Definition sigwinch_cb (signo : Z) (st : state) : state := set_winchg 1 st.

(** The first loop of [show_stats]: the widest group text. *)
Definition stats_gwidth (gs : list gr) : Z :=
  fold_left
    (fun gwidth g =>
       let n := wrap_int (Z.of_nat (String.length (gr_group g))) in
       if gwidth <? n then n else gwidth)
    gs 0.

(** The second loop of [show_stats]: one line per group (first group
    first) and [total_count]. *)
Fixpoint stats_lines (gwidth : Z) (total : Z) (gs : list gr)
  : list event * Z :=
  match gs with
  | [] => ([], total)
  | g :: gs' =>
      let line := PrintGroup gwidth (gr_group g) (gr_count g) (gr_gaps g) in
      let '(lines, total') :=
        stats_lines gwidth (wrap_size (total + gr_count g)) gs' in
      (line :: lines, total')
  end.

(** What [show_stats] prints, in order. *)
Definition stats_events (st : state) : list event :=
  if join st =? 0 then []
  else
    let '(lines, total) := stats_lines (stats_gwidth (groups st)) 0 (groups st) in
    lines ++ [PrintTotal total].

(** [show_stats()]. *)
Definition show_stats (st : state) : state :=
  fold_left (fun s e => emit e s) (stats_events st) st.

(** The lines of [show_stats] among the output. *)
Definition is_stats (e : event) : bool :=
  match e with
  | PrintGroup _ _ _ _ | PrintTotal _ => true
  | _ => false
  end.

(** Why the [while] of [loop] was left: which conjunct of
    [!rc && running] was false. *)
Inductive stop : Set := UnitFailed | FlagCleared.

Section RunLoop.

Context `{Config} `{Env}.

(** [redraw(signo)]. *)
Definition redraw (signo : Z) (st : state) : state :=
  if (negb (old st =? 0) || (foreground st =? 0))%bool then st
  else
    let st :=
      if negb (signo =? 0) then
        let '(w, h) := ttsize st in set_winchg 0 (set_size w h st)
      else st in
    let title :=
      if join st =? 0 then "mcjoin :: sending multicast"%string
      else "mcjoin :: receiving multicast"%string in
    let st :=
      if signo =? 0 then emit (Tty "hidecursor") (emit (Tty "ttraw") st)
      else st in
    let st := emit (Frame title) (emit (Tty "cls") st) in
    if negb (signo =? 0) then emit LogShow (plotter_show signo st) else st.

(** The unit of work of one iteration:
    [if (!join) rc = sender(); else rc = receiver(count);] *)
Definition work (st : state) : Z * state :=
  if join st =? 0 then sender st else receiver (count st) st.

(** [if (!join) rc = sender_init(); else rc = receiver_init();] *)
Definition work_init (st : state) : Z * state :=
  if join st =? 0 then sender_init st else receiver_init st.

(** [while (!rc && running) { redraw(winchg); rc = ...; }], at most [fuel]
    iterations. *)
Fixpoint loop_while (fuel : nat) (rc : Z) (st : state)
  : option (stop * Z * state) :=
  if negb (rc =? 0) then Some (UnitFailed, rc, st)
  else if running st =? 0 then Some (FlagCleared, rc, st)
  else
    match fuel with
    | O => None
    | S fuel' =>
        let st := redraw (winchg st) st in
        let '(rc', st') := work st in
        loop_while fuel' rc' st'
    end.

(** What [loop] prints of the statistics once the [while] is left with
    [rc] in state [st]: [if (!rc) { ...; show_stats(); }]. *)
Definition stats_printed (rc : Z) (st : state) : list event :=
  if rc =? 0 then stats_events st else [].

(** What [loop] writes to the terminal before it returns (newest first):
    [if (foreground && !old) { gotoxy(0, EXIT_ROW); showcursor();
    ttcooked(); }]. *)
Definition cleanup_events (st : state) : list event :=
  if (negb (foreground st =? 0) && (old st =? 0))%bool then
    [Tty "ttcooked"; Tty "showcursor"; Tty "gotoxy"]
  else [].

(** What follows the [while] in [loop]. *)
Definition loop_end (rc : Z) (st : state) : Z * state :=
  let st :=
    if rc =? 0 then show_stats (emit (DEBUG "Leaving main loop") st)
    else st in
  let st :=
    if (negb (foreground st =? 0) && (old st =? 0))%bool then
      emit (Tty "ttcooked") (emit (Tty "showcursor") (emit (Tty "gotoxy") st))
    else st in
  (rc, st).

(** [loop()]. *)
Definition loop (fuel : nat) (st : state) : option (Z * state) :=
  let st := emit (Sigaction "SIGWINCH") st in
  let '(rc, st) := work_init st in
  match loop_while fuel rc st with
  | Some (_, rc, st) => Some (loop_end rc st)
  | None => None
  end.

End RunLoop.

(* ===================================================================== *)
(** ** [main]: options, group specifications, address resolution *)
(* ===================================================================== *)

(** A step of [main] either returns from [main] with an exit code or goes
    on. *)
Definition result (A : Type) : Type := (Z * state + A)%type.

Section Main.

Context `{Config} `{Env}.

(** [usage(code)]. *)
Definition usage (code : Z) (st : state) : Z * state :=
  let st :=
    if String.eqb (iface st) EmptyString then set_iface ifdefault st else st in
  (code, emit (Usage code) st).

(** One turn of the [getopt] loop: the [switch (c)] on the option letter
    [c] with its argument; [wait] is the local of [main]. *)
Definition getopt_case (c : ascii) (optarg : string) (sw : state * Z)
  : result (state * Z) :=
  let '(st, wait) := sw in
  if Ascii.eqb c "b" then
    let st := set_bytes (wrap_size (atoi optarg)) st in
    if BUFSZ <? bytes st then inl (1, emit (ERROR "Too long payload") st)
    else inr (st, wait)
  else if Ascii.eqb c "c" then
    inr (set_count (wrap_size (atoi optarg)) st, wait)
  else if Ascii.eqb c "d" then inr (set_foreground 0 st, wait)
  else if Ascii.eqb c "f" then
    inr (set_period (wrap_int (atoi optarg * 1000)) st, wait)
  else if Ascii.eqb c "h" then inl (usage 0 st)
  else if Ascii.eqb c "i" then
    if (IFNAMSIZ + 1 <=? String.length optarg)%nat then
      inl (1, emit (ERROR "Too long interface name") st)
    else inr (emit (DEBUG "IFACE") (set_iface optarg st), wait)
  else if Ascii.eqb c "j" then inr (set_join (wrap_int (join st + 1)) st, wait)
  else if Ascii.eqb c "l" then
    if negb (log_level optarg =? 0) then
      inl (1, emit (ERROR "Invalid log level") st)
    else inr (st, wait)
  else if Ascii.eqb c "o" then inr (set_old (wrap_int (old st + 1)) st, wait)
  else if Ascii.eqb c "p" then
    let st := set_port (atoi optarg) st in
    if ((port st <? 1024) && negb (geteuid =? 0))%bool then
      inr (emit (ERROR "Must be root to use privileged ports (< 1024)") st,
           wait)
    else inr (st, wait)
  else if Ascii.eqb c "s" then inr (set_join 0 st, wait)
  else if Ascii.eqb c "t" then inr (set_ttl (wrap8 (atoi optarg)) st, wait)
  else if Ascii.eqb c "v" then inl (0, emit Version st)
  else if Ascii.eqb c "w" then inr (st, atoi optarg)
  else inl (usage 1 st).

(** [while ((c = getopt(...)) != EOF) switch (c) ...] over the options in
    the order [getopt] yields them. *)
Fixpoint parse_opts (opts : list (ascii * string)) (sw : state * Z)
  : result (state * Z) :=
  match opts with
  | [] => inr sw
  | (c, optarg) :: opts' =>
      match getopt_case c optarg sw with
      | inl r => inl r
      | inr sw' => parse_opts opts' sw'
      end
  end.

(** [groups[group_num].source = source;
     groups[group_num++].group = strdup(group);] on a zeroed entry. *)
Definition add_group (source : option string) (group : string) (st : state)
  : state :=
  set_groups
    (groups st ++
     [mk_gr source group (gr_src gr_zero) (gr_grp gr_zero)
            (gr_status gr_zero) (gr_spin gr_zero) (gr_count gr_zero)
            (gr_gaps gr_zero)])
    st.

(** [strchr(group, ':') ? AF_INET6 : AF_INET] *)
Definition group_family (group : string) : family :=
  if has_char group ":" then AF_INET6 else AF_INET.

(** [for (j = 0; j < num && group_num < NELEMS(groups); j++)] with [n]
    turns left.  [buf] is the C string at the start of the local [buf],
    [group] the one that the pointer [group] designates. *)
Fixpoint expand_loop (n : nat) (source : option string) (buf group : string)
  (st : state) : result state :=
  match n with
  | O => inr st
  | S n' =>
      if (MAX_NUM_GROUPS <=? group_num st)%nat then inr st
      else
        let f := group_family group in
        let st := emit (DEBUG "Converting group to ptr") st in
        match inet_pton f group with
        | None =>
            inl (usage 1
                   (emit (ERROR (group ++ " is not a valid multicast group"))
                      st))
        | Some addr =>
            let st := emit (DEBUG "Adding (S,G) to list ...") st in
            let st := add_group source group st in
            let addr := addr_step host f addr in
            let buf := inet_ntop f addr buf (sockaddr_len f) in
            expand_loop n' source buf buf st
        end
  end.

(** The head of the body of [for (i = optind; i < argc; i++)] on
    [argv[i]]: [source], [group], the C string left at the start of [buf],
    and [num]. *)
Definition parse_spec (arg : string)
  : option string * string * string * Z :=
  let buf := strlcpy INET_ADDRSTR_LEN arg in
  let '(buf, num) :=
    match strchr buf "+" with
    | Some p => (str_take p buf, atoi (str_drop (S p) buf))
    | None => (buf, 1)
    end in
  match strchr buf "," with
  | Some p => (Some (str_take p buf), str_drop (S p) buf, str_take p buf, num)
  | None => (None, buf, buf, num)
  end.

(** [num] of a specification. *)
Definition spec_num (arg : string) : Z := snd (parse_spec arg).

(** [num < 1 || (num + group_num) >= NELEMS(groups)] *)
Definition bad_count (num : Z) (st : state) : bool :=
  ((num <? 1)
   || (Z.of_nat MAX_NUM_GROUPS
         <=? wrap_size (num + Z.of_nat (group_num st))))%bool.

(** The texts that [expand_loop] leaves in [buf], one per step, from the
    address [a] of the first group on. *)
Fixpoint group_texts (f : family) (n : nat) (a : list Z) (buf : string)
  : list string :=
  match n with
  | O => []
  | S n' =>
      let a' := addr_step host f a in
      let t := inet_ntop f a' buf (sockaddr_len f) in
      t :: group_texts f n' a' t
  end.

(** Each of these texts is one of the family [f] and reads back as the
    address it was written for. *)
Fixpoint texts_read_back (f : family) (n : nat) (a : list Z) (buf : string)
  : Prop :=
  match n with
  | O => True
  | S n' =>
      let a' := addr_step host f a in
      let t := inet_ntop f a' buf (sockaddr_len f) in
      group_family t = f /\ inet_pton f t = Some a'
      /\ texts_read_back f n' a' t
  end.

(** The entry that [add_group] appends. *)
Definition new_gr (source : option string) (group : string) : gr :=
  mk_gr source group (gr_src gr_zero) (gr_grp gr_zero) (gr_status gr_zero)
        (gr_spin gr_zero) (gr_count gr_zero) (gr_gaps gr_zero).

(** The body of [for (i = optind; i < argc; i++)] on [argv[i]]. *)
Definition expand_spec (arg : string) (st : state) : result state :=
  let '(source, group, buf, num) := parse_spec arg in
  if bad_count num st then
    inl (usage 1
           (emit (ERROR "Invalid number of groups given, or max reached.") st))
  else expand_loop (Z.to_nat num) source buf group st.

Fixpoint expand_specs (args : list string) (st : state) : result state :=
  match args with
  | [] => inr st
  | arg :: args' =>
      match expand_spec arg st with
      | inl r => inl r
      | inr st' => expand_specs args' st'
      end
  end.

(** The records whose group text has no colon, and those whose text has
    one. *)
Definition count_ipv4 (gs : list gr) : nat :=
  length (List.filter (fun g => negb (has_char (gr_group g) ":")) gs).

Definition count_ipv6 (gs : list gr) : nat :=
  length (List.filter (fun g => has_char (gr_group g) ":") gs).

(** [inet_pton(f, text, &sa->addr); sa->family = f; sa->port = ...]: an
    address that does not parse leaves the bytes as they were. *)
Definition resolve_addr (f : family) (text : string) (port_bytes : list Z)
  (sa : sockaddr) : sockaddr :=
  {| sa_family := Some f;
     sa_port := port_bytes;
     sa_addr := match inet_pton f text with
                | Some a => a
                | None => sa_addr sa
                end |}.

(** The body of [for (i = 0; i < (int)group_num; i++)] on [groups[i]],
    the counters apart. *)
Definition resolve_gr (p : Z) (g : gr) : gr :=
  let f := group_family (gr_group g) in
  {| gr_source := gr_source g;
     gr_group := gr_group g;
     gr_src := match gr_source g with
               | Some s => resolve_addr f s [0; 0] (gr_src g)
               | None => gr_src g
               end;
     gr_grp := resolve_addr f (gr_group g) (store16 host (htons host p))
                 (gr_grp g);
     gr_status := memset " "%char (STATUS_HISTORY - 1) (gr_status g);
     gr_spin := wrap_size (last_char (gr_group g));
     gr_count := gr_count g;
     gr_gaps := gr_gaps g |}.

(** The resolution loop from some record on: the records left, [need4] and
    [need6]. *)
Fixpoint resolve_loop (p : Z) (gs : list gr) (n4 n6 : Z)
  : list gr * Z * Z :=
  match gs with
  | [] => ([], n4, n6)
  | g :: gs' =>
      let '(n4, n6) :=
        if has_char (gr_group g) ":" then (n4, wrap_int (n6 + 1))
        else (wrap_int (n4 + 1), n6) in
      let '(gs'', n4, n6) := resolve_loop p gs' n4 n6 in
      (resolve_gr p g :: gs'', n4, n6)
  end.

Definition resolve (st : state) : state :=
  let '(gs, n4, n6) :=
    resolve_loop (port st) (groups st) (need4 st) (need6 st) in
  set_need6 n6 (set_need4 n4 (set_groups gs st)).

(** [main] between the option loop and the group specifications. *)
Definition main_setup (nargs : nat) (sw : state * Z) : result state :=
  let '(st, wait) := sw in
  let st := if (nargs =? 0)%nat then add_group None DEFAULT_GROUP st else st in
  let r :=
    if foreground st =? 0 then
      if negb (daemonize =? 0) then inl (1, emit (Tty "Failed backgrounding") st)
      else inr st
    else if old st =? 0 then let '(w, h) := ttsize st in inr (set_size w h st)
    else inr st in
  match r with
  | inl e => inl e
  | inr st =>
      let st := if negb (wait =? 0) then emit (Sleep wait) st else st in
      let st :=
        if String.eqb (iface st) EmptyString then set_iface ifdefault st
        else st in
      if negb (getrlimit =? 0) then
        inl (1, emit (ERROR "Failed reading RLIMIT_NOFILE") st)
      else
        let st := emit (DEBUG "NOFILE: current") st in
        if negb (setrlimit =? 0) then
          inl (1, emit (ERROR "Failed setting RLIMIT_NOFILE soft limit") st)
        else inr (emit (DEBUG "NOFILE: set new current") st)
  end.

(** [main] up to the call of [loop]: the state in which the run loop is
    entered, or the exit code. *)
Definition main_init (opts : list (ascii * string)) (args : list string)
  : result state :=
  match parse_opts opts (init_state, 0) with
  | inl e => inl e
  | inr sw =>
      match main_setup (length args) sw with
      | inl e => inl e
      | inr st =>
          match expand_specs args st with
          | inl e => inl e
          | inr st =>
              let st := resolve st in
              inr (emit (Sigaction "SIGTERM")
                     (emit (Sigaction "SIGHUP")
                        (emit (Sigaction "SIGINT") st)))
          end
      end
  end.

(** [main(argc, argv)]: the exit status and the final state; [None] when
    the run loop is still going after [fuel] iterations. *)
Definition main (opts : list (ascii * string)) (args : list string)
  (fuel : nat) : option (Z * state) :=
  match main_init opts args with
  | inl e => Some e
  | inr st => loop fuel st
  end.

End Main.

(* ===================================================================== *)
(** ** The interval timer and the program name *)
(* ===================================================================== *)

(** [struct itimerval]: seconds and microseconds of the first expiry and of
    the interval. *)
Record itimerval : Type := mk_itimerval {
  it_value_sec : Z;
  it_value_usec : Z;
  it_interval_sec : Z;
  it_interval_usec : Z
}.

(** The [times] of [timer_init]:
    [it_value = 1 s; it_interval.tv_sec = period / 1000000;
     it_interval.tv_usec = period % 1000000;] with C's division, which
    truncates towards zero. *)
Definition timer_times (period : Z) : itimerval :=
  {| it_value_sec := 1;
     it_value_usec := 0;
     it_interval_sec := Z.quot period 1000000;
     it_interval_usec := Z.rem period 1000000 |}.

(** [timer_init(cb)]: the handler is installed for SIGALRM and [times] is
    handed to [setitimer]. *)
Definition timer_init (st : state) : state * itimerval :=
  (emit (Sigaction "SIGALRM") st, timer_times (period st)).

(** [strrchr(s, c)]: the offset of the last [c] in [s], if any. *)
Fixpoint strrchr (s : string) (c : ascii) : option nat :=
  match s with
  | EmptyString => None
  | String a s' =>
      match strrchr s' c with
      | Some n => Some (S n)
      | None => if Ascii.eqb a c then Some O else None
      end
  end.

(** [progname(arg0)]:
    [nm = strrchr(arg0, '/'); if (nm) nm++; else nm = arg0; return nm;] *)
Definition progname (arg0 : string) : string :=
  match strrchr arg0 "/" with
  | Some p => str_drop (S p) arg0
  | None => arg0
  end.

(* ===================================================================== *)
(** ** Notions used to state properties *)
(* ===================================================================== *)

(** Whether the options leave the program a sender: the last of the mode
    options [-s] and [-j] decides, [b] standing for what precedes. *)
Definition mode_after (b : bool) (opts : list (ascii * string)) : bool :=
  fold_left
    (fun b o =>
       if Ascii.eqb (fst o) "s" then true
       else if Ascii.eqb (fst o) "j" then false
       else b)
    opts b.

(** Whether one of the options is the letter [c]. *)
Definition has_opt (c : ascii) (opts : list (ascii * string)) : bool :=
  existsb (fun o => Ascii.eqb (fst o) c) opts.

(** The part of an address that the stepper counts in (the whole of an
    IPv4 address, bytes 12..15 of an IPv6 one) as a big-endian number, and
    the part before it. *)
Definition low_word (f : family) (a : list Z) : Z :=
  match f with
  | AF_INET => be32 a
  | AF_INET6 => be32 (drop 12 a)
  end.

Definition high_bytes (f : family) (a : list Z) : list Z :=
  match f with
  | AF_INET => []
  | AF_INET6 => take 12 a
  end.

(** The exit status of a step of [main] that returns from [main]. *)
Definition exit_code {A : Type} (r : result A) : option Z :=
  match r with
  | inl e => Some (fst e)
  | inr _ => None
  end.

(** The globals that only the option loop and [main_setup] write. *)
Definition settings (st : state)
  : Z * Z * Z * Z * Z * Z * Z * Z * string :=
  (old st, join st, foreground st, period st, bytes st, count st, port st,
   ttl st, iface st).

Section HistoryShape.

Context `{Config}.

(** A status array that holds a C string of [STATUS_HISTORY - 1]
    characters: no NUL before the last cell, NUL in the last one. *)
Definition history_ok (s : list ascii) : bool :=
  ((length s =? STATUS_HISTORY)%nat
   && forallb (fun c => negb (Ascii.eqb c NUL)) (take (STATUS_HISTORY - 1) s)
   && match s !! (STATUS_HISTORY - 1)%nat with
      | Some c => Ascii.eqb c NUL
      | None => false
      end)%bool.

End HistoryShape.

Section Registry.

Context `{Env}.

(** A record as the expansion loop leaves it: its group text is an address
    of its family, and its socket addresses are still zero. *)
Definition checked (g : gr) : Prop :=
  inet_pton (group_family (gr_group g)) (gr_group g) <> None /\
  gr_src g = sockaddr_zero /\ gr_grp g = sockaddr_zero.

End Registry.

(** The number of records that the specifications [args] ask for. *)
Definition spec_total `{Config} (args : list string) : nat :=
  list_sum (map (fun a => Z.to_nat (spec_num a)) args).

(** [total_count] of [show_stats] before it is cut to [size_t]: the sum of
    the counts. *)
Definition total_count (gs : list gr) : Z :=
  fold_right (fun g t => gr_count g + t) 0 gs.

(** The value that the option [c] leaves in a setting read by [f] from the
    option's argument, [d] being the value before the options: the last [c]
    among the options decides. *)
Definition setting_after {A : Type} (c : ascii) (f : string -> A) (d : A)
  (opts : list (ascii * string)) : A :=
  fold_left (fun v o => if Ascii.eqb (fst o) c then f (snd o) else v) opts d.

Section Advance.

Context `{Config}.


End Advance.


(* ===================================================================== *)
(** ** A reference platform *)
(* ===================================================================== *)

(** Executable models of the collaborators, used to run the program on
    concrete command lines: [inet_pton] and [inet_ntop] as the C library
    has them (the text forms of RFC 4291 section 2.2, the destination left
    untouched when the text with its NUL does not fit in [size]), and a
    receiver and a sender that follow a script. *)
Module Ref.

Definition hexdigits : list ascii :=
  list_ascii_of_string "0123456789abcdef".

Fixpoint string_of_chars (l : list ascii) : string :=
  match l with
  | [] => EmptyString
  | a :: l' => String a (string_of_chars l')
  end.

(** The digits of [n] in base [b], most significant first, at most [fuel]
    of them. *)
Fixpoint digits_of (fuel : nat) (b : Z) (n : Z) (acc : list ascii)
  : list ascii :=
  match fuel with
  | O => acc
  | S fuel' =>
      let d := nth (Z.to_nat (n mod b)) hexdigits NUL in
      if n / b =? 0 then d :: acc else digits_of fuel' b (n / b) (d :: acc)
  end.

(** ["%u"] and ["%x"]. *)
Definition dec (n : Z) : string := string_of_chars (digits_of 20 10 n []).
Definition hex (n : Z) : string := string_of_chars (digits_of 16 16 n []).

Definition hexdigit_of (a : ascii) : option Z :=
  let n := nat_of_ascii a in
  if (Nat.leb 48 n && Nat.leb n 57)%bool then Some (Z.of_nat n - 48)
  else if (Nat.leb 97 n && Nat.leb n 102)%bool then Some (Z.of_nat n - 87)
  else if (Nat.leb 65 n && Nat.leb n 70)%bool then Some (Z.of_nat n - 55)
  else None.

(** The fields of a string separated by [c]. *)
Fixpoint split_on (c : ascii) (s : string) : list string :=
  match s with
  | EmptyString => [EmptyString]
  | String a s' =>
      match split_on c s' with
      | f :: fs =>
          if Ascii.eqb a c then EmptyString :: f :: fs else String a f :: fs
      | [] => []
      end
  end.

(** A number written with the digits [digit], all of the string. *)
Fixpoint number_of (digit : ascii -> option Z) (b : Z) (acc : Z) (s : string)
  : option Z :=
  match s with
  | EmptyString => Some acc
  | String a s' =>
      match digit a with
      | Some d => number_of digit b (b * acc + d) s'
      | None => None
      end
  end.

(** A zero followed by more characters. *)
Definition leading_zero (s : string) : bool :=
  match s with
  | String "0"%char (String _ _) => true
  | _ => false
  end.

(** One decimal octet: one to three digits, no leading zero, at most 255. *)
Definition octet_of (s : string) : option Z :=
  if ((String.length s =? 0)%nat || leading_zero s
      || (3 <? String.length s)%nat)%bool then None
  else match number_of digit_of 10 0 s with
       | Some n => if n <=? 255 then Some n else None
       | None => None
       end.

Fixpoint all_some {A : Type} (l : list (option A)) : option (list A) :=
  match l with
  | [] => Some []
  | Some a :: l' =>
      match all_some l' with
      | Some r => Some (a :: r)
      | None => None
      end
  | None :: _ => None
  end.

(** What the text of an octet must be like: it reads back, has neither a
    dot nor a colon, and is at most three characters long. *)
Definition octet_ok (b : Z) : bool :=
  (match octet_of (dec b) with
   | Some b' => b' =? b
   | None => false
   end
   && negb (has_char (dec b) ".") && negb (has_char (dec b) ":")
   && (String.length (dec b) <=? 3)%nat)%bool.

Definition inet_pton4 (s : string) : option (list Z) :=
  match all_some (map octet_of (split_on "." s)) with
  | Some [a; b; c; d] => Some [a; b; c; d]
  | _ => None
  end.

Definition inet_ntop4_text (a : list Z) : string :=
  match a with
  | [a; b; c; d] => (dec a ++ "." ++ dec b ++ "." ++ dec c ++ "." ++ dec d)%string
  | _ => EmptyString
  end.

(** One group of an IPv6 address: one to four hexadecimal digits, as two
    bytes. *)
Definition group_of (s : string) : option (list Z) :=
  match s with
  | EmptyString => None
  | _ =>
      if (4 <? String.length s)%nat then None
      else match number_of hexdigit_of 16 0 s with
           | Some n => Some [n / 256; n mod 256]
           | None => None
           end
  end.

(** The bytes of colon-separated groups; the last field may be a dotted
    quad when [v4] allows it. *)
Fixpoint groups_of (v4 : bool) (fs : list string) : option (list Z) :=
  match fs with
  | [] => Some []
  | [f] =>
      if (v4 && has_char f ".")%bool then inet_pton4 f else group_of f
  | f :: fs' =>
      match group_of f, groups_of v4 fs' with
      | Some a, Some r => Some (a ++ r)
      | _, _ => None
      end
  end.

Definition side_of (v4 : bool) (s : string) : option (list Z) :=
  match s with
  | EmptyString => Some []
  | _ => groups_of v4 (split_on ":" s)
  end.

Definition inet_pton6 (s : string) : option (list Z) :=
  match String.index 0 "::" s with
  | Some p =>
      match side_of false (str_take p s), side_of true (str_drop (p + 2) s) with
      | Some l, Some r =>
          if (length l + length r <=? 14)%nat then
            Some (l ++ replicate (16 - length l - length r) 0 ++ r)
          else None
      | _, _ => None
      end
  | None =>
      match s with
      | EmptyString => None
      | _ =>
          match groups_of true (split_on ":" s) with
          | Some a => if (length a =? 16)%nat then Some a else None
          | None => None
          end
      end
  end.

(** The eight 16-bit words of an address. *)
Fixpoint words_of (a : list Z) : list Z :=
  match a with
  | hi :: lo :: a' => (hi * 256 + lo) :: words_of a'
  | _ => []
  end.

(** The length of the run of zero words at the head of a list. *)
Fixpoint zero_run (ws : list Z) : nat :=
  match ws with
  | w :: ws' => if w =? 0 then S (zero_run ws') else O
  | [] => O
  end.

(** The first longest run of zero words: its start (counted from [i]) and
    its length, 0 when there is none. *)
Fixpoint best_run (i : nat) (ws : list Z) : nat * nat :=
  match ws with
  | [] => (O, O)
  | _ :: ws' =>
      let n := zero_run ws in
      let '(b, m) := best_run (S i) ws' in
      if (m <? n)%nat || (m =? n)%nat && (0 <? n)%nat then (i, n) else (b, m)
  end.

Fixpoint join_colon (l : list string) : string :=
  match l with
  | [] => EmptyString
  | [s] => s
  | s :: l' => (s ++ ":" ++ join_colon l')%string
  end.

Definition inet_ntop6_text (a : list Z) : string :=
  let ws := words_of a in
  let '(base, len) := best_run 0 ws in
  let v4 := ((base =? 0)%nat
             && ((len =? 6)%nat
                 || ((len =? 5)%nat && (nth 5 ws 0 =? 65535))))%bool in
  let tail := if v4 then [inet_ntop4_text (drop 12 a)] else [] in
  let ws := if v4 then take 6 ws else ws in
  if (len <? 2)%nat then join_colon (map hex ws ++ tail)
  else
    (join_colon (map hex (take base ws)) ++ "::"
     ++ join_colon (map hex (drop (base + len) ws) ++ tail))%string.

(** [inet_ntop(f, a, dst, size)]: the destination after the call. *)
Definition libc_inet_ntop (f : family) (a : list Z) (dst : string) (size : Z)
  : string :=
  let text := match f with
              | AF_INET => inet_ntop4_text a
              | AF_INET6 => inet_ntop6_text a
              end in
  if size <? Z.of_nat (String.length text) + 1 then dst else text.

Definition libc_inet_pton (f : family) (s : string) : option (list Z) :=
  match f with
  | AF_INET => inet_pton4 s
  | AF_INET6 => inet_pton6 s
  end.


(** Constants of a typical build. *)
Definition config : Config :=
  {| MAX_NUM_GROUPS := 2048;
     STATUS_HISTORY := 256;
     STATUS_POS := 254;
     INET_ADDRSTR_LEN := 46;
     DEFAULT_GROUP := "225.1.2.3";
     DEFAULT_PORT := 1234;
     BUFSZ := 1606;
     IFNAMSIZ := 16 |}.

(** The same with a short history and a small table. *)
Definition small_config : Config :=
  {| MAX_NUM_GROUPS := 4;
     STATUS_HISTORY := 8;
     STATUS_POS := 6;
     INET_ADDRSTR_LEN := 46;
     DEFAULT_GROUP := "225.1.2.3";
     DEFAULT_PORT := 1234;
     BUFSZ := 1606;
     IFNAMSIZ := 16 |}.

(** How many units of work have run, read off the trace. *)
Definition calls (st : state) : nat :=
  length (List.filter (fun e => match e with Io _ _ => true | _ => false end)
            (out st)).

(** A scripted unit of work: call number [fail_at] fails with -1, and a
    SIGINT arrives during call number [sig_at]. *)
Definition unit_of_work (what : string) (sig_at fail_at : nat) (st : state)
  : Z * state :=
  let k := calls st in
  let rc := if (k =? fail_at)%nat then -1 else 0 in
  let st := emit (Io what rc) st in
  (rc, if (k =? sig_at)%nat then exit_loop 2 st else st).

(** A scripted receiver: a packet for every group, then a timer tick. *)
Definition receive_all `{Config} (st : state) : state :=
  plotter_show 14
    (set_groups
       (map (fun g =>
               mk_gr (gr_source g) (gr_group g) (gr_src g) (gr_grp g)
                     (mark "."%char (gr_status g)) (gr_spin g)
                     (wrap_size (gr_count g + 1)) (gr_gaps g))
            (groups st))
       st).

Definition env `{Config} (h : endian) (euid : Z) (sig_at fail_at : nat) : Env :=
  {| host := h;
     inet_pton := libc_inet_pton;
     inet_ntop := libc_inet_ntop;
     geteuid := euid;
     log_level := fun s =>
       if (String.eqb s "none" || String.eqb s "notice"
           || String.eqb s "debug")%bool then 0 else 1;
     ifdefault := "eth0";
     ttsize := fun _ => (80, 24);
     daemonize := 0;
     getrlimit := 0;
     setrlimit := 0;
     sender_init := unit_of_work "sender_init" sig_at fail_at;
     receiver_init := unit_of_work "receiver_init" sig_at fail_at;
     sender := unit_of_work "sender" sig_at fail_at;
     receiver := fun _ st =>
       unit_of_work "receiver" sig_at fail_at (receive_all st) |}.

(** The state in which [main] enters the run loop (or leaves) on a command
    line. *)
Definition start `{Config} `{Env} (opts : list (ascii * string))
  (args : list string) : state :=
  match main_init opts args with
  | inl (_, st) => st
  | inr st => st
  end.

(** The short build on a little-endian host, run by a user that is not
    root: a SIGINT during the fourth unit of work, no failure. *)
Definition user_env : Env := @env small_config LittleEndian 1000 3 99.

(** [mcjoin 239.1.1.1 ff08::1] at the entry of the run loop. *)
Definition two_groups : state :=
  Eval vm_compute in
    @start small_config user_env [] ["239.1.1.1"; "ff08::1"]%string.

(** The typical build on a little-endian host. *)
Definition typical_env : Env := @env config LittleEndian 1000 3 99.

(** The table after the group specifications [args], from an empty one. *)
Definition expanded `{Config} `{Env} (args : list string) : state :=
  match expand_specs args init_state with
  | inl (_, st) => st
  | inr st => st
  end.

(** [mcjoin -p 80] at the entry of the run loop. *)
Definition port80 : state :=
  Eval vm_compute in
    @start small_config user_env [("p"%char, "80"%string)] [].

(** A record of the short build with [c] in its newest status slot. *)
Definition record (c : ascii) (n : Z) : gr :=
  {| gr_source := None; gr_group := "239.1.1.1";
     gr_src := sockaddr_zero; gr_grp := sockaddr_zero;
     gr_status := @mark small_config c (@blank_status small_config NUL);
     gr_spin := n; gr_count := 0; gr_gaps := 0 |}.

End Ref.

(* ===================================================================== *)
(** ** Sample sessions *)
(* ===================================================================== *)

Module Sample.

(** [mcjoin -j -v 239.1.1.1] when [main] returns. *)
Definition version_exit : state :=
  Eval vm_compute in
    @Ref.start Ref.small_config Ref.user_env
      [("j"%char, EmptyString); ("v"%char, EmptyString)] ["239.1.1.1"%string].

(** [mcjoin -i wlan0 239.1.1.1] at the entry of the run loop. *)
Definition wlan0 : state :=
  Eval vm_compute in
    @Ref.start Ref.small_config Ref.user_env
      [("i"%char, "wlan0"%string)] ["239.1.1.1"%string].

(** The options [-s -j -s] and [-s -j]. *)
Definition opts_sjs : list (ascii * string) :=
  [("s"%char, EmptyString); ("j"%char, EmptyString); ("s"%char, EmptyString)].

Definition opts_sj : list (ascii * string) :=
  [("s"%char, EmptyString); ("j"%char, EmptyString)].

(** The state and [wait] after the option loop on [opts]. *)
Definition after_opts `{Config} `{Env} (opts : list (ascii * string))
  : state * Z :=
  match parse_opts opts (init_state, 0) with
  | inl (_, st) => (st, 0)
  | inr sw => sw
  end.

Definition after_sjs : state * Z :=
  Eval vm_compute in @after_opts Ref.small_config Ref.user_env opts_sjs.

Definition after_sj : state * Z :=
  Eval vm_compute in @after_opts Ref.small_config Ref.user_env opts_sj.

(** [mcjoin 239.1.1.1+2 ff08::1] at the entry of the run loop. *)
Definition three_groups : state :=
  Eval vm_compute in
    @Ref.start Ref.small_config Ref.user_env []
      ["239.1.1.1+2"; "ff08::1"]%string.

(** A source and a group of full length, with a count. *)
Definition long_spec : string :=
  "ff05:1111:2222:3333:4444:5555:6666:7777,ff05:1111:2222:3333:4444:5555:6666:7778+4".

(** Three records of which the first two were active in the period, in the
    old mode ([mcjoin -o]) and in the screen mode. *)
Definition old_active : state :=
  Eval vm_compute in
    set_groups [Ref.record "." 0; Ref.record "." 5; Ref.record " " 2]
      (@Ref.start Ref.small_config Ref.user_env [("o"%char, EmptyString)] []).

Definition screen_active : state :=
  Eval vm_compute in
    set_groups [Ref.record "." 0; Ref.record "." 5; Ref.record " " 2]
      (@Ref.start Ref.small_config Ref.user_env [] []).

(** A receiver with two groups that have received packets. *)
Definition counted : state :=
  Eval vm_compute in
    set_groups
      [mk_gr None "239.1.1.1" sockaddr_zero sockaddr_zero [] 0 5 0;
       mk_gr None "ff08::1" sockaddr_zero sockaddr_zero [] 0 7 1]
      (@Ref.start Ref.small_config Ref.user_env [] []).

(** [mcjoin -p 5000 -t 300 -p 6000 239.1.1.1] at the entry of the run
    loop. *)
Definition opts_ptp : list (ascii * string) :=
  [("p"%char, "5000"%string); ("t"%char, "300"%string);
   ("p"%char, "6000"%string)].

Definition port_twice : state :=
  Eval vm_compute in
    @Ref.start Ref.small_config Ref.user_env opts_ptp ["239.1.1.1"%string].





End Sample.

(* ===================================================================== *)
(** * Properties *)
(* ===================================================================== *)

(** ** Byte order *)

Lemma byte_of_div (x i : Z) :
  0 <= i -> byte_of x i = (x / 2 ^ (8 * i)) mod 256.
Proof.
  intros Hi. unfold byte_of.
  rewrite Z.shiftr_div_pow2 by lia.
  change 255 with (Z.ones 8).
  rewrite Z.land_ones by lia. reflexivity.
Qed.

Lemma byte_of_is_byte (x i : Z) : 0 <= i -> is_byte (byte_of x i).
Proof.
  intros Hi. rewrite byte_of_div by assumption.
  unfold is_byte. apply Z.mod_pos_bound. lia.
Qed.

Ltac bytes_arith :=
  unfold be32, le32, bswap32, be32_bytes, le32_bytes, wrap32, is_byte in *;
  rewrite ?Z.shiftl_mul_pow2 by lia;
  rewrite ?byte_of_div by lia;
  change (8 * 0) with 0; change (8 * 1) with 8; change (8 * 2) with 16;
  change (8 * 3) with 24;
  change (2 ^ 0) with 1; change (2 ^ 8) with 256; change (2 ^ 16) with 65536;
  change (2 ^ 24) with 16777216; change (2 ^ 32) with 4294967296.

Ltac list4 tac :=
  apply (f_equal2 cons); [tac | apply (f_equal2 cons);
    [tac | apply (f_equal2 cons); [tac | apply (f_equal2 cons);
      [tac | reflexivity]]]].

Lemma be32_of_bytes (x : Z) :
  0 <= x < 2 ^ 32 -> be32 (be32_bytes x) = x.
Proof.
  intros Hx. bytes_arith. rewrite Z.div_1_r.
  Z.div_mod_to_equations. lia.
Qed.

Lemma be32_range (b0 b1 b2 b3 : Z) :
  is_byte b0 -> is_byte b1 -> is_byte b2 -> is_byte b3 ->
  0 <= be32 [b0; b1; b2; b3] < 2 ^ 32.
Proof. intros. bytes_arith. lia. Qed.

Lemma bytes_of_be32 (b0 b1 b2 b3 : Z) :
  is_byte b0 -> is_byte b1 -> is_byte b2 -> is_byte b3 ->
  be32_bytes (be32 [b0; b1; b2; b3]) = [b0; b1; b2; b3].
Proof.
  intros. bytes_arith. rewrite Z.div_1_r.
  list4 ltac:(Z.div_mod_to_equations; lia).
Qed.

Lemma bswap32_le32 (b0 b1 b2 b3 : Z) :
  is_byte b0 -> is_byte b1 -> is_byte b2 -> is_byte b3 ->
  bswap32 (le32 [b0; b1; b2; b3]) = be32 [b0; b1; b2; b3].
Proof.
  intros. bytes_arith. rewrite Z.div_1_r.
  Z.div_mod_to_equations. lia.
Qed.

Lemma le32_bytes_bswap32 (x : Z) :
  0 <= x < 2 ^ 32 -> le32_bytes (bswap32 x) = be32_bytes x.
Proof.
  intros Hx. bytes_arith. rewrite !Z.div_1_r.
  list4 ltac:(Z.div_mod_to_equations; lia).
Qed.

(** Whatever the host byte order, reading a network-order word and
    converting it gives its big-endian value, and converting and writing it
    gives its big-endian bytes. *)
Lemma ntohl_load32 (h : endian) (b0 b1 b2 b3 : Z) :
  is_byte b0 -> is_byte b1 -> is_byte b2 -> is_byte b3 ->
  ntohl h (load32 h [b0; b1; b2; b3]) = be32 [b0; b1; b2; b3].
Proof.
  intros. destruct h; simpl ntohl; simpl load32;
    [apply bswap32_le32; assumption | reflexivity].
Qed.

Lemma store32_htonl (h : endian) (x : Z) :
  0 <= x < 2 ^ 32 -> store32 h (htonl h x) = be32_bytes x.
Proof.
  intros. destruct h; simpl; [apply le32_bytes_bswap32; assumption | reflexivity].
Qed.

(** ** Address stepper *)

Lemma step4_bytes (h : endian) (b0 b1 b2 b3 : Z) :
  is_byte b0 -> is_byte b1 -> is_byte b2 -> is_byte b3 ->
  step4 h [b0; b1; b2; b3]
  = be32_bytes (wrap32 (be32 [b0; b1; b2; b3] + 1)).
Proof.
  intros. unfold step4. cbn [take drop].
  rewrite ntohl_load32 by assumption.
  rewrite store32_htonl by (apply Z.mod_pos_bound; lia).
  apply app_nil_r.
Qed.

Lemma step6_bytes (h : endian) (p : list Z) (b0 b1 b2 b3 : Z) :
  length p = 12%nat ->
  is_byte b0 -> is_byte b1 -> is_byte b2 -> is_byte b3 ->
  step6 h (p ++ [b0; b1; b2; b3])
  = p ++ be32_bytes (wrap32 (be32 [b0; b1; b2; b3] + 1)).
Proof.
  intros Hp ? ? ? ?. unfold step6.
  rewrite (take_app_length' p _ 12 (eq_sym Hp)).
  rewrite (drop_app_length' p _ 12 (eq_sym Hp)).
  replace (drop 16 (p ++ [b0; b1; b2; b3])) with (@nil Z)
    by (symmetry; apply drop_ge; rewrite length_app; simpl; lia).
  cbn [take]. unfold htonl at 1.
  rewrite ntohl_load32 by assumption.
  fold (htonl h (wrap32 (be32 [b0; b1; b2; b3] + 1))).
  rewrite store32_htonl by (apply Z.mod_pos_bound; lia).
  rewrite app_nil_r. reflexivity.
Qed.

Lemma be32_bytes_is_byte (x : Z) : Forall is_byte (be32_bytes x).
Proof. repeat constructor; apply byte_of_is_byte; lia. Qed.

Lemma wrap32_range (x : Z) : 0 <= wrap32 x < 2 ^ 32.
Proof. apply Z.mod_pos_bound. lia. Qed.

(** C1. Whatever the host byte order, the step of an IPv4 address (four
    bytes) adds one to its value as a big-endian 32-bit integer, and the
    step of an IPv6 address (sixteen bytes) adds one to the big-endian
    value of bytes 12..15 and leaves bytes 0..11 as they are; the result is
    again an address of the family. *)
Theorem addr_step_increments (h : endian) (f : family) (a : list Z) :
  length a = addr_size f ->
  Forall is_byte a ->
  length (addr_step h f a) = addr_size f /\
  Forall is_byte (addr_step h f a) /\
  match f with
  | AF_INET => be32 (addr_step h f a) = wrap32 (be32 a + 1)
  | AF_INET6 =>
      take 12 (addr_step h f a) = take 12 a /\
      be32 (drop 12 (addr_step h f a)) = wrap32 (be32 (drop 12 a) + 1)
  end.
Proof.
  intros Hlen Hb. destruct f; simpl in Hlen; simpl addr_step.
  - do 4 (destruct a as [|? a]; [discriminate Hlen|]).
    destruct a; [|discriminate Hlen].
    repeat match goal with
           | Hf : Forall _ (_ :: _) |- _ => inversion_clear Hf
           end.
    rewrite step4_bytes by assumption.
    split; [reflexivity|]. split; [apply be32_bytes_is_byte|].
    apply be32_of_bytes, wrap32_range.
  - pose proof (take_drop 12 a) as Ha.
    assert (Hlp : length (take 12 a) = 12%nat) by (rewrite length_take; lia).
    assert (Hlt : length (drop 12 a) = 4%nat) by (rewrite length_drop; lia).
    remember (take 12 a) as p eqn:Hp. remember (drop 12 a) as t eqn:Ht.
    clear Hp Ht Hlen. subst a.
    apply Forall_app in Hb. destruct Hb as [Hbp Hbt].
    do 4 (destruct t as [|? t]; [discriminate Hlt|]).
    destruct t; [|discriminate Hlt].
    repeat match goal with
           | Hf : Forall _ (_ :: _) |- _ => inversion_clear Hf
           end.
    rewrite step6_bytes by assumption.
    rewrite !(take_app_length' p _ 12 (eq_sym Hlp)).
    rewrite !(drop_app_length' p _ 12 (eq_sym Hlp)).
    split; [rewrite length_app, Hlp; reflexivity|].
    split; [apply Forall_app; split; [assumption | apply be32_bytes_is_byte]|].
    split; [reflexivity|].
    apply be32_of_bytes, wrap32_range.
Qed.

(** The step, three times from 239.1.1.1 and once from ff08::1. *)
Lemma addr_step_increments_witness :
  addr_step LittleEndian AF_INET [239; 1; 1; 1] = [239; 1; 1; 2] /\
  be32 (addr_step LittleEndian AF_INET [239; 1; 1; 1])
  = wrap32 (be32 [239; 1; 1; 1] + 1).
Proof.
  split; [reflexivity|].
  apply (addr_step_increments LittleEndian AF_INET [239; 1; 1; 1]).
  - reflexivity.
  - repeat constructor; unfold is_byte; lia.
Defined.

Example step_239_1_1_1 (h : endian) :
  addr_step h AF_INET [239; 1; 1; 1] = [239; 1; 1; 2] /\
  addr_step h AF_INET [239; 1; 1; 2] = [239; 1; 1; 3] /\
  addr_step h AF_INET [239; 1; 1; 3] = [239; 1; 1; 4].
Proof. destruct h; repeat split; reflexivity. Qed.

Example step_ff08_1 (h : endian) :
  addr_step h AF_INET6 [255; 8; 0; 0; 0; 0; 0; 0; 0; 0; 0; 0; 0; 0; 0; 1]
  = [255; 8; 0; 0; 0; 0; 0; 0; 0; 0; 0; 0; 0; 0; 0; 2].
Proof. destruct h; reflexivity. Qed.

(** The carry runs through the four low bytes and stops there. *)
Example step_carry (h : endian) :
  addr_step h AF_INET [239; 1; 1; 255] = [239; 1; 2; 0] /\
  addr_step h AF_INET [255; 255; 255; 255] = [0; 0; 0; 0] /\
  addr_step h AF_INET6
    [255; 8; 0; 0; 0; 0; 0; 0; 0; 0; 0; 7; 255; 255; 255; 255]
  = [255; 8; 0; 0; 0; 0; 0; 0; 0; 0; 0; 7; 0; 0; 0; 0].
Proof. destruct h; repeat split; reflexivity. Qed.

(** ** Status history *)

Lemma emit_all_groups (es : list event) (st : state) :
  groups (fold_left (fun s e => emit e s) es st) = groups st.
Proof.
  revert st. induction es as [|e es IH]; intros st; [reflexivity|].
  cbn [fold_left]. rewrite IH. reflexivity.
Qed.

Section History.

Context `{Config}.







End History.


Section Spinner.

Context `{Config}.

(** C5, as the code has it.  [spin] returns the glyph at the cursor modulo
    the four glyphs, and moves the cursor by one (modulo [size_t]) exactly
    when the newest status slot holds the dot; with anything else there, a
    blank or another character, it leaves the record as it is. *)
Theorem spin_advances_on_dot (g : gr) :
  fst (spin g) = nth (Z.to_nat (gr_spin g mod 4)) spinner NUL /\
  (gr_status g !! STATUS_POS = Some "."%char ->
   snd (spin g) = set_gr_spin (wrap_size (gr_spin g + 1)) g) /\
  (gr_status g !! STATUS_POS <> Some "."%char -> snd (spin g) = g).
Proof.
  unfold spin, active. cbn [fst snd]. split; [reflexivity|]. split.
  - intros ->. reflexivity.
  - intros Hne. destruct (gr_status g !! STATUS_POS) as [c|]; [|reflexivity].
    destruct (Ascii.eqb_spec c "."%char) as [->|_]; [congruence | reflexivity].
Qed.

Lemma spin_status (g : gr) : gr_status (snd (spin g)) = gr_status g.
Proof. unfold spin. cbn [snd]. destruct (active g); reflexivity. Qed.

Lemma plot_rows_status (spos i : nat) (gs : list gr) :
  map gr_status (fst (plot_rows spos i gs)) = map gr_status gs.
Proof.
  revert i. induction gs as [|g gs IH]; intros i; [reflexivity|].
  cbn [plot_rows]. pose proof (spin_status g) as Hg.
  destruct (spin g) as [act g']. cbn [snd] in Hg.
  specialize (IH (S i)). destruct (plot_rows spos (S i) gs) as [gs' rows].
  cbn [fst map] in *. rewrite Hg, IH. reflexivity.
Qed.

Lemma update_groups_status (st : state) :
  map gr_status (groups (update st))
  = map update_status (map gr_status (groups st)).
Proof.
  unfold update. cbn [groups set_groups]. rewrite !map_map. reflexivity.
Qed.

End Spinner.

Lemma spin_advances_on_dot_witness :
  gr_status (Ref.record "."%char 6) !! @STATUS_POS Ref.small_config
  = Some "."%char /\
  @spin Ref.small_config (Ref.record "."%char 6)
  = ("-"%char, Ref.record "."%char 7).
Proof.
  assert (H1 : gr_status (Ref.record "."%char 6) !! @STATUS_POS Ref.small_config
               = Some "."%char) by reflexivity.
  split; [exact H1|].
  pose proof (@spin_advances_on_dot Ref.small_config (Ref.record "."%char 6))
    as (R1 & R2 & _).
  specialize (R2 H1).
  rewrite (surjective_pairing (@spin Ref.small_config (Ref.record "."%char 6))).
  rewrite R1, R2. reflexivity.
Defined.

(** C5, as stated, fails: with a star, a marker that is not blank, in the
    newest slot, [spin] leaves the cursor where it is. *)
Lemma spin_ignores_other_markers :
  gr_status (Ref.record "*"%char 6) !! @STATUS_POS Ref.small_config
  = Some "*"%char /\
  "*"%char <> " "%char /\
  gr_spin (snd (@spin Ref.small_config (Ref.record "*"%char 6))) = 6 /\
  gr_spin (snd (@spin Ref.small_config (Ref.record "."%char 6))) = 7.
Proof. repeat split; try reflexivity. discriminate. Qed.


(** ** Run loop *)

Lemma emit_all_out (es : list event) (st : state) :
  out (fold_left (fun s e => emit e s) es st) = rev es ++ out st.
Proof.
  revert st. induction es as [|e es IH]; intros st; [reflexivity|].
  cbn [fold_left rev]. rewrite IH, <- app_assoc. reflexivity.
Qed.


Lemma emit_all_modes (es : list event) (st : state) :
  old (fold_left (fun s e => emit e s) es st) = old st /\
  join (fold_left (fun s e => emit e s) es st) = join st /\
  foreground (fold_left (fun s e => emit e s) es st) = foreground st.
Proof.
  revert st. induction es as [|e es IH]; intros st; [auto|].
  cbn [fold_left]. destruct (IH (emit e st)) as (-> & -> & ->). auto.
Qed.

Lemma stats_events_nonempty (st : state) :
  stats_events st <> [] <-> join st <> 0.
Proof.
  unfold stats_events. destruct (Z.eqb_spec (join st) 0) as [He|He].
  - split; [congruence | contradiction].
  - split; [intros _; exact He|]. intros _.
    destruct (stats_lines _ _ _) as [ls total].
    destruct ls; discriminate.
Qed.

(** The stop signal: [exit_loop] clears the run flag, and a second signal
    changes nothing but the debug log. *)
Lemma exit_loop_clears (signo : Z) (st : state) :
  running (exit_loop signo st) = 0.
Proof. reflexivity. Qed.

Lemma exit_loop_again (s1 s2 : Z) (st : state) :
  exit_loop s2 (exit_loop s1 st)
  = emit (DEBUG "We got signal!") (exit_loop s1 st).
Proof. reflexivity. Qed.

Lemma exit_loop_many (k : nat) (signo : Z) (st : state) :
  running (Nat.iter (S k) (exit_loop signo) st) = 0 /\
  groups (Nat.iter (S k) (exit_loop signo) st) = groups st /\
  winchg (Nat.iter (S k) (exit_loop signo) st) = winchg st.
Proof.
  induction k as [|k IH]; [repeat split; reflexivity|].
  destruct IH as (_ & Hg & Hw).
  change (Nat.iter (S (S k)) (exit_loop signo) st)
    with (exit_loop signo (Nat.iter (S k) (exit_loop signo) st)).
  cbn [exit_loop running groups winchg set_running emit].
  repeat split; assumption.
Qed.

Section RunLoopFacts.

Context `{Config} `{Env}.

Lemma loop_while_more_fuel (fuel : nat) :
  forall (rc : Z) (st : state) (r : stop * Z * state),
    loop_while fuel rc st = Some r ->
    forall fuel' : nat, (fuel <= fuel')%nat -> loop_while fuel' rc st = Some r.
Proof.
  induction fuel as [|fuel IH]; intros rc st r Hr fuel' Hle.
  - destruct fuel'; cbn [loop_while] in *;
      destruct (negb (rc =? 0)); [assumption | | assumption |];
      destruct (running st =? 0); [assumption | discriminate
                                   | assumption | discriminate].
  - destruct fuel' as [|fuel']; [lia|].
    cbn [loop_while] in *.
    destruct (negb (rc =? 0)); [assumption|].
    destruct (running st =? 0); [assumption|].
    destruct (work (redraw (winchg st) st)) as [rc' st'].
    apply IH; [assumption | lia].
Qed.

(** How the [while] is left: with the run flag clear and [rc] zero, or with
    the nonzero [rc] that it was entered with or that the last unit of work
    returned. *)
Lemma loop_while_stop (fuel : nat) :
  forall (rc0 : Z) (st0 : state) (why : stop) (rc : Z) (st : state),
    loop_while fuel rc0 st0 = Some (why, rc, st) ->
    (why = FlagCleared /\ rc = 0 /\ running st = 0) \/
    (why = UnitFailed /\ rc <> 0 /\
     ((rc = rc0 /\ st = st0) \/ exists s : state, work s = (rc, st))).
Proof.
  induction fuel as [|fuel IH]; intros rc0 st0 why rc st Hr;
    cbn [loop_while] in Hr;
    destruct (Z.eqb_spec rc0 0) as [Hz|Hz]; cbn [negb] in Hr.
  - destruct (Z.eqb_spec (running st0) 0) as [Hrun|Hrun]; [|discriminate].
    injection Hr as <- <- <-. left. auto.
  - injection Hr as <- <- <-. right. auto.
  - destruct (Z.eqb_spec (running st0) 0) as [Hrun|Hrun].
    + injection Hr as <- <- <-. left. auto.
    + destruct (work (redraw (winchg st0) st0)) as [rc' st'] eqn:Hw.
      apply IH in Hr. destruct Hr as [Hr|(Hy & Hnz & [[-> ->]|Hs])].
      * left. exact Hr.
      * right. split; [exact Hy|]. split; [exact Hnz|]. right. eauto.
      * right. auto.
  - injection Hr as <- <- <-. right. auto.
Qed.

(** An iteration during which the run flag is cleared, by one signal or by
    several, is the last one: its unit of work has run, and the [while] is
    left before another one starts. *)
Lemma loop_stops_after_iteration (fuel : nat) (st st' : state) :
  running st <> 0 ->
  work (redraw (winchg st) st) = (0, st') ->
  running st' = 0 ->
  loop_while (S fuel) 0 st = Some (FlagCleared, 0, st').
Proof.
  intros Hrun Hwork Hclear. cbn [loop_while]. cbn [Z.eqb negb].
  destruct (Z.eqb_spec (running st) 0) as [He|_]; [contradiction|].
  rewrite Hwork. destruct fuel; cbn [loop_while Z.eqb negb]; rewrite Hclear;
    reflexivity.
Qed.

Lemma loop_end_out (rc : Z) (st : state) :
  out (snd (loop_end rc st))
  = cleanup_events st ++ rev (stats_printed rc st)
    ++ (if rc =? 0 then [DEBUG "Leaving main loop"] else []) ++ out st.
Proof.
  unfold loop_end, stats_printed, cleanup_events, show_stats. cbn [snd].
  destruct (rc =? 0).
  - change (stats_events (emit (DEBUG "Leaving main loop") st))
      with (stats_events st).
    destruct (emit_all_modes (stats_events st)
                (emit (DEBUG "Leaving main loop") st)) as (Ho & _ & Hf).
    rewrite Ho, Hf. cbn [old foreground emit].
    destruct (negb (foreground st =? 0) && (old st =? 0))%bool;
      cbn [out emit app]; rewrite emit_all_out; reflexivity.
  - destruct (negb (foreground st =? 0) && (old st =? 0))%bool; reflexivity.
Qed.

Lemma loop_end_rc (rc : Z) (st : state) : fst (loop_end rc st) = rc.
Proof. reflexivity. Qed.

(** C7, as the code has it.  When [main] reaches the run loop and the loop
    returns [rc], [rc] is the exit status of the program, and more fuel
    changes nothing.  [rc] is 0 exactly when the [while] was left because
    the run flag was clear, and is not 0 exactly when it was left because of
    the result of a unit of work ([sender_init], [receiver_init], [sender]
    or [receiver]), which [rc] then is.  The statistics are printed exactly
    when [rc] is 0 and the program is a receiver ([join] is not 0): a sender
    prints none. *)
Theorem run_loop_result (opts : list (ascii * string)) (args : list string)
  (fuel : nat) (st0 : state) (rc : Z) (st' : state) :
  main_init opts args = inr st0 ->
  loop fuel st0 = Some (rc, st') ->
  (forall fuel' : nat, (fuel <= fuel')%nat ->
     main opts args fuel' = Some (rc, st')) /\
  exists (why : stop) (st : state),
    loop_while fuel (fst (work_init (emit (Sigaction "SIGWINCH") st0)))
      (snd (work_init (emit (Sigaction "SIGWINCH") st0)))
    = Some (why, rc, st) /\
    (rc = 0 <-> why = FlagCleared) /\
    (rc <> 0 <-> why = UnitFailed) /\
    (why = FlagCleared -> running st = 0) /\
    (why = UnitFailed ->
     exists s : state, work_init s = (rc, st) \/ work s = (rc, st)) /\
    out st'
    = cleanup_events st ++ rev (stats_printed rc st)
      ++ (if rc =? 0 then [DEBUG "Leaving main loop"] else []) ++ out st /\
    (stats_printed rc st <> [] <-> rc = 0 /\ join st <> 0).
Proof.
  intros Hinit Hloop. unfold loop in Hloop.
  destruct (work_init (emit (Sigaction "SIGWINCH") st0)) as [rc0 st1] eqn:Hwi.
  destruct (loop_while fuel rc0 st1) as [[[why rc1] st]|] eqn:Hw;
    [|discriminate].
  assert (Hend : loop_end rc1 st = (rc, st')) by congruence.
  assert (Hrc : rc1 = rc) by (apply (f_equal fst) in Hend; exact Hend).
  subst rc1.
  assert (Hst : st' = snd (loop_end rc st)) by (rewrite Hend; reflexivity).
  split.
  - intros fuel' Hle. unfold main, loop. rewrite Hinit, Hwi.
    rewrite (loop_while_more_fuel fuel _ _ _ Hw fuel' Hle).
    rewrite Hst. reflexivity.
  - exists why, st. cbn [fst snd].
    pose proof (loop_while_stop fuel _ _ _ _ _ Hw) as Hstop.
    split; [exact Hw|].
    split; [|split; [|split; [|split; [|split]]]].
    + destruct Hstop as [(-> & -> & _)|(-> & Hnz & _)];
        split; intros; congruence.
    + destruct Hstop as [(-> & -> & _)|(-> & Hnz & _)];
        split; intros; congruence.
    + intros ->. destruct Hstop as [(_ & _ & Hr)|(Hc & _)];
        [exact Hr | discriminate].
    + intros ->. destruct Hstop as [(Hc & _)|(_ & _ & [[-> ->]|[s Hs]])];
        [discriminate | |].
      * exists (emit (Sigaction "SIGWINCH") st0). left. exact Hwi.
      * exists s. right. exact Hs.
    + rewrite Hst. apply loop_end_out.
    + unfold stats_printed. destruct (Z.eqb_spec rc 0) as [Hz|Hz].
      * rewrite stats_events_nonempty. tauto.
      * split; [congruence | tauto].
Qed.

End RunLoopFacts.

(** A receiver session of two groups, stopped by a signal. *)
Lemma run_loop_result_witness :
  @main_init Ref.small_config Ref.user_env []
    ["239.1.1.1"; "ff08::1"]%string = inr Ref.two_groups /\
  (exists st' : state,
     @loop Ref.small_config Ref.user_env 10 Ref.two_groups = Some (0, st') /\
     @main Ref.small_config Ref.user_env [] ["239.1.1.1"; "ff08::1"]%string 20
     = Some (0, st')).
Proof.
  assert (H1 : @main_init Ref.small_config Ref.user_env []
                 ["239.1.1.1"; "ff08::1"]%string = inr Ref.two_groups)
    by (vm_compute; reflexivity).
  split; [exact H1|].
  eexists. 
  assert (H2 : @loop Ref.small_config Ref.user_env 10 Ref.two_groups
               = Some (0, snd (match @loop Ref.small_config Ref.user_env 10
                                       Ref.two_groups with
                               | Some r => r
                               | None => (0, Ref.two_groups)
                               end)))
    by (vm_compute; reflexivity).
  split; [exact H2|].
  apply (@run_loop_result Ref.small_config Ref.user_env [] _ 10 _ _ _ H1 H2).
  lia.
Defined.

(** C7, as stated, fails: a sender stopped by a signal returns 0 from the
    run loop and exits with 0, and prints no statistics. *)
Lemma sender_stop_prints_no_statistics :
  exists st' : state,
    @main Ref.small_config Ref.user_env [("s"%char, EmptyString)]
      ["239.1.1.1"%string] 10 = Some (0, st') /\
    existsb is_stats (out st') = false.
Proof. eexists. split; vm_compute; reflexivity. Qed.

(** A unit of work that fails ends the session with its result and
    without statistics. *)
Example receiver_failure_exit :
  exists st' : state,
    @main Ref.small_config (@Ref.env Ref.small_config LittleEndian 1000 99 2)
      [] ["239.1.1.1"%string] 10 = Some (-1, st') /\
    existsb is_stats (out st') = false.
Proof. eexists. split; vm_compute; reflexivity. Qed.

(** ** Group specifications *)

Lemma wrap_int_range (x : Z) : - 2 ^ 31 <= wrap_int x < 2 ^ 31.
Proof.
  unfold wrap_int.
  pose proof (Z.mod_pos_bound (x + 2 ^ 31) (2 ^ 32) ltac:(lia)). lia.
Qed.

Lemma wrap_int_small (x : Z) : - 2 ^ 31 <= x < 2 ^ 31 -> wrap_int x = x.
Proof.
  intros Hx. unfold wrap_int. rewrite Z.mod_small by lia. lia.
Qed.

Lemma atoi_range (s : string) : - 2 ^ 31 <= atoi s < 2 ^ 31.
Proof.
  unfold atoi. destruct (skip_spaces s) as [|a s']; [apply wrap_int_range|].
  destruct a as [[] [] [] [] [] [] [] []]; apply wrap_int_range.
Qed.

Section Specs.

Context `{Config} `{Env}.

Lemma spec_num_range (arg : string) : - 2 ^ 31 <= spec_num arg < 2 ^ 31.
Proof.
  unfold spec_num, parse_spec.
  destruct (strchr (strlcpy INET_ADDRSTR_LEN arg) "+") as [p|].
  - destruct (strchr _ ","); cbn [snd]; apply atoi_range.
  - destruct (strchr _ ","); cbn [snd]; lia.
Qed.

Lemma usage_groups (code : Z) (st : state) :
  fst (usage code st) = code /\
  groups (snd (usage code st)) = groups st /\
  need4 (snd (usage code st)) = need4 st /\
  need6 (snd (usage code st)) = need6 st /\
  out (snd (usage code st)) = Usage code :: out st.
Proof.
  unfold usage. cbn [fst snd].
  destruct (String.eqb (iface st) EmptyString); repeat split; reflexivity.
Qed.

Lemma expand_specs_app (args1 args2 : list string) (st0 : state) :
  expand_specs (args1 ++ args2) st0
  = match expand_specs args1 st0 with
    | inl e => inl e
    | inr st => expand_specs args2 st
    end.
Proof.
  revert st0. induction args1 as [|a args1 IH]; intros st0; [reflexivity|].
  cbn [app expand_specs]. destruct (expand_spec a st0); [reflexivity|].
  apply IH.
Qed.

(** C3. A specification whose count is less than 1, or whose count added to
    the groups already in the table would pass [MAX_NUM_GROUPS], is
    rejected: the error is reported, the table and the family counters are
    as they were, and [main] returns 1 without reaching the run loop,
    whatever the fuel. *)
Theorem capacity_enforced (arg : string) (st : state) :
  Z.of_nat (group_num st) < 2 ^ 63 ->
  spec_num arg < 1 \/
  Z.of_nat MAX_NUM_GROUPS < spec_num arg + Z.of_nat (group_num st) ->
  exists st' : state,
    expand_spec arg st = inl (1, st') /\
    groups st' = groups st /\
    need4 st' = need4 st /\
    need6 st' = need6 st /\
    out st'
    = Usage 1
      :: ERROR "Invalid number of groups given, or max reached." :: out st /\
    forall (opts : list (ascii * string)) (args1 args2 : list string)
           (sw : state * Z) (st0 : state),
      parse_opts opts (init_state, 0) = inr sw ->
      main_setup (length (args1 ++ arg :: args2)) sw = inr st0 ->
      expand_specs args1 st0 = inr st ->
      main_init opts (args1 ++ arg :: args2) = inl (1, st') /\
      forall fuel : nat, main opts (args1 ++ arg :: args2) fuel = Some (1, st').
Proof.
  intros Hgn Hbad.
  pose proof (spec_num_range arg) as Hrange.
  assert (Hcheck : bad_count (spec_num arg) st = true).
  { unfold bad_count. destruct (Z.ltb_spec (spec_num arg) 1) as [Hlt|Hge];
      [reflexivity|]. cbn [orb].
    destruct Hbad as [Hbad|Hbad]; [lia|].
    unfold wrap_size. rewrite Z.mod_small by lia.
    apply Z.leb_le. lia. }
  set (e := emit (ERROR "Invalid number of groups given, or max reached.") st).
  exists (snd (usage 1 e)).
  destruct (usage_groups 1 e) as (Hc & Hg & H4 & H6 & Ho).
  assert (Hspec : expand_spec arg st = inl (1, snd (usage 1 e))).
  { unfold expand_spec. unfold spec_num in Hcheck.
    destruct (parse_spec arg) as [[[source group] buf] num].
    cbn [snd] in Hcheck. rewrite Hcheck. fold e.
    rewrite (surjective_pairing (usage 1 e)), Hc. reflexivity. }
  split; [exact Hspec|].
  split; [exact Hg|]. split; [exact H4|]. split; [exact H6|].
  split; [exact Ho|].
  intros opts args1 args2 sw st0 Hopts Hsetup Hprev.
  assert (Hinit : main_init opts (args1 ++ arg :: args2)
                  = inl (1, snd (usage 1 e))).
  { unfold main_init. rewrite Hopts, Hsetup, expand_specs_app, Hprev.
    cbn [expand_specs]. rewrite Hspec. reflexivity. }
  split; [exact Hinit|].
  intros fuel. unfold main. rewrite Hinit. reflexivity.
Qed.

End Specs.

(** [mcjoin 239.1.1.1 239.2.2.2+4] on the short build, whose table has
    four entries: the second specification is one too many. *)
Lemma capacity_enforced_witness :
  Z.of_nat (group_num (@Ref.expanded Ref.small_config Ref.user_env
                         ["239.1.1.1"%string])) < 2 ^ 63 /\
  (@spec_num Ref.small_config "239.2.2.2+4" < 1 \/
   Z.of_nat (@MAX_NUM_GROUPS Ref.small_config)
   < @spec_num Ref.small_config "239.2.2.2+4"
     + Z.of_nat (group_num (@Ref.expanded Ref.small_config Ref.user_env
                              ["239.1.1.1"%string]))) /\
  exists st' : state,
    @expand_spec Ref.small_config Ref.user_env "239.2.2.2+4"
      (@Ref.expanded Ref.small_config Ref.user_env ["239.1.1.1"%string])
    = inl (1, st') /\
    map gr_group (groups st') = ["239.1.1.1"%string].
Proof.
  assert (H1 : Z.of_nat (group_num (@Ref.expanded Ref.small_config Ref.user_env
                                      ["239.1.1.1"%string])) < 2 ^ 63)
    by (vm_compute; reflexivity).
  assert (H2 : @spec_num Ref.small_config "239.2.2.2+4" < 1 \/
               Z.of_nat (@MAX_NUM_GROUPS Ref.small_config)
               < @spec_num Ref.small_config "239.2.2.2+4"
                 + Z.of_nat (group_num (@Ref.expanded Ref.small_config
                                          Ref.user_env ["239.1.1.1"%string])))
    by (right; vm_compute; reflexivity).
  split; [exact H1|]. split; [exact H2|].
  destruct (@capacity_enforced Ref.small_config Ref.user_env "239.2.2.2+4"
              (@Ref.expanded Ref.small_config Ref.user_env
                 ["239.1.1.1"%string]) H1 H2)
    as (st' & R1 & R2 & _).
  exists st'. split; [exact R1|]. rewrite R2. vm_compute. reflexivity.
Defined.

(** The check is [>=]: a specification that would fill the table exactly
    is rejected as well. *)
Example exact_fill_rejected :
  exists st' : state,
    @expand_spec Ref.small_config Ref.user_env "239.2.2.2+3"
      (@Ref.expanded Ref.small_config Ref.user_env ["239.1.1.1"%string])
    = inl (1, st').
Proof. eexists. vm_compute. reflexivity. Qed.

Section Expansion.

Context `{Config} `{Env}.

Lemma add_group_groups (source : option string) (group : string)
  (st : state) :
  groups (add_group source group st) = groups st ++ [new_gr source group].
Proof. reflexivity. Qed.

(** The expansion loop when every text written by [inet_ntop] reads back:
    one record per turn, the first with the text given, the next ones with
    the texts of the stepped addresses. *)
Lemma expand_loop_consecutive (n : nat) :
  forall (source : option string) (buf group : string) (st : state)
         (a : list Z),
    (group_num st + S n <= MAX_NUM_GROUPS)%nat ->
    inet_pton (group_family group) group = Some a ->
    texts_read_back (group_family group) n a buf ->
    exists st' : state,
      expand_loop (S n) source buf group st = inr st' /\
      groups st'
      = groups st
        ++ map (new_gr source)
             (group :: group_texts (group_family group) n a buf).
Proof.
  induction n as [|n IH]; intros source buf group st a Hroom Hpton Hback.
  - cbn [expand_loop].
    destruct (Nat.leb_spec MAX_NUM_GROUPS (group_num st)) as [Hfull|_];
      [lia|].
    cbn [group_num groups emit]. rewrite Hpton.
    eexists. split; [reflexivity|]. reflexivity.
  - cbn [texts_read_back] in Hback. destruct Hback as (Hfam & Hread & Hback).
    set (f := group_family group) in *.
    set (a' := addr_step host f a) in *.
    set (t := inet_ntop f a' buf (sockaddr_len f)) in *.
    change (expand_loop (S (S n)) source buf group st)
      with (if (MAX_NUM_GROUPS <=? group_num st)%nat then inr st
            else match inet_pton f group with
                 | None =>
                     inl (usage 1
                            (emit (ERROR (group ++ " is not a valid multicast group"))
                               (emit (DEBUG "Converting group to ptr") st)))
                 | Some addr =>
                     expand_loop (S n) source
                       (inet_ntop f (addr_step host f addr) buf (sockaddr_len f))
                       (inet_ntop f (addr_step host f addr) buf (sockaddr_len f))
                       (add_group source group
                          (emit (DEBUG "Adding (S,G) to list ...")
                             (emit (DEBUG "Converting group to ptr") st)))
                 end).
    destruct (Nat.leb_spec MAX_NUM_GROUPS (group_num st)) as [Hfull|_];
      [lia|].
    rewrite Hpton. fold a'. fold t.
    set (st1 := add_group source group _).
    assert (Hst1 : groups st1 = groups st ++ [new_gr source group])
      by reflexivity.
    destruct (IH source t t st1 a') as (st' & Hrun & Hgs).
    + unfold group_num in *. rewrite Hst1, length_app. simpl. lia.
    + rewrite Hfam. exact Hread.
    + rewrite Hfam. exact Hback.
    + exists st'. split; [exact Hrun|].
      rewrite Hgs, Hst1, Hfam, <- app_assoc. reflexivity.
Qed.

Lemma group_texts_length (f : family) (n : nat) :
  forall (a : list Z) (buf : string), length (group_texts f n a buf) = n.
Proof.
  induction n as [|n IH]; intros a buf; [reflexivity|].
  cbn [group_texts length]. rewrite IH. reflexivity.
Qed.

(** The same for a whole specification that passes the check of its count:
    [num] records are added, the first with the group text given. *)
Lemma expand_spec_consecutive (arg : string) (st : state)
  (source : option string) (group buf : string) (num : Z) (a : list Z) :
  parse_spec arg = (source, group, buf, num) ->
  1 <= num ->
  num + Z.of_nat (group_num st) < Z.of_nat MAX_NUM_GROUPS ->
  inet_pton (group_family group) group = Some a ->
  texts_read_back (group_family group) (Z.to_nat num - 1) a buf ->
  exists st' : state,
    expand_spec arg st = inr st' /\
    groups st'
    = groups st
      ++ map (new_gr source)
           (group
            :: group_texts (group_family group) (Z.to_nat num - 1) a buf) /\
    Z.of_nat (group_num st') = Z.of_nat (group_num st) + num.
Proof.
  intros Hparse Hnum Hroom Hpton Hback.
  unfold expand_spec. rewrite Hparse.
  assert (Hcheck : bad_count num st = false).
  { unfold bad_count, wrap_size.
    destruct (Z.ltb_spec num 1) as [Hlt|_]; [lia|]. cbn [orb].
    apply Z.leb_gt.
    pose proof (Z.mod_le (num + Z.of_nat (group_num st)) (2 ^ 64)
                  ltac:(lia) ltac:(lia)).
    lia. }
  rewrite Hcheck.
  assert (Hn : Z.to_nat num = S (Z.to_nat num - 1)) by lia.
  destruct (expand_loop_consecutive (Z.to_nat num - 1) source buf group st a)
    as (st' & Hrun & Hgs); [lia | exact Hpton | exact Hback |].
  exists st'. split; [rewrite Hn; exact Hrun|]. split; [exact Hgs|].
  unfold group_num. rewrite Hgs, length_app, length_map.
  cbn [length]. rewrite group_texts_length. lia.
Qed.

(** A specification without [+] has the count 1. *)
Lemma spec_without_count (arg : string) :
  strchr (strlcpy INET_ADDRSTR_LEN arg) "+" = None -> spec_num arg = 1.
Proof.
  intros Hplus. unfold spec_num, parse_spec. rewrite Hplus.
  destruct (strchr _ ","); reflexivity.
Qed.

End Expansion.

(** [239.1.1.1+4] on the typical build: four records, 239.1.1.1 to
    239.1.1.4; and [ff08::1+2]: ff08::1 and ff08::2. *)
Example expand_239_1_1_1 :
  map gr_group
    (groups (@Ref.expanded Ref.config Ref.typical_env ["239.1.1.1+4"%string]))
  = ["239.1.1.1"; "239.1.1.2"; "239.1.1.3"; "239.1.1.4"]%string /\
  map gr_group
    (groups (@Ref.expanded Ref.config Ref.typical_env ["ff08::1+2"%string]))
  = ["ff08::1"; "ff08::2"]%string /\
  map gr_group
    (groups (@Ref.expanded Ref.config Ref.typical_env ["239.1.1.1"%string]))
  = ["239.1.1.1"%string].
Proof. repeat split; vm_compute; reflexivity. Qed.

(** C2 on the code, at [ff05:1111:2222:3333:4444:5555:6666:7777+2] on the
    typical build.  The specification passes the checks and two records are
    made, but the second has the text of the first: the stepped address,
    whose text is 39 characters long, does not fit in the 28 bytes that
    [inet_ntop] is told [buf] has, so [buf] keeps the text it had. *)
Theorem long_ipv6_group_not_stepped :
  match @expand_spec Ref.config Ref.typical_env
          "ff05:1111:2222:3333:4444:5555:6666:7777+2"
          (@init_state Ref.config) with
  | inr st' =>
      map gr_group (groups st')
      = ["ff05:1111:2222:3333:4444:5555:6666:7777";
         "ff05:1111:2222:3333:4444:5555:6666:7777"]%string
  | inl _ => False
  end /\
  Ref.libc_inet_pton AF_INET6 "ff05:1111:2222:3333:4444:5555:6666:7777"
  = Some [255; 5; 17; 17; 34; 34; 51; 51; 68; 68; 85; 85; 102; 102; 119; 119]
  /\
  Ref.inet_ntop6_text
    (addr_step LittleEndian AF_INET6
       [255; 5; 17; 17; 34; 34; 51; 51; 68; 68; 85; 85; 102; 102; 119; 119])
  = "ff05:1111:2222:3333:4444:5555:6666:7778"%string /\
  Ref.libc_inet_ntop AF_INET6
    (addr_step LittleEndian AF_INET6
       [255; 5; 17; 17; 34; 34; 51; 51; 68; 68; 85; 85; 102; 102; 119; 119])
    "ff05:1111:2222:3333:4444:5555:6666:7777" (sockaddr_len AF_INET6)
  = "ff05:1111:2222:3333:4444:5555:6666:7777"%string.
Proof.
  split; [vm_compute; reflexivity|].
  split; [vm_compute; reflexivity|].
  split; vm_compute; reflexivity.
Qed.

(** ** Address resolution *)

Section Resolution.

Context `{Config} `{Env}.

Lemma count_families (gs : list gr) :
  (count_ipv4 gs + count_ipv6 gs = length gs)%nat.
Proof.
  unfold count_ipv4, count_ipv6.
  induction gs as [|g gs IH]; [reflexivity|].
  cbn [List.filter]. destruct (has_char (gr_group g) ":"); simpl; lia.
Qed.

Lemma resolve_loop_counts (p : Z) (gs : list gr) :
  forall n4 n6 : Z,
    0 <= n4 -> 0 <= n6 ->
    n4 + n6 + Z.of_nat (length gs) < 2 ^ 31 ->
    resolve_loop p gs n4 n6
    = (map (resolve_gr p) gs,
       n4 + Z.of_nat (count_ipv4 gs), n6 + Z.of_nat (count_ipv6 gs)).
Proof.
  induction gs as [|g gs IH]; intros n4 n6 H4 H6 Hsum.
  - cbn. rewrite !Z.add_0_r. reflexivity.
  - cbn [resolve_loop]. unfold count_ipv4, count_ipv6. cbn [List.filter].
    cbn [length] in Hsum.
    destruct (has_char (gr_group g) ":"); cbn [negb].
    + rewrite wrap_int_small by lia.
      rewrite IH by lia. cbn [map length].
      unfold count_ipv4, count_ipv6.
      apply f_equal2; [apply f_equal2; [reflexivity | lia] | lia].
    + rewrite wrap_int_small by lia.
      rewrite IH by lia. cbn [map length].
      unfold count_ipv4, count_ipv6.
      apply f_equal2; [apply f_equal2; [reflexivity | lia] | lia].
Qed.

Lemma resolve_gr_group (p : Z) (g : gr) :
  gr_group (resolve_gr p g) = gr_group g.
Proof. reflexivity. Qed.

(** Resolution, started with both counters at 0, leaves in [need4] the
    number of records whose group text has no colon and in [need6] the
    number of those whose text has one; the texts themselves are as they
    were. *)
Lemma resolve_counts (st : state) :
  need4 st = 0 ->
  need6 st = 0 ->
  Z.of_nat (group_num st) < 2 ^ 31 ->
  need4 (resolve st) = Z.of_nat (count_ipv4 (groups st)) /\
  need6 (resolve st) = Z.of_nat (count_ipv6 (groups st)) /\
  map gr_group (groups (resolve st)) = map gr_group (groups st).
Proof.
  intros H4 H6 Hn. unfold resolve.
  rewrite resolve_loop_counts by (unfold group_num in Hn; lia).
  cbn [need4 need6 groups set_need4 set_need6 set_groups].
  rewrite H4, H6, map_map. repeat split; reflexivity.
Qed.

End Resolution.

(** The session of [mcjoin 239.1.1.1 ff08::1] enters the run loop with one
    group of each family. *)
Example main_counts_families :
  @main_init Ref.small_config Ref.user_env [] ["239.1.1.1"; "ff08::1"]%string
  = inr Ref.two_groups /\
  need4 Ref.two_groups = 1 /\ need6 Ref.two_groups = 1.
Proof. repeat split; vm_compute; reflexivity. Qed.

(** ** Options *)

Lemma store16_htons (h : endian) (p : Z) :
  store16 h (htons h p) = be16_bytes (wrap16 p).
Proof.
  destruct h; [|reflexivity].
  unfold store16, htons, le16_bytes, be16_bytes, bswap16, wrap16.
  pose proof (Z.mod_pos_bound p (2 ^ 16) ltac:(lia)) as Hp.
  set (x := p mod 2 ^ 16) in *.
  rewrite ?Z.shiftl_mul_pow2 by lia.
  rewrite ?byte_of_div by lia.
  change (8 * 0) with 0; change (8 * 1) with 8.
  change (2 ^ 0) with 1; change (2 ^ 8) with 256;
    change (2 ^ 16) with 65536 in Hp.
  rewrite !Z.div_1_r.
  apply f_equal2; [|apply f_equal2; [|reflexivity]];
    Z.div_mod_to_equations; lia.
Qed.

Section Options.

Context `{Config} `{Env}.

(** What the steps of [main] before the run loop leave alone: the port,
    and the output already written. *)
Lemma expand_loop_frame (n : nat) :
  forall (source : option string) (buf group : string) (st st' : state),
    expand_loop n source buf group st = inr st' ->
    port st' = port st /\ exists es : list event, out st' = es ++ out st.
Proof.
  induction n as [|n IH]; intros source buf group st st' Hrun;
    cbn [expand_loop] in Hrun.
  - injection Hrun as <-. split; [reflexivity|]. exists []. reflexivity.
  - destruct (MAX_NUM_GROUPS <=? group_num st)%nat.
    { injection Hrun as <-. split; [reflexivity|]. exists []. reflexivity. }
    destruct (inet_pton (group_family group) group) as [a|]; [|discriminate].
    apply IH in Hrun. destruct Hrun as [Hp [es Ho]].
    split; [rewrite Hp; reflexivity|].
    exists (es ++ [DEBUG "Adding (S,G) to list ..."; 
                   DEBUG "Converting group to ptr"]).
    rewrite Ho, <- app_assoc. reflexivity.
Qed.

Lemma expand_spec_frame (arg : string) (st st' : state) :
  expand_spec arg st = inr st' ->
  port st' = port st /\ exists es : list event, out st' = es ++ out st.
Proof.
  unfold expand_spec. destruct (parse_spec arg) as [[[source group] buf] num].
  destruct (bad_count num st); [discriminate|]. apply expand_loop_frame.
Qed.

Lemma expand_specs_frame (args : list string) :
  forall st st' : state,
    expand_specs args st = inr st' ->
    port st' = port st /\ exists es : list event, out st' = es ++ out st.
Proof.
  induction args as [|arg args IH]; intros st st' Hrun;
    cbn [expand_specs] in Hrun.
  - injection Hrun as <-. split; [reflexivity|]. exists []. reflexivity.
  - destruct (expand_spec arg st) as [e|st1] eqn:Hspec; [discriminate|].
    apply IH in Hrun. apply expand_spec_frame in Hspec.
    destruct Hrun as [Hp [es Ho]]. destruct Hspec as [Hp1 [es1 Ho1]].
    split; [congruence|]. exists (es ++ es1).
    rewrite Ho, Ho1, app_assoc. reflexivity.
Qed.

Lemma main_setup_frame (nargs : nat) (st : state) (wait : Z) (st' : state) :
  main_setup nargs (st, wait) = inr st' ->
  port st' = port st /\ exists es : list event, out st' = es ++ out st.
Proof.
  unfold main_setup. intros Hrun.
  set (st1 := if (nargs =? 0)%nat then add_group None DEFAULT_GROUP st else st)
    in Hrun.
  assert (H1 : port st1 = port st /\ out st1 = out st)
    by (unfold st1; destruct (nargs =? 0)%nat; split; reflexivity).
  destruct H1 as [H1 H2].
  assert (Hrest : forall s : state,
             port s = port st1 -> out s = out st1 ->
             (let s := if negb (wait =? 0) then emit (Sleep wait) s else s in
              let s := if String.eqb (iface s) EmptyString
                       then set_iface ifdefault s else s in
              if negb (getrlimit =? 0)
              then inl (1, emit (ERROR "Failed reading RLIMIT_NOFILE") s)
              else
                let s := emit (DEBUG "NOFILE: current") s in
                if negb (setrlimit =? 0)
                then inl (1, emit (ERROR "Failed setting RLIMIT_NOFILE soft limit") s)
                else inr (emit (DEBUG "NOFILE: set new current") s))
             = inr st' ->
             port st' = port st /\
             exists es : list event, out st' = es ++ out st).
  { intros s Hps Hos. cbv zeta.
    destruct (negb (getrlimit =? 0)); [discriminate|].
    destruct (negb (setrlimit =? 0)); [discriminate|].
    intros Hr. injection Hr as <-. rewrite <- H1, <- H2, <- Hps, <- Hos.
    destruct (negb (wait =? 0)); destruct (String.eqb _ _);
      (split; [reflexivity|]); eexists; cbn [out emit set_iface];
      rewrite ?app_comm_cons; try reflexivity;
      match goal with
      | |- ?a :: ?b :: ?c :: ?l = ?es ++ ?l =>
          instantiate (1 := [a; b; c]); reflexivity
      | |- ?a :: ?b :: ?l = ?es ++ ?l =>
          instantiate (1 := [a; b]); reflexivity
      end. }
  destruct (foreground st1 =? 0).
  - destruct (negb (daemonize =? 0)); [discriminate|].
    apply (Hrest st1); [reflexivity | reflexivity | exact Hrun].
  - destruct (old st1 =? 0).
    + destruct (ttsize st1) as [w h].
      apply (Hrest (set_size w h st1)); [reflexivity | reflexivity | exact Hrun].
    + apply (Hrest st1); [reflexivity | reflexivity | exact Hrun].
Qed.

Lemma resolve_loop_groups (p : Z) (gs : list gr) :
  forall n4 n6 : Z,
    fst (fst (resolve_loop p gs n4 n6)) = map (resolve_gr p) gs.
Proof.
  induction gs as [|g gs IH]; intros n4 n6; [reflexivity|].
  cbn [resolve_loop].
  destruct (has_char (gr_group g) ":").
  - specialize (IH n4 (wrap_int (n6 + 1))).
    destruct (resolve_loop p gs n4 (wrap_int (n6 + 1))) as [[gs' m4] m6].
    cbn [fst] in *. rewrite IH. reflexivity.
  - specialize (IH (wrap_int (n4 + 1)) n6).
    destruct (resolve_loop p gs (wrap_int (n4 + 1)) n6) as [[gs' m4] m6].
    cbn [fst] in *. rewrite IH. reflexivity.
Qed.

Lemma resolve_frame (st : state) :
  port (resolve st) = port st /\
  out (resolve st) = out st /\
  groups (resolve st) = map (resolve_gr (port st)) (groups st).
Proof.
  unfold resolve.
  pose proof (resolve_loop_groups (port st) (groups st) (need4 st) (need6 st))
    as Hg.
  destruct (resolve_loop _ _ _ _) as [[gs n4] n6]. cbn [fst] in Hg.
  split; [reflexivity|]. split; [reflexivity|]. exact Hg.
Qed.

(** The port that the option loop leaves is the one of every group address
    at the entry of the run loop, in network byte order, and what the
    option loop wrote is still part of the output. *)
Lemma main_init_frame (opts : list (ascii * string)) (args : list string)
  (st0 : state) (wait : Z) (st : state) :
  parse_opts opts (init_state, 0) = inr (st0, wait) ->
  main_init opts args = inr st ->
  port st = port st0 /\
  Forall (fun g => sa_port (gr_grp g) = be16_bytes (wrap16 (port st0)))
    (groups st) /\
  exists es : list event, out st = es ++ out st0.
Proof.
  intros Hopts Hinit. unfold main_init in Hinit. rewrite Hopts in Hinit.
  destruct (main_setup (length args) (st0, wait)) as [e|st1] eqn:Hsetup;
    [discriminate|].
  destruct (expand_specs args st1) as [e|st2] eqn:Hspecs; [discriminate|].
  injection Hinit as <-.
  apply main_setup_frame in Hsetup. destruct Hsetup as [Hp1 [es1 Ho1]].
  apply expand_specs_frame in Hspecs. destruct Hspecs as [Hp2 [es2 Ho2]].
  destruct (resolve_frame st2) as (Hp & Ho & Hg).
  cbn [port groups out emit]. split; [congruence|]. split.
  - rewrite Hg. apply List.Forall_forall. intros g Hin.
    apply in_map_iff in Hin. destruct Hin as (g0 & <- & _).
    cbn [resolve_gr gr_grp resolve_addr sa_port].
    rewrite store16_htons. congruence.
  - exists ([Sigaction "SIGTERM"; Sigaction "SIGHUP"; Sigaction "SIGINT"]
            ++ es2 ++ es1).
    rewrite Ho, Ho2, Ho1, <- !app_assoc. reflexivity.
Qed.

(** C10. [-p PORT] with a port below 1024 and an effective user that is not
    root: the error is reported, [main] does not return, the option loop
    goes on with the next option, and a session started that way enters
    the run loop with the given port in [port] and in every group
    address. *)
Theorem privileged_port_is_not_fatal (optarg : string) (st : state)
  (wait : Z) :
  atoi optarg < 1024 ->
  geteuid <> 0 ->
  getopt_case "p" optarg (st, wait)
  = inr (emit (ERROR "Must be root to use privileged ports (< 1024)")
           (set_port (atoi optarg) st), wait) /\
  (forall rest : list (ascii * string),
     parse_opts (("p"%char, optarg) :: rest) (st, wait)
     = parse_opts rest
         (emit (ERROR "Must be root to use privileged ports (< 1024)")
            (set_port (atoi optarg) st), wait)) /\
  (forall (args : list string) (st1 : state),
     main_init [("p"%char, optarg)] args = inr st1 ->
     port st1 = atoi optarg /\
     Forall (fun g => sa_port (gr_grp g) = be16_bytes (wrap16 (atoi optarg)))
       (groups st1) /\
     In (ERROR "Must be root to use privileged ports (< 1024)") (out st1) /\
     forall fuel : nat,
       main [("p"%char, optarg)] args fuel = loop fuel st1).
Proof.
  intros Hlow Hroot.
  assert (Hcase : forall (s : state) (w : Z),
             getopt_case "p" optarg (s, w)
             = inr (emit (ERROR "Must be root to use privileged ports (< 1024)")
                      (set_port (atoi optarg) s), w)).
  { intros s w. unfold getopt_case. cbn [Ascii.eqb Bool.eqb].
    cbn [port set_port].
    destruct (Z.ltb_spec (atoi optarg) 1024) as [_|Hge]; [|lia].
    destruct (Z.eqb_spec geteuid 0) as [He|_]; [contradiction|].
    reflexivity. }
  split; [apply Hcase|]. split.
  - intros rest. cbn [parse_opts]. rewrite Hcase. reflexivity.
  - intros args st1 Hinit.
    assert (Hopts : parse_opts [("p"%char, optarg)] (init_state, 0)
                    = inr (emit
                             (ERROR
                                "Must be root to use privileged ports (< 1024)")
                             (set_port (atoi optarg) init_state), 0))
      by (cbn [parse_opts]; rewrite Hcase; reflexivity).
    destruct (main_init_frame _ _ _ _ _ Hopts Hinit) as (Hp & Hg & es & Ho).
    cbn [port emit set_port] in Hp, Hg.
    split; [exact Hp|]. split; [exact Hg|]. split.
    + rewrite Ho. apply in_or_app. right. left. reflexivity.
    + intros fuel. unfold main. rewrite Hinit. reflexivity.
Qed.

End Options.

(** [mcjoin -p 80] run by a user that is not root. *)
Lemma privileged_port_is_not_fatal_witness :
  atoi "80" < 1024 /\
  @geteuid Ref.user_env <> 0 /\
  @main_init Ref.small_config Ref.user_env [("p"%char, "80"%string)] []
  = inr Ref.port80 /\
  port Ref.port80 = 80 /\
  Forall (fun g => sa_port (gr_grp g) = [0; 80]) (groups Ref.port80).
Proof.
  assert (H1 : atoi "80" < 1024) by (vm_compute; reflexivity).
  assert (H2 : @geteuid Ref.user_env <> 0) by (vm_compute; discriminate).
  assert (H3 : @main_init Ref.small_config Ref.user_env
                 [("p"%char, "80"%string)] [] = inr Ref.port80)
    by (vm_compute; reflexivity).
  split; [exact H1|]. split; [exact H2|]. split; [exact H3|].
  destruct (@privileged_port_is_not_fatal Ref.small_config Ref.user_env
              "80" (@init_state Ref.small_config) 0 H1 H2) as (_ & _ & R).
  destruct (R [] Ref.port80 H3) as (Rp & Rg & _).
  split; [exact Rp | exact Rg].
Defined.

(** ** The reference C library on IPv4 texts *)

Lemma has_char_cons (a : ascii) (s : string) (c : ascii) :
  has_char (String a s) c = (Ascii.eqb a c || has_char s c)%bool.
Proof.
  unfold has_char. cbn [strchr]. destruct (Ascii.eqb a c); [reflexivity|].
  destruct (strchr s c); reflexivity.
Qed.

Lemma has_char_app (s1 s2 : string) (c : ascii) :
  has_char (s1 ++ s2) c = (has_char s1 c || has_char s2 c)%bool.
Proof.
  induction s1 as [|a s1 IH]; [reflexivity|].
  cbn [String.append]. rewrite !has_char_cons, IH. apply orb_assoc.
Qed.

Lemma string_length_app (s1 s2 : string) :
  String.length (s1 ++ s2) = (String.length s1 + String.length s2)%nat.
Proof.
  induction s1 as [|a s1 IH]; [reflexivity|].
  cbn [String.append String.length]. rewrite IH. reflexivity.
Qed.

Lemma split_on_whole (c : ascii) (s : string) :
  has_char s c = false -> Ref.split_on c s = [s].
Proof.
  induction s as [|a s IH]; intros Hno; [reflexivity|].
  rewrite has_char_cons in Hno. apply orb_false_iff in Hno.
  destruct Hno as [Ha Hs]. cbn [Ref.split_on]. rewrite (IH Hs), Ha.
  reflexivity.
Qed.

Lemma split_on_nonempty (c : ascii) (s : string) : Ref.split_on c s <> [].
Proof.
  induction s as [|a s IH]; [discriminate|].
  cbn [Ref.split_on]. destruct (Ref.split_on c s); [contradiction|].
  destruct (Ascii.eqb a c); discriminate.
Qed.

Lemma split_on_app (c : ascii) (s1 s2 : string) :
  has_char s1 c = false ->
  Ref.split_on c (s1 ++ String c s2) = s1 :: Ref.split_on c s2.
Proof.
  induction s1 as [|a s1 IH]; intros Hno.
  - cbn [String.append Ref.split_on]. rewrite Ascii.eqb_refl.
    pose proof (split_on_nonempty c s2) as Hne.
    destruct (Ref.split_on c s2) as [|f fs]; [contradiction | reflexivity].
  - rewrite has_char_cons in Hno. apply orb_false_iff in Hno.
    destruct Hno as [Ha Hs]. cbn [String.append Ref.split_on].
    rewrite (IH Hs), Ha. reflexivity.
Qed.

Lemma octets_ok : forallb Ref.octet_ok (map Z.of_nat (seq 0 256)) = true.
Proof. vm_compute. reflexivity. Qed.

Lemma octet_text (b : Z) :
  is_byte b ->
  Ref.octet_of (Ref.dec b) = Some b /\
  has_char (Ref.dec b) "." = false /\
  has_char (Ref.dec b) ":" = false /\
  (String.length (Ref.dec b) <= 3)%nat.
Proof.
  intros Hb. pose proof octets_ok as Hall.
  rewrite forallb_forall in Hall. specialize (Hall b).
  assert (Hin : In b (map Z.of_nat (seq 0 256))).
  { apply in_map_iff. exists (Z.to_nat b). unfold is_byte in Hb.
    split; [lia|]. apply in_seq. lia. }
  apply Hall in Hin. unfold Ref.octet_ok in Hin.
  apply andb_true_iff in Hin. destruct Hin as [Hin Hlen].
  apply andb_true_iff in Hin. destruct Hin as [Hin Hcolon].
  apply andb_true_iff in Hin. destruct Hin as [Hread Hdot].
  destruct (Ref.octet_of (Ref.dec b)) as [b'|]; [|discriminate].
  apply Z.eqb_eq in Hread. subst b'.
  apply negb_true_iff in Hdot, Hcolon. apply Nat.leb_le in Hlen. auto.
Qed.

(** The text of an IPv4 address reads back as the address, has no colon,
    and fits in the 16 bytes of a [struct sockaddr_in]. *)
Lemma ipv4_text (b0 b1 b2 b3 : Z) (dst : string) :
  is_byte b0 -> is_byte b1 -> is_byte b2 -> is_byte b3 ->
  Ref.libc_inet_ntop AF_INET [b0; b1; b2; b3] dst (sockaddr_len AF_INET)
  = Ref.inet_ntop4_text [b0; b1; b2; b3] /\
  Ref.libc_inet_pton AF_INET (Ref.inet_ntop4_text [b0; b1; b2; b3])
  = Some [b0; b1; b2; b3] /\
  has_char (Ref.inet_ntop4_text [b0; b1; b2; b3]) ":" = false.
Proof.
  intros H0 H1 H2 H3.
  destruct (octet_text b0 H0) as (R0 & D0 & C0 & L0).
  destruct (octet_text b1 H1) as (R1 & D1 & C1 & L1).
  destruct (octet_text b2 H2) as (R2 & D2 & C2 & L2).
  destruct (octet_text b3 H3) as (R3 & D3 & C3 & L3).
  assert (Htext : Ref.inet_ntop4_text [b0; b1; b2; b3]
                  = (Ref.dec b0 ++ String "." (Ref.dec b1 ++ String "."
                       (Ref.dec b2 ++ String "." (Ref.dec b3))))%string)
    by reflexivity.
  split; [|split].
  - unfold Ref.libc_inet_ntop. cbn [sockaddr_len]. rewrite Htext.
    rewrite !string_length_app. cbn [String.length].
    rewrite !string_length_app. cbn [String.length].
    rewrite !string_length_app. cbn [String.length].
    destruct (Z.ltb_spec 16
                (Z.of_nat (String.length (Ref.dec b0)
                           + S (String.length (Ref.dec b1)
                                + S (String.length (Ref.dec b2)
                                     + S (String.length (Ref.dec b3))))) + 1));
      [lia | reflexivity].
  - unfold Ref.libc_inet_pton, Ref.inet_pton4. rewrite Htext.
    rewrite !split_on_app by assumption.
    rewrite split_on_whole by assumption.
    cbn [map]. rewrite R0, R1, R2, R3. reflexivity.
  - rewrite Htext. rewrite !has_char_app, !has_char_cons, !has_char_app,
      !has_char_cons, !has_char_app, !has_char_cons, C0, C1, C2, C3.
    reflexivity.
Qed.

Lemma number_of_decimal_nonneg (s : string) :
  forall acc n : Z,
    0 <= acc -> Ref.number_of digit_of 10 acc s = Some n -> 0 <= n.
Proof.
  induction s as [|a s IH]; intros acc n Hacc Hn; cbn [Ref.number_of] in Hn.
  - injection Hn as <-. exact Hacc.
  - destruct (digit_of a) as [d|] eqn:Hd; [|discriminate].
    apply (IH (10 * acc + d)); [|exact Hn].
    unfold digit_of in Hd.
    destruct (Nat.leb 48 (nat_of_ascii a) && Nat.leb (nat_of_ascii a) 57)%bool
      eqn:Hr; [|discriminate].
    injection Hd as <-. apply andb_true_iff in Hr. destruct Hr as [Hlo _].
    apply Nat.leb_le in Hlo. lia.
Qed.

Lemma octet_of_is_byte (s : string) (n : Z) :
  Ref.octet_of s = Some n -> is_byte n.
Proof.
  unfold Ref.octet_of. intros Hn.
  destruct ((String.length s =? 0)%nat || Ref.leading_zero s
            || (3 <? String.length s)%nat)%bool; [discriminate|].
  destruct (Ref.number_of digit_of 10 0 s) as [m|] eqn:Hm; [|discriminate].
  destruct (Z.leb_spec m 255) as [Hle|_]; [|discriminate].
  injection Hn as <-. unfold is_byte.
  pose proof (number_of_decimal_nonneg s 0 m ltac:(lia) Hm). lia.
Qed.

Lemma inet_pton4_bytes (s : string) (a : list Z) :
  Ref.inet_pton4 s = Some a -> length a = 4%nat /\ Forall is_byte a.
Proof.
  unfold Ref.inet_pton4. intros Ha.
  destruct (Ref.split_on "." s) as [|f0 [|f1 [|f2 [|f3 [|f4 fs]]]]];
    cbn [map Ref.all_some] in Ha; try discriminate.
  - destruct (Ref.octet_of f0); discriminate.
  - destruct (Ref.octet_of f0); [|discriminate].
    destruct (Ref.octet_of f1); discriminate.
  - destruct (Ref.octet_of f0); [|discriminate].
    destruct (Ref.octet_of f1); [|discriminate].
    destruct (Ref.octet_of f2); discriminate.
  - destruct (Ref.octet_of f0) as [b0|] eqn:E0; [|discriminate].
    destruct (Ref.octet_of f1) as [b1|] eqn:E1; [|discriminate].
    destruct (Ref.octet_of f2) as [b2|] eqn:E2; [|discriminate].
    destruct (Ref.octet_of f3) as [b3|] eqn:E3; [|discriminate].
    injection Ha as <-. split; [reflexivity|].
    repeat constructor; eapply octet_of_is_byte; eassumption.
  - destruct (Ref.octet_of f0); [|discriminate].
    destruct (Ref.octet_of f1); [|discriminate].
    destruct (Ref.octet_of f2); [|discriminate].
    destruct (Ref.octet_of f3); [|discriminate].
    destruct (Ref.octet_of f4); [|discriminate].
    destruct (Ref.all_some (map Ref.octet_of fs)); discriminate.
Qed.

Section Ipv4Specs.

Context `{Config}.

Variable h : endian.
Variable euid : Z.
Variables sig_at fail_at : nat.

Let E : Env := Ref.env h euid sig_at fail_at.

Lemma step4_is_address (a : list Z) :
  length a = 4%nat -> Forall is_byte a ->
  length (step4 h a) = 4%nat /\ Forall is_byte (step4 h a).
Proof.
  intros Hlen Hb.
  do 4 (destruct a as [|? a]; [discriminate Hlen|]).
  destruct a; [|discriminate Hlen].
  repeat match goal with
         | Hf : Forall _ (_ :: _) |- _ => inversion_clear Hf
         end.
  rewrite step4_bytes by assumption.
  split; [reflexivity | apply be32_bytes_is_byte].
Qed.

(** What [inet_ntop] leaves in [buf] for the step of an IPv4 address: its
    text, which reads back. *)
Lemma ipv4_step_text (a : list Z) (buf : string) :
  length a = 4%nat -> Forall is_byte a ->
  @inet_ntop E AF_INET (step4 h a) buf (sockaddr_len AF_INET)
  = Ref.inet_ntop4_text (step4 h a) /\
  @inet_pton E AF_INET (Ref.inet_ntop4_text (step4 h a)) = Some (step4 h a) /\
  group_family (Ref.inet_ntop4_text (step4 h a)) = AF_INET.
Proof.
  intros Hlen Hb. destruct (step4_is_address a Hlen Hb) as [Hl' Hb'].
  destruct (step4 h a) as [|b0 [|b1 [|b2 [|b3 [|b4 r]]]]]; try discriminate Hl'.
  repeat match goal with
         | Hf : Forall _ (_ :: _) |- _ => inversion_clear Hf
         end.
  destruct (ipv4_text b0 b1 b2 b3 buf) as (Hn & Hp & Hc); try assumption.
  split; [exact Hn|]. split; [exact Hp|].
  unfold group_family. rewrite Hc. reflexivity.
Qed.

Lemma ipv4_texts_read_back (n : nat) :
  forall (a : list Z) (buf : string),
    length a = 4%nat -> Forall is_byte a ->
    @texts_read_back E AF_INET n a buf.
Proof.
  induction n as [|n IH]; intros a buf Hlen Hb; [exact I|].
  cbn [texts_read_back]. change (@host E) with h. cbn [addr_step].
  destruct (ipv4_step_text a buf Hlen Hb) as (Hn & Hp & Hf).
  destruct (step4_is_address a Hlen Hb) as [Hl' Hb'].
  rewrite Hn. split; [exact Hf|]. split; [exact Hp|].
  apply IH; assumption.
Qed.

(** The texts of the records that follow the first one: the addresses one
    step, two steps, ... after it. *)
Lemma ipv4_group_texts (n : nat) :
  forall (a : list Z) (buf : string),
    length a = 4%nat -> Forall is_byte a ->
    @group_texts E AF_INET n a buf
    = map (fun k => Ref.inet_ntop4_text (Nat.iter (S k) (step4 h) a))
        (seq 0 n).
Proof.
  induction n as [|n IH]; intros a buf Hlen Hb; [reflexivity|].
  cbn [group_texts]. change (@host E) with h. cbn [addr_step].
  destruct (ipv4_step_text a buf Hlen Hb) as (Hn & _ & _).
  destruct (step4_is_address a Hlen Hb) as [Hl' Hb'].
  rewrite Hn, (IH _ _ Hl' Hb'). cbn [seq map Nat.iter].
  f_equal. rewrite <- seq_shift, map_map.
  apply map_ext. intros k. rewrite <- Nat.iter_succ_r. reflexivity.
Qed.

(** On the reference C library, every IPv4 specification whose count
    passes the check gives [num] records: the group given, then the
    addresses one step, two steps, ... after it. *)
Lemma ipv4_spec_consecutive (arg : string) (st : state)
  (source : option string) (group buf : string) (num : Z) (a : list Z) :
  parse_spec arg = (source, group, buf, num) ->
  1 <= num ->
  num + Z.of_nat (group_num st) < Z.of_nat MAX_NUM_GROUPS ->
  has_char group ":" = false ->
  Ref.inet_pton4 group = Some a ->
  exists st' : state,
    @expand_spec H E arg st = inr st' /\
    groups st'
    = groups st
      ++ map (new_gr source)
           (group
            :: map (fun k => Ref.inet_ntop4_text (Nat.iter (S k) (step4 h) a))
                 (seq 0 (Z.to_nat num - 1))) /\
    Z.of_nat (group_num st') = Z.of_nat (group_num st) + num.
Proof.
  intros Hparse Hnum Hroom Hcolon Hpton.
  destruct (inet_pton4_bytes group a Hpton) as [Hlen Hb].
  assert (Hfam : group_family group = AF_INET)
    by (unfold group_family; rewrite Hcolon; reflexivity).
  destruct (@expand_spec_consecutive H E arg st source group buf num a)
    as (st' & Hrun & Hgs & Hcount);
    try assumption.
  - rewrite Hfam. exact Hpton.
  - rewrite Hfam. apply ipv4_texts_read_back; assumption.
  - exists st'. split; [exact Hrun|]. split; [|exact Hcount].
    rewrite Hgs, Hfam, ipv4_group_texts by assumption. reflexivity.
Qed.

End Ipv4Specs.

(** ** The family counters at the entry of the run loop *)

Section Counters.

Context `{Config} `{Env}.

Lemma getopt_case_table (c : ascii) (optarg : string) (st : state) (wait : Z)
  (st' : state) (wait' : Z) :
  getopt_case c optarg (st, wait) = inr (st', wait') ->
  need4 st' = need4 st /\ need6 st' = need6 st /\ groups st' = groups st.
Proof.
  unfold getopt_case.
  repeat match goal with
         | |- context [if ?b then _ else _] => destruct b
         end;
    intros Heq; try discriminate Heq;
    injection Heq as <- <-; repeat split; reflexivity.
Qed.

Lemma parse_opts_table (opts : list (ascii * string)) :
  forall (st : state) (wait : Z) (st' : state) (wait' : Z),
    parse_opts opts (st, wait) = inr (st', wait') ->
    need4 st' = need4 st /\ need6 st' = need6 st /\ groups st' = groups st.
Proof.
  induction opts as [|[c optarg] opts IH]; intros st wait st' wait' Hrun;
    cbn [parse_opts] in Hrun.
  - injection Hrun as <- <-. auto.
  - destruct (getopt_case c optarg (st, wait)) as [e|[st1 w1]] eqn:Hcase;
      [discriminate|].
    apply getopt_case_table in Hcase. apply IH in Hrun.
    destruct Hcase as (C4 & C6 & Cg). destruct Hrun as (R4 & R6 & Rg).
    repeat split; congruence.
Qed.

Lemma main_setup_table (nargs : nat) (st : state) (wait : Z) (st' : state) :
  main_setup nargs (st, wait) = inr st' ->
  need4 st' = need4 st /\ need6 st' = need6 st /\
  groups st'
  = if (nargs =? 0)%nat then groups st ++ [new_gr None DEFAULT_GROUP]
    else groups st.
Proof.
  unfold main_setup. intros Hrun.
  set (st1 := if (nargs =? 0)%nat then add_group None DEFAULT_GROUP st else st)
    in Hrun.
  assert (H1 : need4 st1 = need4 st /\ need6 st1 = need6 st /\
               groups st1
               = if (nargs =? 0)%nat
                 then groups st ++ [new_gr None DEFAULT_GROUP]
                 else groups st)
    by (unfold st1; destruct (nargs =? 0)%nat; repeat split; reflexivity).
  clearbody st1.
  destruct (foreground st1 =? 0).
  - destruct (negb (daemonize =? 0)); [discriminate|].
    destruct (negb (getrlimit =? 0)); [discriminate|].
    destruct (negb (setrlimit =? 0)); [discriminate|].
    injection Hrun as <-.
    destruct (negb (wait =? 0)); destruct (String.eqb _ _); exact H1.
  - destruct (old st1 =? 0).
    + destruct (ttsize st1) as [w h].
      destruct (negb (getrlimit =? 0)); [discriminate|].
      destruct (negb (setrlimit =? 0)); [discriminate|].
      injection Hrun as <-.
      destruct (negb (wait =? 0)); destruct (String.eqb _ _); exact H1.
    + destruct (negb (getrlimit =? 0)); [discriminate|].
      destruct (negb (setrlimit =? 0)); [discriminate|].
      injection Hrun as <-.
      destruct (negb (wait =? 0)); destruct (String.eqb _ _); exact H1.
Qed.

(** The expansion never fills the table beyond [MAX_NUM_GROUPS], and does
    not touch the counters. *)
Lemma expand_loop_table (n : nat) :
  forall (source : option string) (buf group : string) (st st' : state),
    expand_loop n source buf group st = inr st' ->
    need4 st' = need4 st /\ need6 st' = need6 st /\
    (group_num st' <= Nat.max (group_num st) MAX_NUM_GROUPS)%nat.
Proof.
  induction n as [|n IH]; intros source buf group st st' Hrun;
    cbn [expand_loop] in Hrun.
  - injection Hrun as <-. repeat split; lia.
  - destruct (Nat.leb_spec MAX_NUM_GROUPS (group_num st)) as [Hfull|Hroom].
    { injection Hrun as <-. repeat split; lia. }
    destruct (inet_pton (group_family group) group) as [a|]; [|discriminate].
    apply IH in Hrun. destruct Hrun as (H4 & H6 & Hn).
    split; [rewrite H4; reflexivity|]. split; [rewrite H6; reflexivity|].
    unfold group_num in *. cbn [groups add_group set_groups emit] in Hn.
    rewrite length_app in Hn. cbn [length] in Hn. lia.
Qed.

Lemma expand_specs_table (args : list string) :
  forall st st' : state,
    expand_specs args st = inr st' ->
    need4 st' = need4 st /\ need6 st' = need6 st /\
    (group_num st' <= Nat.max (group_num st) MAX_NUM_GROUPS)%nat.
Proof.
  induction args as [|arg args IH]; intros st st' Hrun;
    cbn [expand_specs] in Hrun.
  - injection Hrun as <-. repeat split; lia.
  - destruct (expand_spec arg st) as [e|st1] eqn:Hspec; [discriminate|].
    apply IH in Hrun. destruct Hrun as (H4 & H6 & Hn).
    unfold expand_spec in Hspec.
    destruct (parse_spec arg) as [[[source group] buf] num].
    destruct (bad_count num st); [discriminate|].
    apply expand_loop_table in Hspec. destruct Hspec as (G4 & G6 & Gn).
    split; [congruence|]. split; [congruence|]. lia.
Qed.

Lemma resolve_gr_counts (p : Z) (gs : list gr) :
  count_ipv4 (map (resolve_gr p) gs) = count_ipv4 gs /\
  count_ipv6 (map (resolve_gr p) gs) = count_ipv6 gs.
Proof.
  unfold count_ipv4, count_ipv6.
  induction gs as [|g gs [IH4 IH6]]; [split; reflexivity|].
  cbn [map List.filter]. rewrite resolve_gr_group.
  destruct (has_char (gr_group g) ":"); cbn [negb length];
    rewrite IH4, IH6; split; reflexivity.
Qed.

(** C8. Whatever the command line, when [main] has resolved the table and
    reaches the run loop, [need4] is the number of groups whose text has no
    colon and [need6] the number of those whose text has one. *)
Theorem family_counters (opts : list (ascii * string)) (args : list string)
  (st : state) :
  Z.of_nat MAX_NUM_GROUPS < 2 ^ 31 ->
  main_init opts args = inr st ->
  need4 st = Z.of_nat (count_ipv4 (groups st)) /\
  need6 st = Z.of_nat (count_ipv6 (groups st)).
Proof.
  intros Hmax Hinit. unfold main_init in Hinit.
  destruct (parse_opts opts (init_state, 0)) as [e|[st0 wait]] eqn:Hopts;
    [discriminate|].
  destruct (main_setup (length args) (st0, wait)) as [e|st1] eqn:Hsetup;
    [discriminate|].
  destruct (expand_specs args st1) as [e|st2] eqn:Hspecs; [discriminate|].
  injection Hinit as <-.
  apply parse_opts_table in Hopts. destruct Hopts as (O4 & O6 & Og).
  apply main_setup_table in Hsetup. destruct Hsetup as (S4 & S6 & Sg).
  apply expand_specs_table in Hspecs. destruct Hspecs as (E4 & E6 & En).
  cbn [need4 need6 groups init_state] in O4, O6, Og.
  assert (Hn1 : (group_num st1 <= 1)%nat).
  { unfold group_num. rewrite Sg, Og.
    destruct (length args =? 0)%nat; simpl; lia. }
  assert (Hn2 : Z.of_nat (group_num st2) < 2 ^ 31) by lia.
  assert (H4 : need4 st2 = 0) by congruence.
  assert (H6 : need6 st2 = 0) by congruence.
  cbn [need4 need6 groups emit].
  unfold resolve.
  rewrite resolve_loop_counts by (unfold group_num in Hn2; lia).
  cbn [need4 need6 groups set_need4 set_need6 set_groups].
  destruct (resolve_gr_counts (port st2) (groups st2)) as [-> ->].
  rewrite H4, H6. split; reflexivity.
Qed.

(** Every record that [main] makes has a zeroed status array until the
    resolution loop fills it with blanks. *)
Lemma expand_loop_zeroed (n : nat) :
  forall (source : option string) (buf group : string) (st st' : state),
    Forall (fun g => gr_status g = replicate STATUS_HISTORY NUL) (groups st) ->
    expand_loop n source buf group st = inr st' ->
    Forall (fun g => gr_status g = replicate STATUS_HISTORY NUL) (groups st').
Proof.
  induction n as [|n IH]; intros source buf group st st' Hz Hrun;
    cbn [expand_loop] in Hrun.
  - injection Hrun as <-. exact Hz.
  - destruct (MAX_NUM_GROUPS <=? group_num st)%nat;
      [injection Hrun as <-; exact Hz|].
    destruct (inet_pton (group_family group) group) as [a|]; [|discriminate].
    apply IH in Hrun; [exact Hrun|].
    cbn [groups add_group set_groups emit].
    apply Forall_app. split; [exact Hz|]. repeat constructor.
Qed.

Lemma expand_specs_zeroed (args : list string) :
  forall st st' : state,
    Forall (fun g => gr_status g = replicate STATUS_HISTORY NUL) (groups st) ->
    expand_specs args st = inr st' ->
    Forall (fun g => gr_status g = replicate STATUS_HISTORY NUL) (groups st').
Proof.
  induction args as [|arg args IH]; intros st st' Hz Hrun;
    cbn [expand_specs] in Hrun.
  - injection Hrun as <-. exact Hz.
  - destruct (expand_spec arg st) as [e|st1] eqn:Hspec; [discriminate|].
    apply (IH st1); [|exact Hrun].
    unfold expand_spec in Hspec.
    destruct (parse_spec arg) as [[[source group] buf] num].
    destruct (bad_count num st); [discriminate|].
    eapply expand_loop_zeroed; eassumption.
Qed.

Lemma memset_zeroed :
  (1 <= STATUS_HISTORY)%nat ->
  memset " "%char (STATUS_HISTORY - 1) (replicate STATUS_HISTORY NUL)
  = blank_status NUL.
Proof.
  intros Hh. unfold memset, blank_status.
  rewrite length_replicate, drop_replicate.
  replace (Nat.min (STATUS_HISTORY - 1) STATUS_HISTORY)
    with (STATUS_HISTORY - 1)%nat by lia.
  replace (STATUS_HISTORY - (STATUS_HISTORY - 1))%nat with 1%nat by lia.
  reflexivity.
Qed.

(** Whatever the command line, [main] enters the run loop with a fresh
    history in every record: [STATUS_HISTORY - 1] blanks and the NUL. *)
Lemma main_init_fresh (opts : list (ascii * string)) (args : list string)
  (st : state) :
  (1 <= STATUS_HISTORY)%nat ->
  main_init opts args = inr st ->
  Forall (fun g => gr_status g = blank_status NUL) (groups st).
Proof.
  intros Hh Hinit. unfold main_init in Hinit.
  destruct (parse_opts opts (init_state, 0)) as [e|[st0 wait]] eqn:Hopts;
    [discriminate|].
  destruct (main_setup (length args) (st0, wait)) as [e|st1] eqn:Hsetup;
    [discriminate|].
  destruct (expand_specs args st1) as [e|st2] eqn:Hspecs; [discriminate|].
  injection Hinit as <-.
  apply parse_opts_table in Hopts. destruct Hopts as (_ & _ & Og).
  apply main_setup_table in Hsetup. destruct Hsetup as (_ & _ & Sg).
  cbn [groups init_state] in Og.
  assert (Hz1 : Forall (fun g => gr_status g = replicate STATUS_HISTORY NUL)
                  (groups st1)).
  { rewrite Sg, Og. destruct (length args =? 0)%nat; repeat constructor. }
  pose proof (expand_specs_zeroed args st1 st2 Hz1 Hspecs) as Hz2.
  cbn [groups emit]. destruct (resolve_frame st2) as (_ & _ & ->).
  apply List.Forall_forall. intros g Hin.
  apply in_map_iff in Hin. destruct Hin as (g0 & <- & Hin0).
  rewrite List.Forall_forall in Hz2. specialize (Hz2 g0 Hin0).
  cbn [resolve_gr gr_status]. rewrite Hz2. apply memset_zeroed. exact Hh.
Qed.

End Counters.

(** [mcjoin 239.1.1.1 ff08::1]: one group of each family. *)
Lemma family_counters_witness :
  Z.of_nat (@MAX_NUM_GROUPS Ref.small_config) < 2 ^ 31 /\
  @main_init Ref.small_config Ref.user_env [] ["239.1.1.1"; "ff08::1"]%string
  = inr Ref.two_groups /\
  map gr_group (groups Ref.two_groups) = ["239.1.1.1"; "ff08::1"]%string /\
  need4 Ref.two_groups = 1 /\
  need6 Ref.two_groups = 1.
Proof.
  assert (H1 : Z.of_nat (@MAX_NUM_GROUPS Ref.small_config) < 2 ^ 31)
    by (vm_compute; reflexivity).
  assert (H2 : @main_init Ref.small_config Ref.user_env []
                 ["239.1.1.1"; "ff08::1"]%string = inr Ref.two_groups)
    by (vm_compute; reflexivity).
  split; [exact H1|]. split; [exact H2|].
  split; [vm_compute; reflexivity|].
  destruct (@family_counters Ref.small_config Ref.user_env [] _ _ H1 H2)
    as [R4 R6].
  rewrite R4, R6. split; vm_compute; reflexivity.
Defined.

(* ===================================================================== *)
(** * Further properties of the code *)
(* ===================================================================== *)

(** ** The stepper, repeated *)

Lemma wrap32_add_succ (x : Z) (n : nat) :
  wrap32 (wrap32 (x + Z.of_nat n) + 1) = wrap32 (x + Z.of_nat (S n)).
Proof.
  unfold wrap32. rewrite Z.add_mod_idemp_l by lia. f_equal. lia.
Qed.

Lemma step6_is_address (h : endian) (a : list Z) :
  length a = 16%nat -> Forall is_byte a ->
  length (step6 h a) = 16%nat /\ Forall is_byte (step6 h a) /\
  take 12 (step6 h a) = take 12 a /\
  be32 (drop 12 (step6 h a)) = wrap32 (be32 (drop 12 a) + 1).
Proof.
  intros Hlen Hb.
  pose proof (take_drop 12 a) as Ha.
  assert (Hlp : length (take 12 a) = 12%nat) by (rewrite length_take; lia).
  assert (Hlt : length (drop 12 a) = 4%nat) by (rewrite length_drop; lia).
  remember (take 12 a) as p eqn:Hp. remember (drop 12 a) as t eqn:Ht.
  clear Hp Ht Hlen. subst a.
  apply Forall_app in Hb. destruct Hb as [Hbp Hbt].
  do 4 (destruct t as [|? t]; [discriminate Hlt|]).
  destruct t; [|discriminate Hlt].
  repeat match goal with
         | Hf : Forall _ (_ :: _) |- _ => inversion_clear Hf
         end.
  rewrite step6_bytes by assumption.
  rewrite !(take_app_length' p _ 12 (eq_sym Hlp)).
  rewrite !(drop_app_length' p _ 12 (eq_sym Hlp)).
  split; [rewrite length_app, Hlp; reflexivity|].
  split; [apply Forall_app; split; [assumption | apply be32_bytes_is_byte]|].
  split; [reflexivity|].
  apply be32_of_bytes, wrap32_range.
Qed.

Lemma step4_value (h : endian) (a : list Z) :
  length a = 4%nat -> Forall is_byte a ->
  length (step4 h a) = 4%nat /\ Forall is_byte (step4 h a) /\
  be32 (step4 h a) = wrap32 (be32 a + 1).
Proof.
  intros Hlen Hb.
  do 4 (destruct a as [|? a]; [discriminate Hlen|]).
  destruct a; [|discriminate Hlen].
  repeat match goal with
         | Hf : Forall _ (_ :: _) |- _ => inversion_clear Hf
         end.
  rewrite step4_bytes by assumption.
  split; [reflexivity|]. split; [apply be32_bytes_is_byte|].
  apply be32_of_bytes, wrap32_range.
Qed.

Lemma addr_step_value (h : endian) (f : family) (a : list Z) :
  length a = addr_size f -> Forall is_byte a ->
  length (addr_step h f a) = addr_size f /\
  Forall is_byte (addr_step h f a) /\
  high_bytes f (addr_step h f a) = high_bytes f a /\
  low_word f (addr_step h f a) = wrap32 (low_word f a + 1).
Proof.
  intros Hlen Hb. destruct f; cbn [addr_step addr_size high_bytes low_word] in *.
  - destruct (step4_value h a Hlen Hb) as (H1 & H2 & H3). auto.
  - apply step6_is_address; assumption.
Qed.

Lemma low_word_range (f : family) (a : list Z) :
  length a = addr_size f -> Forall is_byte a -> 0 <= low_word f a < 2 ^ 32.
Proof.
  intros Hlen Hb. destruct f; cbn [addr_size low_word] in *.
  - do 4 (destruct a as [|? a]; [discriminate Hlen|]).
    destruct a; [|discriminate Hlen].
    repeat match goal with
           | Hf : Forall _ (_ :: _) |- _ => inversion_clear Hf
           end.
    apply be32_range; assumption.
  - assert (Hlt : length (drop 12 a) = 4%nat) by (rewrite length_drop; lia).
    assert (Hbt : Forall is_byte (drop 12 a)) by (apply Forall_drop; exact Hb).
    destruct (drop 12 a) as [|b0 [|b1 [|b2 [|b3 [|b4 t]]]]];
      try discriminate Hlt.
    repeat match goal with
           | Hf : Forall _ (_ :: _) |- _ => inversion_clear Hf
           end.
    apply be32_range; assumption.
Qed.

Lemma addr_step_iter_value (h : endian) (f : family) (n : nat) :
  forall a : list Z,
    length a = addr_size f -> Forall is_byte a ->
    length (Nat.iter n (addr_step h f) a) = addr_size f /\
    Forall is_byte (Nat.iter n (addr_step h f) a) /\
    high_bytes f (Nat.iter n (addr_step h f) a) = high_bytes f a /\
    low_word f (Nat.iter n (addr_step h f) a)
    = wrap32 (low_word f a + Z.of_nat n).
Proof.
  induction n as [|n IH]; intros a Hlen Hb.
  - cbn [Nat.iter]. repeat split; try assumption.
    pose proof (low_word_range f a Hlen Hb).
    unfold wrap32. rewrite Z.add_0_r, Z.mod_small by assumption. reflexivity.
  - rewrite Nat.iter_succ. destruct (IH a Hlen Hb) as (Hl & Hv & Hh & Hw).
    destruct (addr_step_value h f _ Hl Hv) as (Hl' & Hv' & Hh' & Hw').
    split; [exact Hl'|]. split; [exact Hv'|].
    split; [rewrite Hh'; exact Hh|].
    rewrite Hw', Hw. apply wrap32_add_succ.
Qed.

(** X1. Stepping composes: after [n] steps the part of the address that
    counts (the whole IPv4 address, bytes 12..15 of an IPv6 one) is the
    start value plus [n] modulo 2^32, the bytes before it are untouched,
    and the result is still an address of the family. *)
Theorem addr_step_iterated (h : endian) (f : family) (n : nat)
  (a : list Z) :
  length a = addr_size f ->
  Forall is_byte a ->
  length (Nat.iter n (addr_step h f) a) = addr_size f /\
  Forall is_byte (Nat.iter n (addr_step h f) a) /\
  high_bytes f (Nat.iter n (addr_step h f) a) = high_bytes f a /\
  low_word f (Nat.iter n (addr_step h f) a)
  = (low_word f a + Z.of_nat n) mod 2 ^ 32.
Proof. intros Hlen Hb. apply addr_step_iter_value; assumption. Qed.

Lemma addr_step_iterated_witness :
  length [239; 1; 1; 250] = addr_size AF_INET /\
  Forall is_byte [239; 1; 1; 250] /\
  Nat.iter 10 (addr_step BigEndian AF_INET) [239; 1; 1; 250]
  = [239; 1; 2; 4] /\
  low_word AF_INET (Nat.iter 10 (addr_step BigEndian AF_INET) [239; 1; 1; 250])
  = (low_word AF_INET [239; 1; 1; 250] + 10) mod 2 ^ 32.
Proof.
  assert (H1 : length [239; 1; 1; 250] = addr_size AF_INET) by reflexivity.
  assert (H2 : Forall is_byte [239; 1; 1; 250])
    by (repeat constructor; unfold is_byte; lia).
  split; [exact H1|]. split; [exact H2|].
  split; [vm_compute; reflexivity|].
  apply (addr_step_iterated BigEndian AF_INET 10 [239; 1; 1; 250] H1 H2).
Defined.

(** X2. The stepper does not come back to an address before 2^32 steps:
    two numbers of steps less than 2^32 apart lead to different addresses,
    so the addresses of one [GROUP+NUM] are pairwise distinct. *)
Theorem addr_step_distinct (h : endian) (f : family) (a : list Z)
  (i j : nat) :
  length a = addr_size f ->
  Forall is_byte a ->
  (i < j)%nat ->
  Z.of_nat j - Z.of_nat i < 2 ^ 32 ->
  Nat.iter i (addr_step h f) a <> Nat.iter j (addr_step h f) a.
Proof.
  intros Hlen Hb Hij Hnear Heq.
  destruct (addr_step_iter_value h f i a Hlen Hb) as (_ & _ & _ & Hi).
  destruct (addr_step_iter_value h f j a Hlen Hb) as (_ & _ & _ & Hj).
  rewrite Heq, Hj in Hi. unfold wrap32 in Hi.
  change (2 ^ 32) with 4294967296 in *.
  Z.div_mod_to_equations. lia.
Qed.

Lemma addr_step_distinct_witness :
  length [255; 8; 0; 0; 0; 0; 0; 0; 0; 0; 0; 0; 255; 255; 255; 255]
  = addr_size AF_INET6 /\
  Forall is_byte [255; 8; 0; 0; 0; 0; 0; 0; 0; 0; 0; 0; 255; 255; 255; 255] /\
  (0 < 3)%nat /\
  Z.of_nat 3 - Z.of_nat 0 < 2 ^ 32 /\
  Nat.iter 0 (addr_step LittleEndian AF_INET6)
    [255; 8; 0; 0; 0; 0; 0; 0; 0; 0; 0; 0; 255; 255; 255; 255]
  <> Nat.iter 3 (addr_step LittleEndian AF_INET6)
       [255; 8; 0; 0; 0; 0; 0; 0; 0; 0; 0; 0; 255; 255; 255; 255].
Proof.
  assert (H1 : length [255; 8; 0; 0; 0; 0; 0; 0; 0; 0; 0; 0; 255; 255; 255; 255]
               = addr_size AF_INET6) by reflexivity.
  assert (H2 : Forall is_byte
                 [255; 8; 0; 0; 0; 0; 0; 0; 0; 0; 0; 0; 255; 255; 255; 255])
    by (repeat constructor; unfold is_byte; lia).
  assert (H3 : (0 < 3)%nat) by lia.
  assert (H4 : Z.of_nat 3 - Z.of_nat 0 < 2 ^ 32) by (vm_compute; reflexivity).
  split; [exact H1|]. split; [exact H2|]. split; [exact H3|].
  split; [exact H4|].
  exact (addr_step_distinct LittleEndian AF_INET6 _ 0 3 H1 H2 H3 H4).
Defined.

(** ** The interval timer *)

Section Timer.

Context `{Config} `{Env}.

(** X3. [-f MSEC] with 0 <= MSEC <= 2147483 (so that the period in
    microseconds fits an [int]) does not end [main], and a timer armed
    with the period it leaves expires first after one second and then
    every MSEC milliseconds: the interval is MSEC / 1000 seconds and
    (MSEC mod 1000) * 1000 microseconds. *)
Theorem frequency_option_sets_interval (optarg : string) (st : state)
  (wait : Z) :
  0 <= atoi optarg <= 2147483 ->
  getopt_case "f" optarg (st, wait)
  = inr (set_period (atoi optarg * 1000) st, wait) /\
  timer_init (set_period (atoi optarg * 1000) st)
  = (emit (Sigaction "SIGALRM") (set_period (atoi optarg * 1000) st),
     {| it_value_sec := 1;
        it_value_usec := 0;
        it_interval_sec := atoi optarg / 1000;
        it_interval_usec := (atoi optarg mod 1000) * 1000 |}) /\
  0 <= (atoi optarg mod 1000) * 1000 < 1000000.
Proof.
  intros Hms. split; [|split].
  - unfold getopt_case. cbn [Ascii.eqb Bool.eqb].
    rewrite wrap_int_small by (change (2 ^ 31) with 2147483648; lia).
    reflexivity.
  - unfold timer_init, timer_times. cbn [period set_period].
    rewrite Z.quot_div_nonneg, Z.rem_mod_nonneg by lia.
    f_equal. f_equal.
    + change 1000000 with (1000 * 1000).
      rewrite Z.div_mul_cancel_r by lia. reflexivity.
    + change 1000000 with (1000 * 1000).
      rewrite Z.mul_mod_distr_r by lia. reflexivity.
  - pose proof (Z.mod_pos_bound (atoi optarg) 1000 ltac:(lia)). lia.
Qed.

End Timer.

Lemma frequency_option_sets_interval_witness :
  0 <= atoi "250" <= 2147483 /\
  snd (timer_init (set_period (atoi "250" * 1000) (@init_state Ref.config)))
  = {| it_value_sec := 1; it_value_usec := 0;
       it_interval_sec := 0; it_interval_usec := 250000 |}.
Proof.
  assert (H1 : 0 <= atoi "250" <= 2147483) by (vm_compute; split; discriminate).
  split; [exact H1|].
  destruct (@frequency_option_sets_interval Ref.config Ref.typical_env
              "250" (@init_state Ref.config) 0 H1) as (_ & R & _).
  rewrite R. vm_compute. reflexivity.
Defined.

(** ** The program name *)

Lemma strrchr_none (s : string) (c : ascii) :
  strrchr s c = None <-> has_char s c = false.
Proof.
  induction s as [|a s IH]; [split; reflexivity|].
  rewrite has_char_cons. cbn [strrchr].
  destruct (strrchr s c) as [n|].
  - split; [discriminate|]. intros Hf. apply orb_false_iff in Hf.
    destruct Hf as [_ Hs]. apply IH in Hs. discriminate.
  - assert (Hs : has_char s c = false) by (apply IH; reflexivity).
    rewrite Hs, orb_false_r. destruct (Ascii.eqb a c); split;
      (reflexivity || discriminate).
Qed.

Lemma str_drop_0 (s : string) : str_drop 0 s = s.
Proof.
  unfold str_drop. rewrite Nat.sub_0_r.
  induction s as [|a s IH]; [reflexivity|].
  cbn [String.length substring]. rewrite IH. reflexivity.
Qed.

Lemma str_drop_cons (n : nat) (a : ascii) (s : string) :
  str_drop (S n) (String a s) = str_drop n s.
Proof. reflexivity. Qed.

Lemma progname_cons (a : ascii) (s : string) :
  progname (String a s)
  = if has_char s "/" then progname s
    else if Ascii.eqb a "/" then s else String a s.
Proof.
  unfold progname. cbn [strrchr].
  destruct (strrchr s "/") as [n|] eqn:Hn.
  - assert (Hs : has_char s "/" = true).
    { destruct (has_char s "/") eqn:Hh; [reflexivity|].
      apply strrchr_none in Hh. congruence. }
    rewrite Hs, str_drop_cons. reflexivity.
  - apply strrchr_none in Hn. rewrite Hn.
    destruct (Ascii.eqb a "/"); [|reflexivity].
    rewrite str_drop_cons. apply str_drop_0.
Qed.

Lemma progname_whole (s : string) :
  has_char s "/" = false -> progname s = s.
Proof.
  intros Hs. apply strrchr_none in Hs. unfold progname. rewrite Hs.
  reflexivity.
Qed.

(** X4. [progname] gives the part of [arg0] after its last slash: the name
    holds no slash, [arg0] is the name behind a prefix that is empty or
    ends in a slash, an [arg0] without slash is its own name, and an [arg0]
    that ends in a slash has the empty name. *)
Theorem progname_is_basename (arg0 : string) :
  has_char (progname arg0) "/" = false /\
  (exists dir : string,
     arg0 = (dir ++ progname arg0)%string /\
     (dir = EmptyString \/ exists d : string, dir = (d ++ "/")%string)) /\
  (has_char arg0 "/" = false -> progname arg0 = arg0) /\
  (forall d : string, progname (d ++ "/") = EmptyString) /\
  progname (progname arg0) = progname arg0.
Proof.
  assert (Hno : forall s : string, has_char (progname s) "/" = false).
  { induction s as [|a s IH]; [reflexivity|].
    rewrite progname_cons. destruct (has_char s "/") eqn:Hs; [exact IH|].
    destruct (Ascii.eqb a "/") eqn:Ha; [exact Hs|].
    rewrite has_char_cons, Ha, Hs. reflexivity. }
  split; [apply Hno|]. split; [|split; [|split]].
  - induction arg0 as [|a s IH].
    + exists EmptyString. split; [reflexivity | left; reflexivity].
    + rewrite progname_cons. destruct (has_char s "/") eqn:Hs.
      * destruct IH as (dir & Hdir & Hend). exists (String a dir). split.
        -- cbn [String.append]. rewrite <- Hdir. reflexivity.
        -- right. destruct Hend as [->|[d ->]].
           ++ cbn [String.append] in Hdir.
              pose proof (Hno s) as Hn. rewrite <- Hdir in Hn. congruence.
           ++ exists (String a d). reflexivity.
      * destruct (Ascii.eqb_spec a "/") as [->|Hne].
        -- exists "/"%string. split; [reflexivity|].
           right. exists EmptyString. reflexivity.
        -- exists EmptyString. split; [reflexivity | left; reflexivity].
  - apply progname_whole.
  - induction d as [|a d IH]; [reflexivity|].
    cbn [String.append]. rewrite progname_cons.
    rewrite has_char_app. cbn [has_char strchr Ascii.eqb Bool.eqb].
    rewrite orb_true_r. exact IH.
  - apply progname_whole. apply Hno.
Qed.

Lemma progname_is_basename_witness :
  progname "/usr/local/bin/mcjoin" = "mcjoin"%string /\
  has_char (progname "/usr/local/bin/mcjoin") "/" = false /\
  progname "mcjoin" = "mcjoin"%string.
Proof.
  destruct (progname_is_basename "/usr/local/bin/mcjoin") as (R1 & _).
  destruct (progname_is_basename "mcjoin") as (_ & _ & R3 & _).
  split; [vm_compute; reflexivity|]. split; [exact R1|].
  apply R3. vm_compute. reflexivity.
Defined.

(** ** Options and exit codes *)

Section OptionFacts.

Context `{Config} `{Env}.

Lemma usage_code (code : Z) (st : state) : fst (usage code st) = code.
Proof. reflexivity. Qed.

Lemma getopt_case_exit (c : ascii) (optarg : string) (sw : state * Z)
  (code : Z) (st' : state) :
  getopt_case c optarg sw = inl (code, st') ->
  code = 1 \/ (code = 0 /\ (c = "h"%char \/ c = "v"%char)).
Proof.
  unfold getopt_case. destruct sw as [st wait].
  repeat match goal with
         | |- context [if Ascii.eqb c ?x then _ else _] =>
             destruct (Ascii.eqb_spec c x)
         | |- context [if ?b then _ else _] => destruct b
         end;
    intros Heq; try discriminate Heq;
    apply (f_equal exit_code) in Heq; cbn [exit_code fst] in Heq;
    rewrite ?usage_code in Heq; injection Heq as <-; auto.
Qed.

Lemma parse_opts_exit (opts : list (ascii * string)) :
  forall (sw : state * Z) (code : Z) (st' : state),
    parse_opts opts sw = inl (code, st') ->
    code = 1 \/
    (code = 0 /\ (has_opt "h" opts = true \/ has_opt "v" opts = true)).
Proof.
  induction opts as [|[c optarg] opts IH]; intros sw code st' Hrun;
    cbn [parse_opts] in Hrun; [discriminate|].
  unfold has_opt. cbn [existsb fst].
  destruct (getopt_case c optarg sw) as [[code1 st1]|sw1] eqn:Hcase.
  - injection Hrun as <- <-. apply getopt_case_exit in Hcase.
    destruct Hcase as [->|[-> [->| ->]]]; [left; reflexivity | |];
      right; (split; [reflexivity|]); [left | right]; reflexivity.
  - apply IH in Hrun. destruct Hrun as [->|[-> [Hh|Hv]]];
      [left; reflexivity | |]; right; (split; [reflexivity|]).
    + left. fold (has_opt "h" opts). rewrite Hh. apply orb_true_r.
    + right. fold (has_opt "v" opts). rewrite Hv. apply orb_true_r.
Qed.

Lemma main_setup_exit (nargs : nat) (sw : state * Z) (code : Z)
  (st' : state) :
  main_setup nargs sw = inl (code, st') -> code = 1.
Proof.
  unfold main_setup. destruct sw as [st wait].
  repeat match goal with
         | |- context [let '(_, _) := ?p in _] => destruct p
         | |- context [if ?b then _ else _] => destruct b
         end;
    intros Heq; try discriminate Heq; injection Heq as <- _; reflexivity.
Qed.

Lemma expand_loop_exit (n : nat) :
  forall (source : option string) (buf group : string) (st : state)
         (code : Z) (st' : state),
    expand_loop n source buf group st = inl (code, st') -> code = 1.
Proof.
  induction n as [|n IH]; intros source buf group st code st' Hrun;
    cbn [expand_loop] in Hrun; [discriminate|].
  destruct (MAX_NUM_GROUPS <=? group_num st)%nat; [discriminate|].
  destruct (inet_pton (group_family group) group) as [a|].
  - eapply IH. exact Hrun.
  - apply (f_equal exit_code) in Hrun. cbn [exit_code fst] in Hrun.
    rewrite usage_code in Hrun. injection Hrun as <-. reflexivity.
Qed.

Lemma expand_specs_exit (args : list string) :
  forall (st : state) (code : Z) (st' : state),
    expand_specs args st = inl (code, st') -> code = 1.
Proof.
  induction args as [|arg args IH]; intros st code st' Hrun;
    cbn [expand_specs] in Hrun; [discriminate|].
  destruct (expand_spec arg st) as [[code1 st1]|st1] eqn:Hspec.
  - injection Hrun as <- <-. unfold expand_spec in Hspec.
    destruct (parse_spec arg) as [[[source group] buf] num].
    destruct (bad_count num st).
    + apply (f_equal exit_code) in Hspec. cbn [exit_code fst] in Hspec.
      rewrite usage_code in Hspec. injection Hspec as <-. reflexivity.
    + eapply expand_loop_exit. exact Hspec.
  - eapply IH. exact Hrun.
Qed.

(** X5. When [main] returns before the run loop its exit status is 0 or 1,
    and it is 0 only if [-h] or [-v] is among the options; the run loop is
    not entered, whatever the fuel. *)
Theorem early_exit_codes (opts : list (ascii * string)) (args : list string)
  (code : Z) (st : state) :
  main_init opts args = inl (code, st) ->
  (code = 0 \/ code = 1) /\
  (code = 0 -> has_opt "h" opts = true \/ has_opt "v" opts = true) /\
  forall fuel : nat, main opts args fuel = Some (code, st).
Proof.
  intros Hinit.
  assert (Hcode : code = 1 \/
                  (code = 0 /\
                   (has_opt "h" opts = true \/ has_opt "v" opts = true))).
  { unfold main_init in Hinit.
    destruct (parse_opts opts (init_state, 0)) as [[c1 s1]|sw] eqn:Hopts.
    - injection Hinit as <- <-. eapply parse_opts_exit. exact Hopts.
    - destruct (main_setup (length args) sw) as [[c1 s1]|st1] eqn:Hsetup.
      + injection Hinit as <- <-. left. eapply main_setup_exit. exact Hsetup.
      + destruct (expand_specs args st1) as [[c1 s1]|st2] eqn:Hspecs;
          [|discriminate].
        injection Hinit as <- <-. left. eapply expand_specs_exit.
        exact Hspecs. }
  split; [|split].
  - destruct Hcode as [->|[-> _]]; auto.
  - intros ->. destruct Hcode as [Hc|[_ Hopt]]; [discriminate | exact Hopt].
  - intros fuel. unfold main. rewrite Hinit. reflexivity.
Qed.

(** X6. [-b BYTES] is accepted exactly for 0 <= BYTES <= BUFSZ, and then
    [bytes] is BYTES; a larger value, and a negative one, which the
    conversion to [size_t] makes huge, ends [main] with status 1 and the
    error message. *)
Theorem payload_option_bound (optarg : string) (st : state) (wait : Z) :
  0 <= BUFSZ < 2 ^ 63 ->
  (0 <= atoi optarg <= BUFSZ ->
   getopt_case "b" optarg (st, wait)
   = inr (set_bytes (atoi optarg) st, wait)) /\
  (atoi optarg < 0 \/ BUFSZ < atoi optarg ->
   exists st' : state,
     getopt_case "b" optarg (st, wait) = inl (1, st') /\
     out st' = ERROR "Too long payload" :: out st).
Proof.
  intros Hbuf. pose proof (atoi_range optarg) as Hr.
  change (2 ^ 31) with 2147483648 in Hr.
  change (2 ^ 63) with 9223372036854775808 in Hbuf.
  unfold getopt_case. cbn [Ascii.eqb Bool.eqb]. cbn [bytes set_bytes].
  unfold wrap_size. change (2 ^ 64) with 18446744073709551616. split.
  - intros Hok. rewrite Z.mod_small by lia.
    destruct (Z.ltb_spec BUFSZ (atoi optarg)) as [Hlt|_]; [lia | reflexivity].
  - intros Hbad.
    destruct (Z.ltb_spec BUFSZ (atoi optarg mod 18446744073709551616))
      as [_|Hge].
    + eexists. split; reflexivity.
    + exfalso. destruct Hbad as [Hneg|Hbig].
      * assert (Hm : atoi optarg mod 18446744073709551616
                     = atoi optarg + 18446744073709551616).
        { symmetry. apply Z.mod_unique_pos with (q := -1); lia. }
        lia.
      * rewrite Z.mod_small in Hge by lia. lia.
Qed.

Lemma getopt_case_iface (c : ascii) (optarg : string) (st : state) (wait : Z)
  (st' : state) (wait' : Z) :
  getopt_case c optarg (st, wait) = inr (st', wait') ->
  (String.length (iface st) <= IFNAMSIZ)%nat ->
  (String.length (iface st') <= IFNAMSIZ)%nat.
Proof.
  unfold getopt_case.
  repeat match goal with
         | |- context [if (?a <=? ?b)%nat then _ else _] =>
             destruct (Nat.leb_spec a b)
         | |- context [if ?b then _ else _] => destruct b
         end;
    intros Heq; try discriminate Heq;
    injection Heq as <- <-; cbn [iface set_iface emit]; intros Hlen;
    try exact Hlen; lia.
Qed.

Lemma parse_opts_iface (opts : list (ascii * string)) :
  forall (st : state) (wait : Z) (st' : state) (wait' : Z),
    parse_opts opts (st, wait) = inr (st', wait') ->
    (String.length (iface st) <= IFNAMSIZ)%nat ->
    (String.length (iface st') <= IFNAMSIZ)%nat.
Proof.
  induction opts as [|[c optarg] opts IH]; intros st wait st' wait' Hrun Hlen;
    cbn [parse_opts] in Hrun.
  - injection Hrun as <- <-. exact Hlen.
  - destruct (getopt_case c optarg (st, wait)) as [e|[st1 w1]] eqn:Hcase;
      [discriminate|].
    eapply IH; [exact Hrun|]. eapply getopt_case_iface; eassumption.
Qed.

Lemma main_setup_iface (nargs : nat) (st : state) (wait : Z) (st' : state) :
  main_setup nargs (st, wait) = inr st' ->
  iface st'
  = if String.eqb (iface st) EmptyString then ifdefault else iface st.
Proof.
  unfold main_setup.
  repeat (cbn [iface emit set_size add_group set_groups set_iface
               foreground old negb];
          match goal with
          | |- context [let '(_, _) := ?p in _] => destruct p
          | |- context [if ?b then _ else _] =>
              lazymatch b with
              | String.eqb _ _ => fail
              | _ => destruct b
              end
          end);
    cbn [iface emit set_size add_group set_groups set_iface foreground old
         negb];
    destruct (String.eqb (iface st) EmptyString);
    intros Heq; try discriminate Heq; injection Heq as <-; reflexivity.
Qed.

Lemma main_setup_values (nargs : nat) (st : state) (wait : Z) (st' : state) :
  main_setup nargs (st, wait) = inr st' ->
  port st' = port st /\ ttl st' = ttl st /\ count st' = count st /\
  bytes st' = bytes st /\ period st' = period st /\
  foreground st' = foreground st.
Proof.
  unfold main_setup.
  repeat (cbn [foreground old negb add_group set_groups];
          match goal with
          | |- context [let '(_, _) := ?p in _] => destruct p
          | |- context [if ?b then _ else _] => destruct b
          end);
    intros Heq; try discriminate Heq; injection Heq as <-;
    repeat split; reflexivity.
Qed.

Lemma expand_loop_settings (n : nat) :
  forall (source : option string) (buf group : string) (st st' : state),
    expand_loop n source buf group st = inr st' -> settings st' = settings st.
Proof.
  induction n as [|n IH]; intros source buf group st st' Hrun;
    cbn [expand_loop] in Hrun.
  - injection Hrun as <-. reflexivity.
  - destruct (MAX_NUM_GROUPS <=? group_num st)%nat;
      [injection Hrun as <-; reflexivity|].
    destruct (inet_pton (group_family group) group) as [a|]; [|discriminate].
    apply IH in Hrun. rewrite Hrun. reflexivity.
Qed.

Lemma expand_specs_settings (args : list string) :
  forall st st' : state,
    expand_specs args st = inr st' -> settings st' = settings st.
Proof.
  induction args as [|arg args IH]; intros st st' Hrun;
    cbn [expand_specs] in Hrun.
  - injection Hrun as <-. reflexivity.
  - destruct (expand_spec arg st) as [e|st1] eqn:Hspec; [discriminate|].
    apply IH in Hrun. rewrite Hrun. unfold expand_spec in Hspec.
    destruct (parse_spec arg) as [[[source group] buf] num].
    destruct (bad_count num st); [discriminate|].
    eapply expand_loop_settings. exact Hspec.
Qed.

Lemma resolve_settings (st : state) : settings (resolve st) = settings st.
Proof.
  unfold resolve. destruct (resolve_loop _ _ _ _) as [[gs n4] n6].
  reflexivity.
Qed.

(** What the option loop and [main_setup] leave in the settings is what the
    run loop is entered with. *)
Lemma main_init_settings (opts : list (ascii * string)) (args : list string)
  (sw : state * Z) (st1 st : state) :
  parse_opts opts (init_state, 0) = inr sw ->
  main_setup (length args) sw = inr st1 ->
  main_init opts args = inr st ->
  settings st = settings st1.
Proof.
  intros Hopts Hsetup Hinit. unfold main_init in Hinit.
  rewrite Hopts, Hsetup in Hinit.
  destruct (expand_specs args st1) as [e|st2] eqn:Hspecs; [discriminate|].
  injection Hinit as <-. apply expand_specs_settings in Hspecs.
  rewrite <- Hspecs, <- (resolve_settings st2). reflexivity.
Qed.

(** X7. The interface name never outgrows [iface[IFNAMSIZ + 1]] and is
    never empty in the run loop: when the default name fits and is not
    empty, every session that reaches the run loop has a name of 1 to
    IFNAMSIZ characters. *)
Theorem interface_name_fits (opts : list (ascii * string))
  (args : list string) (st : state) :
  (String.length ifdefault <= IFNAMSIZ)%nat ->
  ifdefault <> EmptyString ->
  main_init opts args = inr st ->
  iface st <> EmptyString /\
  (String.length (iface st) <= IFNAMSIZ)%nat.
Proof.
  intros Hfit Hne Hinit.
  assert (Hinit' := Hinit). unfold main_init in Hinit'.
  destruct (parse_opts opts (init_state, 0)) as [e|[st0 wait]] eqn:Hopts;
    [discriminate|].
  destruct (main_setup (length args) (st0, wait)) as [e|st1] eqn:Hsetup;
    [discriminate|].
  clear Hinit'.
  pose proof (main_init_settings _ _ _ _ _ Hopts Hsetup Hinit) as Hset.
  assert (Hi : iface st = iface st1).
  { unfold settings in Hset. injection Hset as _ _ _ _ _ _ _ _ Hi. exact Hi. }
  rewrite Hi, (main_setup_iface _ _ _ _ Hsetup).
  assert (Hlen0 : (String.length (iface st0) <= IFNAMSIZ)%nat)
    by (eapply parse_opts_iface; [exact Hopts | cbn; lia]).
  destruct (String.eqb_spec (iface st0) EmptyString) as [He|Hn];
    split; assumption.
Qed.

Lemma getopt_case_join (c : ascii) (optarg : string) (st : state) (wait : Z)
  (st' : state) (wait' : Z) :
  getopt_case c optarg (st, wait) = inr (st', wait') ->
  join st'
  = if Ascii.eqb c "s" then 0
    else if Ascii.eqb c "j" then wrap_int (join st + 1)
    else join st.
Proof.
  unfold getopt_case.
  repeat (cbn [Ascii.eqb Bool.eqb];
          match goal with
          | |- context [if Ascii.eqb c ?x then _ else _] =>
              destruct (Ascii.eqb_spec c x) as [->|?]
          | |- context [if ?b then _ else _] => destruct b
          end);
    intros Heq; try discriminate Heq; injection Heq as <- <-;
    cbn [Ascii.eqb Bool.eqb join set_bytes set_count set_foreground
         set_period set_iface set_join set_old set_port set_ttl emit];
    repeat match goal with
           | Hn : ?c <> ?x |- context [Ascii.eqb ?c ?x] =>
               destruct (Ascii.eqb_spec c x); [contradiction|]
           end;
    reflexivity.
Qed.

Lemma parse_opts_join (opts : list (ascii * string)) :
  forall (st : state) (wait : Z) (st' : state) (wait' : Z),
    parse_opts opts (st, wait) = inr (st', wait') ->
    0 <= join st ->
    join st + Z.of_nat (length opts) < 2 ^ 31 ->
    0 <= join st' <= join st + Z.of_nat (length opts) /\
    (join st' = 0 <-> mode_after (join st =? 0) opts = true).
Proof.
  induction opts as [|[c optarg] opts IH]; intros st wait st' wait' Hrun Hj Hn;
    cbn [parse_opts] in Hrun.
  - injection Hrun as <- <-. cbn [length mode_after fold_left].
    split; [lia|]. symmetry. apply Z.eqb_eq.
  - destruct (getopt_case c optarg (st, wait)) as [e|[st1 w1]] eqn:Hcase;
      [discriminate|].
    apply getopt_case_join in Hcase. cbn [length] in Hn |- *.
    unfold mode_after. cbn [fold_left fst].
    fold (mode_after
            (if Ascii.eqb c "s" then true
             else if Ascii.eqb c "j" then false else (join st =? 0)) opts).
    assert (H1 : 0 <= join st1 <= join st + 1 /\
                 (join st1 =? 0)
                 = (if Ascii.eqb c "s" then true
                    else if Ascii.eqb c "j" then false else (join st =? 0))).
    { rewrite Hcase. destruct (Ascii.eqb c "s"); [split; [lia | reflexivity]|].
      destruct (Ascii.eqb c "j"); [|split; [lia | reflexivity]].
      rewrite wrap_int_small by lia. split; [lia|].
      apply Z.eqb_neq. lia. }
    destruct H1 as [Hb Hm]. rewrite <- Hm.
    destruct (IH st1 w1 st' wait' Hrun) as [Hb' Hiff]; [lia | lia |].
    split; [lia | exact Hiff].
Qed.

(** X8. The last of the mode options decides: after the option loop the
    program is a sender ([join] is 0) exactly when [-s] occurs with no [-j]
    after it; a [-j] after [-s] makes it a receiver again. *)
Theorem last_mode_option_decides (opts : list (ascii * string))
  (st : state) (wait : Z) :
  Z.of_nat (length opts) < 2 ^ 31 - 1 ->
  parse_opts opts (init_state, 0) = inr (st, wait) ->
  (join st = 0 <-> mode_after false opts = true).
Proof.
  intros Hn Hrun.
  destruct (parse_opts_join opts _ _ _ _ Hrun) as [_ Hiff];
    [cbn; lia | cbn [join init_state]; lia |].
  exact Hiff.
Qed.

End OptionFacts.

Lemma early_exit_codes_witness :
  @main_init Ref.small_config Ref.user_env
    [("j"%char, EmptyString); ("v"%char, EmptyString)] ["239.1.1.1"%string]
  = inl (0, Sample.version_exit) /\
  @main Ref.small_config Ref.user_env
    [("j"%char, EmptyString); ("v"%char, EmptyString)] ["239.1.1.1"%string] 0
  = Some (0, Sample.version_exit).
Proof.
  assert (H1 : @main_init Ref.small_config Ref.user_env
                 [("j"%char, EmptyString); ("v"%char, EmptyString)]
                 ["239.1.1.1"%string]
               = inl (0, Sample.version_exit)) by (vm_compute; reflexivity).
  split; [exact H1|].
  destruct (@early_exit_codes Ref.small_config Ref.user_env _ _ _ _ H1)
    as (_ & _ & R).
  apply R.
Defined.

Lemma payload_option_bound_witness :
  0 <= @BUFSZ Ref.config < 2 ^ 63 /\
  0 <= atoi "1500" <= @BUFSZ Ref.config /\
  bytes (fst (Sample.after_opts (H := Ref.config) (H0 := Ref.typical_env)
                [("b"%char, "1500"%string)])) = 1500 /\
  atoi "-1" < 0 /\
  exists st' : state,
    @getopt_case Ref.config Ref.typical_env "b" "-1" (@init_state Ref.config, 0)
    = inl (1, st').
Proof.
  assert (H0 : 0 <= @BUFSZ Ref.config < 2 ^ 63)
    by (vm_compute; split; [discriminate | reflexivity]).
  assert (H1 : 0 <= atoi "1500" <= @BUFSZ Ref.config)
    by (vm_compute; split; discriminate).
  assert (H2 : atoi "-1" < 0) by (vm_compute; reflexivity).
  destruct (@payload_option_bound Ref.config Ref.typical_env "1500"
              (@init_state Ref.config) 0 H0) as [R1 _].
  destruct (@payload_option_bound Ref.config Ref.typical_env "-1"
              (@init_state Ref.config) 0 H0) as [_ R2].
  split; [exact H0|]. split; [exact H1|].
  split.
  - unfold Sample.after_opts. cbn [parse_opts]. rewrite (R1 H1).
    vm_compute. reflexivity.
  - split; [exact H2|]. destruct (R2 (or_introl H2)) as [st' [R _]].
    exists st'. exact R.
Defined.

Lemma interface_name_fits_witness :
  (String.length (@ifdefault Ref.user_env)
   <= @IFNAMSIZ Ref.small_config)%nat /\
  @main_init Ref.small_config Ref.user_env
    [("i"%char, "wlan0"%string)] ["239.1.1.1"%string] = inr Sample.wlan0 /\
  iface Sample.wlan0 <> EmptyString /\
  (String.length (iface Sample.wlan0) <= @IFNAMSIZ Ref.small_config)%nat.
Proof.
  assert (H0 : (String.length (@ifdefault Ref.user_env)
                <= @IFNAMSIZ Ref.small_config)%nat) by (vm_compute; lia).
  assert (H1 : @ifdefault Ref.user_env <> EmptyString)
    by (vm_compute; discriminate).
  assert (H2 : @main_init Ref.small_config Ref.user_env
                 [("i"%char, "wlan0"%string)] ["239.1.1.1"%string]
               = inr Sample.wlan0) by (vm_compute; reflexivity).
  split; [exact H0|]. split; [exact H2|].
  exact (@interface_name_fits Ref.small_config Ref.user_env _ _ _ H0 H1 H2).
Defined.

Lemma last_mode_option_decides_witness :
  @parse_opts Ref.small_config Ref.user_env Sample.opts_sjs
    (@init_state Ref.small_config, 0) = inr Sample.after_sjs /\
  join (fst Sample.after_sjs) = 0 /\
  @parse_opts Ref.small_config Ref.user_env Sample.opts_sj
    (@init_state Ref.small_config, 0) = inr Sample.after_sj /\
  join (fst Sample.after_sj) <> 0.
Proof.
  assert (H1 : @parse_opts Ref.small_config Ref.user_env Sample.opts_sjs
                 (@init_state Ref.small_config, 0)
               = inr (fst Sample.after_sjs, snd Sample.after_sjs))
    by (vm_compute; reflexivity).
  assert (H2 : @parse_opts Ref.small_config Ref.user_env Sample.opts_sj
                 (@init_state Ref.small_config, 0)
               = inr (fst Sample.after_sj, snd Sample.after_sj))
    by (vm_compute; reflexivity).
  assert (L1 : Z.of_nat (length Sample.opts_sjs) < 2 ^ 31 - 1)
    by (vm_compute; reflexivity).
  assert (L2 : Z.of_nat (length Sample.opts_sj) < 2 ^ 31 - 1)
    by (vm_compute; reflexivity).
  split; [exact H1|]. split.
  - apply (@last_mode_option_decides Ref.small_config Ref.user_env _ _ _ L1 H1).
    vm_compute. reflexivity.
  - split; [exact H2|]. intros Hj.
    apply (@last_mode_option_decides Ref.small_config Ref.user_env _ _ _ L2 H2)
      in Hj.
    vm_compute in Hj. discriminate Hj.
Defined.

(* ===================================================================== *)
(** * The group table that [main] builds *)
(* ===================================================================== *)

Lemma strchr_absent (s : string) (c : ascii) :
  has_char s c = false -> strchr s c = None.
Proof. unfold has_char. destruct (strchr s c); [discriminate | reflexivity]. Qed.

Lemma strchr_app_at (a b : string) (c : ascii) :
  has_char a c = false -> strchr (a ++ String c b) c = Some (String.length a).
Proof.
  induction a as [|x a IH]; intros Hno.
  - cbn [String.append strchr]. rewrite Ascii.eqb_refl. reflexivity.
  - rewrite has_char_cons in Hno. apply orb_false_iff in Hno.
    destruct Hno as [Hx Ha]. cbn [String.append strchr String.length].
    rewrite Hx, (IH Ha). reflexivity.
Qed.

Lemma str_take_all (n : nat) (s : string) :
  (String.length s <= n)%nat -> str_take n s = s.
Proof.
  unfold str_take. revert n.
  induction s as [|a s IH]; intros n Hn; [destruct n; reflexivity|].
  cbn [String.length] in Hn. destruct n as [|n]; [lia|].
  cbn [substring]. rewrite IH by lia. reflexivity.
Qed.

Lemma str_take_app (a b : string) : str_take (String.length a) (a ++ b) = a.
Proof.
  unfold str_take. induction a as [|x a IH].
  - cbn [String.length String.append]. destruct b; reflexivity.
  - cbn [String.length String.append substring]. rewrite IH. reflexivity.
Qed.

Lemma str_take_take (n : nat) (s : string) :
  str_take n (str_take n s) = str_take n s.
Proof.
  unfold str_take. revert n.
  induction s as [|a s IH]; intros [|n]; try reflexivity.
  cbn [substring]. rewrite IH. reflexivity.
Qed.

Lemma str_drop_app (a b : string) (c : ascii) :
  str_drop (S (String.length a)) (a ++ String c b) = b.
Proof.
  induction a as [|x a IH].
  - cbn [String.length String.append]. rewrite str_drop_cons. apply str_drop_0.
  - cbn [String.length String.append]. rewrite str_drop_cons. exact IH.
Qed.

Lemma string_app_assoc (a b c : string) :
  ((a ++ b) ++ c)%string = (a ++ (b ++ c))%string.
Proof.
  induction a as [|x a IH]; [reflexivity|].
  cbn [String.append]. rewrite IH. reflexivity.
Qed.

Section Table.

Context `{Config} `{Env}.

(** ** The syntax of a group specification *)

Lemma parse_spec_counted (body cnt : string) :
  has_char body "+" = false ->
  (String.length (body ++ String "+" cnt) <= INET_ADDRSTR_LEN)%nat ->
  parse_spec (body ++ String "+" cnt)
  = match strchr body "," with
    | Some p => (Some (str_take p body), str_drop (S p) body,
                 str_take p body, atoi cnt)
    | None => (None, body, body, atoi cnt)
    end.
Proof.
  intros Hno Hlen. unfold parse_spec, strlcpy.
  rewrite (str_take_all _ _ Hlen), (strchr_app_at body cnt "+" Hno).
  rewrite str_take_app, str_drop_app. reflexivity.
Qed.

Lemma parse_spec_plain (body : string) :
  has_char body "+" = false ->
  (String.length body <= INET_ADDRSTR_LEN)%nat ->
  parse_spec body
  = match strchr body "," with
    | Some p => (Some (str_take p body), str_drop (S p) body,
                 str_take p body, 1)
    | None => (None, body, body, 1)
    end.
Proof.
  intros Hno Hlen. unfold parse_spec, strlcpy.
  rewrite (str_take_all _ _ Hlen), (strchr_absent _ _ Hno). reflexivity.
Qed.

(** X9. The syntax of a group specification of at most INET_ADDRSTR_LEN
    characters: [SRC,GRP+CNT] gives the source SRC, the group GRP and the
    count [atoi CNT]; without [SRC,] there is no source, without [+CNT] the
    count is 1.  SRC and GRP are any texts without [+] and [,]. *)
Theorem group_spec_syntax (src grp cnt : string) :
  has_char src "+" = false -> has_char src "," = false ->
  has_char grp "+" = false -> has_char grp "," = false ->
  (String.length (src ++ "," ++ grp ++ "+" ++ cnt) <= INET_ADDRSTR_LEN)%nat ->
  parse_spec (src ++ "," ++ grp ++ "+" ++ cnt)
  = (Some src, grp, src, atoi cnt) /\
  parse_spec (grp ++ "+" ++ cnt) = (None, grp, grp, atoi cnt) /\
  parse_spec (src ++ "," ++ grp) = (Some src, grp, src, 1) /\
  parse_spec grp = (None, grp, grp, 1).
Proof.
  intros Hsp Hsc Hgp Hgc Hlen.
  assert (Hbody : has_char (src ++ "," ++ grp) "+" = false).
  { rewrite has_char_app, Hsp. cbn [String.append]. rewrite has_char_cons, Hgp.
    reflexivity. }
  assert (Hcomma : strchr (src ++ "," ++ grp) "," = Some (String.length src))
    by (apply strchr_app_at; exact Hsc).
  assert (Hall : (src ++ "," ++ grp ++ "+" ++ cnt)%string
                 = ((src ++ "," ++ grp) ++ String "+" cnt)%string).
  { rewrite !string_app_assoc. reflexivity. }
  rewrite !string_length_app in Hlen. cbn [String.length] in Hlen.
  split; [|split; [|split]].
  - rewrite Hall, parse_spec_counted, Hcomma.
    + cbn [String.append]. rewrite str_take_app, str_drop_app. reflexivity.
    + exact Hbody.
    + rewrite ?string_length_app. cbn [String.length].
      rewrite ?string_length_app. cbn [String.length]. lia.
  - change (grp ++ "+" ++ cnt)%string with (grp ++ String "+" cnt)%string.
    rewrite parse_spec_counted, (strchr_absent _ _ Hgc); [reflexivity | exact Hgp|].
    rewrite string_length_app. cbn [String.length]. lia.
  - rewrite parse_spec_plain, Hcomma.
    + cbn [String.append]. rewrite str_take_app, str_drop_app. reflexivity.
    + exact Hbody.
    + rewrite ?string_length_app. cbn [String.length]. lia.
  - rewrite parse_spec_plain, (strchr_absent _ _ Hgc);
      [reflexivity | exact Hgp | lia].
Qed.

Lemma str_take_length (n : nat) (s : string) :
  (String.length (str_take n s) <= n)%nat /\
  (String.length (str_take n s) <= String.length s)%nat.
Proof.
  unfold str_take. revert n.
  induction s as [|a s IH]; intros [|n]; cbn [substring String.length];
    try lia.
  specialize (IH n). lia.
Qed.

Lemma str_drop_length (n : nat) (s : string) :
  (String.length (str_drop n s) <= String.length s)%nat.
Proof.
  revert n. induction s as [|a s IH]; intros [|n]; try (cbn; lia).
  - rewrite str_drop_0. lia.
  - rewrite str_drop_cons. specialize (IH n). cbn [String.length]. lia.
Qed.

(** X10. Only the first INET_ADDRSTR_LEN characters of a specification are
    read: what follows them is dropped, the group text is never longer
    than INET_ADDRSTR_LEN, and a [+CNT] that starts after them is lost, the
    count being 1. *)
Theorem long_spec_is_cut (arg : string) :
  parse_spec arg = parse_spec (str_take INET_ADDRSTR_LEN arg) /\
  (String.length (snd (fst (fst (parse_spec arg))))
   <= INET_ADDRSTR_LEN)%nat /\
  (has_char (str_take INET_ADDRSTR_LEN arg) "+" = false ->
   spec_num arg = 1).
Proof.
  assert (Hcut : parse_spec arg = parse_spec (str_take INET_ADDRSTR_LEN arg)).
  { unfold parse_spec, strlcpy. rewrite str_take_take. reflexivity. }
  split; [exact Hcut|]. split.
  - unfold parse_spec, strlcpy.
    pose proof (str_take_length INET_ADDRSTR_LEN arg) as [Hn _].
    assert (Hbuf : forall buf : string,
               (String.length buf <= INET_ADDRSTR_LEN)%nat ->
               forall num : Z,
                 (String.length
                    (snd (fst (fst
                       (match strchr buf "," with
                        | Some p => (Some (str_take p buf),
                                     str_drop (S p) buf, str_take p buf, num)
                        | None => (None, buf, buf, num)
                        end))))
                  <= INET_ADDRSTR_LEN)%nat).
    { intros buf Hb num. destruct (strchr buf ",") as [p|]; cbn [fst snd];
        [|exact Hb].
      pose proof (str_drop_length (S p) buf). lia. }
    destruct (strchr (str_take INET_ADDRSTR_LEN arg) "+") as [p|].
    + apply Hbuf.
      pose proof (str_take_length p (str_take INET_ADDRSTR_LEN arg))
        as [_ Hp]. lia.
    + apply Hbuf. exact Hn.
  - intros Hno. unfold spec_num, parse_spec, strlcpy.
    rewrite (strchr_absent _ _ Hno).
    destruct (strchr (str_take INET_ADDRSTR_LEN arg) ","); reflexivity.
Qed.

(** ** How many records the specifications add *)

Lemma group_num_add_group (source : option string) (group : string)
  (st : state) :
  group_num (add_group source group st) = S (group_num st).
Proof.
  unfold group_num. rewrite add_group_groups, length_app. cbn [length]. lia.
Qed.

Lemma expand_loop_count (n : nat) :
  forall (source : option string) (buf group : string) (st st' : state),
    expand_loop n source buf group st = inr st' ->
    (group_num st + n <= MAX_NUM_GROUPS)%nat ->
    group_num st' = (group_num st + n)%nat.
Proof.
  induction n as [|n IH]; intros source buf group st st' Hrun Hfit;
    cbn [expand_loop] in Hrun.
  - injection Hrun as <-. lia.
  - destruct (Nat.leb_spec MAX_NUM_GROUPS (group_num st)) as [Hfull|_]; [lia|].
    destruct (inet_pton (group_family group) group) as [a|]; [|discriminate].
    apply IH in Hrun.
    + rewrite Hrun, group_num_add_group. unfold group_num. cbn [groups emit].
      lia.
    + rewrite group_num_add_group. unfold group_num in *. cbn [groups emit].
      lia.
Qed.

Lemma expand_spec_count (arg : string) (st st' : state) :
  Z.of_nat MAX_NUM_GROUPS < 2 ^ 63 ->
  (group_num st <= MAX_NUM_GROUPS)%nat ->
  expand_spec arg st = inr st' ->
  1 <= spec_num arg /\
  group_num st' = (group_num st + Z.to_nat (spec_num arg))%nat /\
  (group_num st' < MAX_NUM_GROUPS)%nat.
Proof.
  intros Hmax Hgn Hrun. unfold expand_spec in Hrun.
  pose proof (spec_num_range arg) as Hr. unfold spec_num in *.
  destruct (parse_spec arg) as [[[source group] buf] num]. cbn [snd] in *.
  destruct (bad_count num st) eqn:Hbad; [discriminate|].
  unfold bad_count in Hbad. apply orb_false_iff in Hbad.
  destruct Hbad as [Hlow Hhigh].
  apply Z.ltb_ge in Hlow. apply Z.leb_gt in Hhigh.
  change (2 ^ 31) with 2147483648 in Hr.
  change (2 ^ 63) with 9223372036854775808 in Hmax.
  unfold wrap_size in Hhigh. change (2 ^ 64) with 18446744073709551616 in Hhigh.
  rewrite Z.mod_small in Hhigh by lia.
  assert (Hn : group_num st' = (group_num st + Z.to_nat num)%nat)
    by (eapply expand_loop_count; [exact Hrun | lia]).
  split; [lia|]. split; [exact Hn | lia].
Qed.

Lemma spec_total_cons (arg : string) (args : list string) :
  spec_total (arg :: args)
  = (Z.to_nat (spec_num arg) + spec_total args)%nat.
Proof. reflexivity. Qed.

Lemma expand_specs_count (args : list string) :
  forall st st' : state,
    Z.of_nat MAX_NUM_GROUPS < 2 ^ 63 ->
    (group_num st <= MAX_NUM_GROUPS)%nat ->
    expand_specs args st = inr st' ->
    Forall (fun a => 1 <= spec_num a) args /\
    group_num st' = (group_num st + spec_total args)%nat /\
    (args <> [] -> (group_num st' < MAX_NUM_GROUPS)%nat).
Proof.
  induction args as [|arg args IH]; intros st st' Hmax Hgn Hrun;
    cbn [expand_specs] in Hrun.
  - injection Hrun as <-. split; [constructor|].
    split; [unfold spec_total; cbn; lia | congruence].
  - destruct (expand_spec arg st) as [e|st1] eqn:Hspec; [discriminate|].
    destruct (expand_spec_count _ _ _ Hmax Hgn Hspec) as (H1 & Hn1 & Hlt1).
    destruct (IH st1 st' Hmax) as (Hall & Hn & Hlt); [lia | exact Hrun|].
    split; [constructor; assumption|].
    split.
    + rewrite Hn, Hn1, spec_total_cons. lia.
    + intros _. destruct args as [|arg' args'].
      * cbn [expand_specs] in Hrun. injection Hrun as <-. exact Hlt1.
      * apply Hlt. discriminate.
Qed.

(** The table in which the specifications are expanded. *)
Lemma main_init_stages (opts : list (ascii * string)) (args : list string)
  (st : state) :
  main_init opts args = inr st ->
  exists (st0 : state) (wait : Z) (st1 st2 : state),
    parse_opts opts (init_state, 0) = inr (st0, wait) /\
    main_setup (length args) (st0, wait) = inr st1 /\
    expand_specs args st1 = inr st2 /\
    groups st1
    = (if (length args =? 0)%nat then [new_gr None DEFAULT_GROUP] else []) /\
    groups st = map (resolve_gr (port st)) (groups st2).
Proof.
  intros Hinit. assert (Hinit' := Hinit). unfold main_init in Hinit'.
  destruct (parse_opts opts (init_state, 0)) as [e|[st0 wait]] eqn:Hopts;
    [discriminate|].
  destruct (main_setup (length args) (st0, wait)) as [e|st1] eqn:Hsetup;
    [discriminate|].
  destruct (expand_specs args st1) as [e|st2] eqn:Hspecs; [discriminate|].
  exists st0, wait, st1, st2.
  split; [reflexivity|]. split; [exact Hsetup|]. split; [exact Hspecs|].
  destruct (parse_opts_table _ _ _ _ _ Hopts) as (_ & _ & Hg0).
  destruct (main_setup_table _ _ _ _ Hsetup) as (_ & _ & Hg1).
  rewrite Hg0 in Hg1. cbn [groups init_state app] in Hg1.
  split; [rewrite Hg1; destruct (length args =? 0)%nat; reflexivity|].
  injection Hinit' as <-. cbn [groups emit port].
  destruct (resolve_frame st2) as (Hp & _ & Hg). rewrite Hg, Hp. reflexivity.
Qed.

(** X11. Every accepted specification adds exactly as many records as its
    count says: when [main] reaches the run loop with groups given on the
    command line, [group_num] is the sum of their counts, each count is at
    least 1, and the table is not full.  The loop guard
    [group_num < NELEMS(groups)] never cuts an expansion short. *)
Theorem accepted_counts_add_up (opts : list (ascii * string))
  (args : list string) (st : state) :
  Z.of_nat MAX_NUM_GROUPS < 2 ^ 63 ->
  args <> [] ->
  main_init opts args = inr st ->
  group_num st = spec_total args /\
  Forall (fun a => 1 <= spec_num a) args /\
  (1 <= group_num st < MAX_NUM_GROUPS)%nat.
Proof.
  intros Hmax Hne Hinit.
  destruct (main_init_stages _ _ _ Hinit)
    as (st0 & wait & st1 & st2 & _ & _ & Hspecs & Hg1 & Hg).
  assert (Hlen : (length args =? 0)%nat = false)
    by (destruct args; [congruence | reflexivity]).
  rewrite Hlen in Hg1.
  assert (Hn1 : group_num st1 = 0%nat) by (unfold group_num; rewrite Hg1; reflexivity).
  destruct (expand_specs_count args st1 st2 Hmax) as (Hall & Hn & Hlt);
    [lia | exact Hspecs|].
  assert (Hsame : group_num st = group_num st2)
    by (unfold group_num; rewrite Hg, length_map; reflexivity).
  rewrite Hsame, Hn, Hn1. split; [reflexivity|]. split; [exact Hall|].
  specialize (Hlt Hne). rewrite Hn, Hn1 in Hlt. split; [|exact Hlt].
  destruct args as [|a args]; [congruence|].
  apply Forall_inv in Hall. rewrite spec_total_cons. lia.
Qed.

(** X12. Without a group on the command line the session has exactly one
    record: DEFAULT_GROUP, without a source, resolved at the session's
    port. *)
Theorem default_group_session (opts : list (ascii * string)) (st : state) :
  main_init opts [] = inr st ->
  groups st = [resolve_gr (port st) (new_gr None DEFAULT_GROUP)] /\
  map gr_group (groups st) = [DEFAULT_GROUP] /\
  map gr_source (groups st) = [None] /\
  map gr_src (groups st) = [sockaddr_zero].
Proof.
  intros Hinit.
  destruct (main_init_stages _ _ _ Hinit)
    as (st0 & wait & st1 & st2 & _ & _ & Hspecs & Hg1 & Hg).
  cbn [expand_specs] in Hspecs. injection Hspecs as <-.
  cbn [length Nat.eqb] in Hg1. rewrite Hg1 in Hg. cbn [map] in Hg.
  rewrite Hg. repeat split; reflexivity.
Qed.

(** ** The records are validated *)

Lemma expand_loop_checked (n : nat) :
  forall (source : option string) (buf group : string) (st st' : state),
    Forall checked (groups st) ->
    expand_loop n source buf group st = inr st' ->
    Forall checked (groups st').
Proof.
  induction n as [|n IH]; intros source buf group st st' Hall Hrun;
    cbn [expand_loop] in Hrun.
  - injection Hrun as <-. exact Hall.
  - destruct (MAX_NUM_GROUPS <=? group_num st)%nat;
      [injection Hrun as <-; exact Hall|].
    destruct (inet_pton (group_family group) group) as [a|] eqn:Hpton;
      [|discriminate].
    eapply IH; [|exact Hrun]. rewrite add_group_groups. cbn [groups emit].
    apply Forall_app. split; [exact Hall|].
    constructor; [|constructor].
    unfold checked, new_gr. cbn [gr_group gr_src gr_grp gr_zero].
    rewrite Hpton. split; [discriminate | split; reflexivity].
Qed.

Lemma expand_specs_checked (args : list string) :
  forall st st' : state,
    Forall checked (groups st) ->
    expand_specs args st = inr st' ->
    Forall checked (groups st').
Proof.
  induction args as [|arg args IH]; intros st st' Hall Hrun;
    cbn [expand_specs] in Hrun.
  - injection Hrun as <-. exact Hall.
  - destruct (expand_spec arg st) as [e|st1] eqn:Hspec; [discriminate|].
    eapply IH; [|exact Hrun]. unfold expand_spec in Hspec.
    destruct (parse_spec arg) as [[[source group] buf] num].
    destruct (bad_count num st); [discriminate|].
    eapply expand_loop_checked; eassumption.
Qed.

(** X13. Every group given on the command line is validated before it is
    recorded: when [main] reaches the run loop, the group address of each
    record is what [inet_pton] reads from the record's text, in the family
    of that text; a source is resolved in the group's family with port 0,
    and a record without source keeps a zero source address. *)
Theorem groups_are_validated (opts : list (ascii * string))
  (args : list string) (st : state) :
  args <> [] ->
  main_init opts args = inr st ->
  Forall
    (fun g =>
       inet_pton (group_family (gr_group g)) (gr_group g)
       = Some (sa_addr (gr_grp g)) /\
       sa_family (gr_grp g) = Some (group_family (gr_group g)) /\
       match gr_source g with
       | Some s =>
           sa_family (gr_src g) = Some (group_family (gr_group g)) /\
           sa_port (gr_src g) = [0; 0]
       | None => gr_src g = sockaddr_zero
       end)
    (groups st).
Proof.
  intros Hne Hinit.
  destruct (main_init_stages _ _ _ Hinit)
    as (st0 & wait & st1 & st2 & _ & _ & Hspecs & Hg1 & Hg).
  assert (Hlen : (length args =? 0)%nat = false)
    by (destruct args; [congruence | reflexivity]).
  rewrite Hlen in Hg1.
  assert (Hchk : Forall checked (groups st2)).
  { eapply expand_specs_checked; [|exact Hspecs]. rewrite Hg1. constructor. }
  rewrite Hg. apply Forall_map. eapply Forall_impl; [exact Hchk|].
  intros g (Hvalid & Hsrc & Hgrp).
  unfold resolve_gr, resolve_addr.
  cbn [gr_group gr_grp gr_src gr_source sa_addr sa_family sa_port].
  destruct (inet_pton (group_family (gr_group g)) (gr_group g)) as [a|];
    [|congruence].
  split; [reflexivity|]. split; [reflexivity|].
  destruct (gr_source g) as [s|]; [split; reflexivity | exact Hsrc].
Qed.

End Table.

Lemma group_spec_syntax_witness :
  (String.length ("10.0.0.1" ++ "," ++ "232.1.1.1" ++ "+" ++ "3")
   <= @INET_ADDRSTR_LEN Ref.config)%nat /\
  @parse_spec Ref.config ("10.0.0.1" ++ "," ++ "232.1.1.1" ++ "+" ++ "3")
  = (Some "10.0.0.1"%string, "232.1.1.1"%string, "10.0.0.1"%string, atoi "3").
Proof.
  assert (H5 : (String.length ("10.0.0.1" ++ "," ++ "232.1.1.1" ++ "+" ++ "3")
                <= @INET_ADDRSTR_LEN Ref.config)%nat) by (vm_compute; lia).
  split; [exact H5|].
  refine (proj1 (@group_spec_syntax Ref.config "10.0.0.1" "232.1.1.1" "3"
                   _ _ _ _ H5)); vm_compute; reflexivity.
Defined.

Lemma long_spec_is_cut_witness :
  has_char (str_take (@INET_ADDRSTR_LEN Ref.config) Sample.long_spec) "+"
  = false /\
  @spec_num Ref.config Sample.long_spec = 1.
Proof.
  assert (H1 : has_char (str_take (@INET_ADDRSTR_LEN Ref.config)
                           Sample.long_spec) "+" = false)
    by (vm_compute; reflexivity).
  split; [exact H1|].
  exact (proj2 (proj2 (@long_spec_is_cut Ref.config Sample.long_spec)) H1).
Defined.

Lemma accepted_counts_add_up_witness :
  Z.of_nat (@MAX_NUM_GROUPS Ref.small_config) < 2 ^ 63 /\
  @main_init Ref.small_config Ref.user_env []
    ["239.1.1.1+2"; "ff08::1"]%string = inr Sample.three_groups /\
  group_num Sample.three_groups = 3%nat.
Proof.
  assert (H1 : Z.of_nat (@MAX_NUM_GROUPS Ref.small_config) < 2 ^ 63)
    by (vm_compute; reflexivity).
  assert (H2 : ["239.1.1.1+2"; "ff08::1"]%string <> []) by discriminate.
  assert (H3 : @main_init Ref.small_config Ref.user_env []
                 ["239.1.1.1+2"; "ff08::1"]%string = inr Sample.three_groups)
    by (vm_compute; reflexivity).
  split; [exact H1|]. split; [exact H3|].
  rewrite (proj1 (@accepted_counts_add_up Ref.small_config Ref.user_env
                    _ _ _ H1 H2 H3)).
  vm_compute. reflexivity.
Defined.

Lemma default_group_session_witness :
  @main_init Ref.small_config Ref.user_env [("p"%char, "80"%string)] []
  = inr Ref.port80 /\
  map gr_group (groups Ref.port80) = [@DEFAULT_GROUP Ref.small_config].
Proof.
  assert (H1 : @main_init Ref.small_config Ref.user_env
                 [("p"%char, "80"%string)] [] = inr Ref.port80)
    by (vm_compute; reflexivity).
  split; [exact H1|].
  exact (proj1 (proj2 (@default_group_session Ref.small_config Ref.user_env
                         _ _ H1))).
Defined.

Lemma groups_are_validated_witness :
  @main_init Ref.small_config Ref.user_env []
    ["239.1.1.1+2"; "ff08::1"]%string = inr Sample.three_groups /\
  Forall
    (fun g =>
       @inet_pton Ref.user_env (group_family (gr_group g)) (gr_group g)
       = Some (sa_addr (gr_grp g)))
    (groups Sample.three_groups).
Proof.
  assert (H2 : ["239.1.1.1+2"; "ff08::1"]%string <> []) by discriminate.
  assert (H3 : @main_init Ref.small_config Ref.user_env []
                 ["239.1.1.1+2"; "ff08::1"]%string = inr Sample.three_groups)
    by (vm_compute; reflexivity).
  split; [exact H3|].
  eapply Forall_impl;
    [exact (@groups_are_validated Ref.small_config Ref.user_env _ _ _ H2 H3)|].
  intros g Hg. exact (proj1 Hg).
Defined.

(* ===================================================================== *)
(** * The status history as a C string, and what the plotter shows *)
(* ===================================================================== *)

Section HistoryString.

Context `{Config}.

Lemma cstr_body (body tl : list ascii) :
  forallb (fun c => negb (Ascii.eqb c NUL)) body = true ->
  cstr (body ++ NUL :: tl) = body.
Proof.
  induction body as [|c body IH]; intros Hno; [reflexivity|].
  cbn [forallb] in Hno. apply andb_true_iff in Hno. destruct Hno as [Hc Hb].
  cbn [app cstr]. apply negb_true_iff in Hc. rewrite Hc, (IH Hb). reflexivity.
Qed.

(** A full history is its [STATUS_HISTORY - 1] characters and the NUL. *)
Lemma history_ok_body (s : list ascii) :
  (1 <= STATUS_HISTORY)%nat ->
  history_ok s = true <->
  exists body : list ascii,
    s = body ++ [NUL] /\ length body = (STATUS_HISTORY - 1)%nat /\
    forallb (fun c => negb (Ascii.eqb c NUL)) body = true.
Proof.
  intros Hh. unfold history_ok. split.
  - intros Hok. apply andb_true_iff in Hok. destruct Hok as [Hok Hlast].
    apply andb_true_iff in Hok. destruct Hok as [Hlen Hbody].
    apply Nat.eqb_eq in Hlen.
    exists (take (STATUS_HISTORY - 1) s).
    split; [|split; [rewrite length_take; lia | exact Hbody]].
    destruct (s !! (STATUS_HISTORY - 1)%nat) as [c|] eqn:Hc; [|discriminate].
    apply Ascii.eqb_eq in Hlast. subst c.
    rewrite <- (take_drop (STATUS_HISTORY - 1) s) at 1. f_equal.
    apply drop_S in Hc.
    rewrite Hc. f_equal. apply nil_length_inv. rewrite length_drop. lia.
  - intros (body & -> & Hlen & Hbody).
    rewrite length_app. cbn [length].
    replace (length body + 1 =? STATUS_HISTORY)%nat with true
      by (symmetry; apply Nat.eqb_eq; lia).
    rewrite <- Hlen, take_app_length, Hbody.
    rewrite lookup_app_r by lia. rewrite Nat.sub_diag. reflexivity.
Qed.

Lemma update_status_full (b : ascii) (rest : list ascii) (t : ascii) :
  STATUS_POS = (STATUS_HISTORY - 2)%nat -> (2 <= STATUS_HISTORY)%nat ->
  length rest = (STATUS_HISTORY - 2)%nat ->
  update_status (b :: rest ++ [t]) = rest ++ [" "%char; t].
Proof.
  intros Hpos Hh Hlen. unfold update_status, memmove_left.
  replace (STATUS_HISTORY - 1)%nat with (S (length rest)) by lia.
  cbn [drop]. rewrite drop_0, drop_app_length.
  rewrite take_ge by (rewrite length_app; cbn [length]; lia).
  rewrite <- app_assoc, Hpos, <- Hlen.
  rewrite insert_app_r_alt by lia. rewrite Nat.sub_diag. reflexivity.
Qed.

Lemma update_status_ok (s : list ascii) :
  STATUS_POS = (STATUS_HISTORY - 2)%nat -> (2 <= STATUS_HISTORY)%nat ->
  history_ok s = true -> history_ok (update_status s) = true.
Proof.
  intros Hpos Hh Hok. apply history_ok_body in Hok; [|lia].
  destruct Hok as (body & -> & Hlen & Hbody).
  destruct body as [|b rest]; [cbn [length] in Hlen; lia|].
  cbn [length] in Hlen. cbn [forallb] in Hbody.
  apply andb_true_iff in Hbody. destruct Hbody as [_ Hrest].
  cbn [app]. rewrite update_status_full by lia.
  apply history_ok_body; [lia|]. exists (rest ++ [" "%char]).
  split; [rewrite <- app_assoc; reflexivity|].
  split; [rewrite length_app; cbn [length]; lia|].
  rewrite forallb_app, Hrest. reflexivity.
Qed.

(** X14. A status history stays a C string of exactly STATUS_HISTORY - 1
    characters, whatever non-NUL characters it holds and however often
    [update] is applied: the NUL that [memmove] brings into the cell before
    the last one is overwritten by the blank of the newest cell, so [%s]
    prints STATUS_HISTORY - 1 cells and stops inside the array. *)
Theorem history_stays_full (s : list ascii) (n : nat) :
  STATUS_POS = (STATUS_HISTORY - 2)%nat -> (2 <= STATUS_HISTORY)%nat ->
  history_ok s = true ->
  history_ok (Nat.iter n update_status s) = true /\
  cstr (Nat.iter n update_status s)
  = take (STATUS_HISTORY - 1) (Nat.iter n update_status s) /\
  length (cstr (Nat.iter n update_status s)) = (STATUS_HISTORY - 1)%nat.
Proof.
  intros Hpos Hh Hok.
  assert (Hn : history_ok (Nat.iter n update_status s) = true).
  { induction n as [|n IH]; [exact Hok|].
    cbn [Nat.iter nat_rect]. apply update_status_ok; assumption. }
  split; [exact Hn|].
  apply history_ok_body in Hn; [|lia].
  destruct Hn as (body & -> & Hlen & Hbody).
  rewrite (cstr_body _ _ Hbody), <- Hlen, take_app_length.
  split; reflexivity.
Qed.

Lemma status_spos_value (w : Z) :
  50 <= w < 2 ^ 31 ->
  status_spos w
  = Z.of_nat STATUS_HISTORY - Z.min (w - 50) (Z.of_nat STATUS_HISTORY).
Proof.
  intros Hw. unfold status_spos. rewrite wrap_int_small by lia.
  destruct (Z.ltb_spec (Z.of_nat STATUS_HISTORY) (w - 50)); lia.
Qed.

(** X15. On a screen of 52 to 2^31 - 1 columns the plotter shows the newest
    min(width - 50, STATUS_HISTORY) - 1 cells of a full history, the cell
    written last ([status[STATUS_POS]]) at the right end. *)
Theorem window_shows_newest_cells (w : Z) (s : list ascii) :
  STATUS_POS = (STATUS_HISTORY - 2)%nat -> (2 <= STATUS_HISTORY)%nat ->
  52 <= w < 2 ^ 31 ->
  history_ok s = true ->
  window (Z.to_nat (status_spos w)) s
  = drop (STATUS_HISTORY
          - Z.to_nat (Z.min (w - 50) (Z.of_nat STATUS_HISTORY)))
         (take (STATUS_HISTORY - 1) s) /\
  length (window (Z.to_nat (status_spos w)) s)
  = (Z.to_nat (Z.min (w - 50) (Z.of_nat STATUS_HISTORY)) - 1)%nat /\
  last (window (Z.to_nat (status_spos w)) s) = s !! STATUS_POS.
Proof.
  intros Hpos Hh Hw Hok. rewrite status_spos_value by lia.
  set (k := Z.to_nat (Z.min (w - 50) (Z.of_nat STATUS_HISTORY))).
  assert (Hk : (2 <= k <= STATUS_HISTORY)%nat) by (unfold k; lia).
  replace (Z.to_nat (Z.of_nat STATUS_HISTORY
                     - Z.min (w - 50) (Z.of_nat STATUS_HISTORY)))
    with (STATUS_HISTORY - k)%nat by (unfold k; lia).
  apply history_ok_body in Hok; [|lia].
  destruct Hok as (body & -> & Hlen & Hbody).
  assert (Hwin : window (STATUS_HISTORY - k) (body ++ [NUL])
                 = drop (STATUS_HISTORY - k) body).
  { unfold window. rewrite drop_app_le by lia.
    apply cstr_body. rewrite <- (take_drop (STATUS_HISTORY - k) body) in Hbody.
    rewrite forallb_app in Hbody. apply andb_true_iff in Hbody. apply Hbody. }
  rewrite Hwin, <- Hlen, take_app_length.
  split; [reflexivity|]. split; [rewrite length_drop; lia|].
  rewrite last_lookup, length_drop, lookup_drop, Hpos.
  rewrite lookup_app_l by lia. f_equal. lia.
Qed.

(** ** [plotter_show] *)

Lemma old_act_from (gs : list gr) :
  forall act : ascii,
    Ascii.eqb
      (fold_left
         (fun act g =>
            if active g
            then (if Ascii.eqb act "."%char then "*" else ".")%char
            else act)
         gs act) NUL
    = (Ascii.eqb act NUL && negb (existsb active gs))%bool.
Proof.
  induction gs as [|g gs IH]; intros act; cbn [fold_left existsb].
  - rewrite andb_true_r. reflexivity.
  - rewrite IH. destruct (active g); cbn [orb negb].
    + rewrite andb_false_r. destruct (Ascii.eqb act "."); reflexivity.
    + reflexivity.
Qed.

Lemma update_gr_spin (g : gr) : gr_spin (update_gr g) = gr_spin g.
Proof. reflexivity. Qed.

(** X16. In the old mode [plotter_show] prints one progress mark when some
    group was active in the period and none otherwise, however many groups
    were active; no spinner moves, and every history is shifted. *)
Theorem old_plotter_marks_activity (signo : Z) (st : state) :
  old st <> 0 ->
  out (plotter_show signo st)
  = (if existsb active (groups st) then [Progress] else []) ++ out st /\
  groups (plotter_show signo st) = map update_gr (groups st) /\
  map gr_spin (groups (plotter_show signo st)) = map gr_spin (groups st) /\
  once (plotter_show signo st) = once st.
Proof.
  intros Hold. unfold plotter_show.
  destruct (Z.eqb_spec (old st) 0) as [|_]; [contradiction|]. cbn [negb].
  pose proof (old_act_from (groups st) NUL) as Hact.
  fold (old_act (groups st)) in Hact. rewrite Hact.
  cbn [Ascii.eqb Bool.eqb andb]. unfold NUL. cbn [Ascii.eqb Bool.eqb andb].
  assert (Hspin : map gr_spin (map update_gr (groups st))
                  = map gr_spin (groups st)).
  { rewrite map_map. apply map_ext. intros g. apply update_gr_spin. }
  destruct (existsb active (groups st)); cbn [negb app];
    unfold update; cbn [groups out once set_groups emit];
    (split; [reflexivity|]); (split; [reflexivity|]);
    (split; [exact Hspin | reflexivity]).
Qed.




End HistoryString.

Lemma history_stays_full_witness :
  @history_ok Ref.small_config (gr_status (Ref.record "." 0)) = true /\
  length (cstr (Nat.iter 3 (@update_status Ref.small_config)
                  (gr_status (Ref.record "." 0)))) = 7%nat.
Proof.
  assert (H1 : @STATUS_POS Ref.small_config
               = (@STATUS_HISTORY Ref.small_config - 2)%nat) by reflexivity.
  assert (H2 : (2 <= @STATUS_HISTORY Ref.small_config)%nat)
    by (vm_compute; lia).
  assert (H3 : @history_ok Ref.small_config (gr_status (Ref.record "." 0))
               = true) by (vm_compute; reflexivity).
  split; [exact H3|].
  exact (proj2 (proj2 (@history_stays_full Ref.small_config _ 3 H1 H2 H3))).
Defined.

Lemma window_shows_newest_cells_witness :
  52 <= 55 < 2 ^ 31 /\
  @history_ok Ref.small_config (gr_status (Ref.record "." 0)) = true /\
  @window (Z.to_nat (@status_spos Ref.small_config 55))
    (gr_status (Ref.record "." 0))
  = [" "; " "; " "; "."]%char.
Proof.
  assert (H1 : @STATUS_POS Ref.small_config
               = (@STATUS_HISTORY Ref.small_config - 2)%nat) by reflexivity.
  assert (H2 : (2 <= @STATUS_HISTORY Ref.small_config)%nat)
    by (vm_compute; lia).
  assert (H3 : 52 <= 55 < 2 ^ 31) by lia.
  assert (H4 : @history_ok Ref.small_config (gr_status (Ref.record "." 0))
               = true) by (vm_compute; reflexivity).
  split; [exact H3|]. split; [exact H4|].
  rewrite (proj1 (@window_shows_newest_cells Ref.small_config 55 _
                    H1 H2 H3 H4)).
  vm_compute. reflexivity.
Defined.

Lemma old_plotter_marks_activity_witness :
  old Sample.old_active <> 0 /\
  out (@plotter_show Ref.small_config 14 Sample.old_active)
  = Progress :: out Sample.old_active.
Proof.
  assert (H1 : old Sample.old_active <> 0) by (vm_compute; discriminate).
  split; [exact H1|].
  rewrite (proj1 (@old_plotter_marks_activity Ref.small_config 14 _ H1)).
  vm_compute. reflexivity.
Defined.


(* ===================================================================== *)
(** * Redrawing, the statistics and the value options *)
(* ===================================================================== *)

Lemma emit_all_screen (es : list event) :
  forall st : state,
    winchg (fold_left (fun s e => emit e s) es st) = winchg st /\
    width (fold_left (fun s e => emit e s) es st) = width st /\
    height (fold_left (fun s e => emit e s) es st) = height st.
Proof.
  induction es as [|e es IH]; intros st; [repeat split; reflexivity|].
  cbn [fold_left]. destruct (IH (emit e st)) as (Hw & Hx & Hy).
  rewrite Hw, Hx, Hy. repeat split; reflexivity.
Qed.

Section Screen.

Context `{Config} `{Env}.

Lemma plotter_show_status (signo : Z) (st : state) :
  map gr_status (groups (plotter_show signo st))
  = map update_status (map gr_status (groups st)).
Proof.
  unfold plotter_show. destruct (old st =? 0); cbn [negb].
  - destruct (plot_rows _ 0 _) as [gs rows] eqn:Hrows.
    rewrite update_groups_status, emit_all_groups. cbn [groups set_groups].
    pose proof (plot_rows_status
                  (Z.to_nat (status_spos
                     (width (emit PlotHeader
                               (if negb (once st =? 0) then set_once 0 st
                                else st))))) 0
                  (groups (emit PlotHeader
                             (if negb (once st =? 0) then set_once 0 st
                              else st)))) as Hst.
    rewrite Hrows in Hst. cbn [fst] in Hst. rewrite Hst.
    destruct (once st =? 0); reflexivity.
  - rewrite update_groups_status.
    destruct (Ascii.eqb (old_act (groups st)) NUL); reflexivity.
Qed.

Lemma plotter_show_screen (signo : Z) (st : state) :
  winchg (plotter_show signo st) = winchg st /\
  width (plotter_show signo st) = width st /\
  height (plotter_show signo st) = height st /\
  exists es : list event, out (plotter_show signo st) = es ++ out st.
Proof.
  unfold plotter_show. destruct (old st =? 0); cbn [negb].
  - destruct (plot_rows _ 0 _) as [gs rows]. unfold update.
    cbn [winchg width height out set_groups].
    destruct (emit_all_screen rows
                (set_groups gs
                   (emit PlotHeader
                      (if negb (once st =? 0) then set_once 0 st else st))))
      as (Hw & Hx & Hy).
    rewrite Hw, Hx, Hy, emit_all_out. cbn [winchg width height out set_groups emit].
    destruct (once st =? 0); cbn [negb winchg width height out set_once];
      (split; [reflexivity|]); (split; [reflexivity|]);
      (split; [reflexivity|]); exists (rev rows ++ [PlotHeader]);
      rewrite <- app_assoc; reflexivity.
  - unfold update. cbn [winchg width height out set_groups].
    destruct (Ascii.eqb (old_act (groups st)) NUL);
      cbn [winchg width height out emit];
      (split; [reflexivity|]); (split; [reflexivity|]);
      (split; [reflexivity|]);
      [exists [] | exists [Progress]]; reflexivity.
Qed.

Lemma redraw_zero (st : state) :
  width (redraw 0 st) = width st /\ height (redraw 0 st) = height st /\
  groups (redraw 0 st) = groups st /\ winchg (redraw 0 st) = winchg st.
Proof.
  unfold redraw. cbn [Z.eqb negb].
  destruct (negb (old st =? 0) || (foreground st =? 0))%bool;
    repeat split; reflexivity.
Qed.

(** X18. After a SIGWINCH the next [redraw(winchg)] on the screen reads the
    terminal size, clears [winchg], draws the frame without setting the
    terminal up again, and calls [plotter_show] and [log_show]: every
    status history is shifted by one cell although no period has passed.
    The redraw after it reads no size and shifts nothing. *)
Theorem resize_is_handled_once (signo : Z) (st : state) :
  old st = 0 -> foreground st <> 0 ->
  let st1 := sigwinch_cb signo st in
  let st2 := redraw (winchg st1) st1 in
  let title :=
    if join st =? 0 then "mcjoin :: sending multicast"%string
    else "mcjoin :: receiving multicast"%string in
  winchg st2 = 0 /\
  (width st2, height st2) = ttsize st1 /\
  map gr_status (groups st2)
  = map update_status (map gr_status (groups st)) /\
  (exists es : list event,
      out st2 = LogShow :: es ++ Frame title :: Tty "cls" :: out st) /\
  (width (redraw (winchg st2) st2), height (redraw (winchg st2) st2))
  = (width st2, height st2) /\
  groups (redraw (winchg st2) st2) = groups st2.
Proof.
  intros Hold Hfg st1 st2 title.
  assert (Hst2 : exists w h : Z,
             ttsize st1 = (w, h) /\
             st2 = emit LogShow
                     (plotter_show 1
                        (emit (Frame title)
                           (emit (Tty "cls")
                              (set_winchg 0 (set_size w h st1)))))).
  { unfold st2, redraw, st1, sigwinch_cb.
    cbn [old foreground winchg set_winchg]. rewrite Hold.
    destruct (Z.eqb_spec (foreground st) 0) as [|_]; [contradiction|].
    cbn [Z.eqb negb orb].
    destruct (ttsize (set_winchg 1 st)) as [w h]. exists w, h.
    split; [reflexivity|]. reflexivity. }
  destruct Hst2 as (w & h & Hsize & Hst2). rewrite Hsize.
  set (st3 := emit (Frame title)
                (emit (Tty "cls") (set_winchg 0 (set_size w h st1)))) in Hst2.
  destruct (plotter_show_screen 1 st3) as (Hw & Hx & Hy & es & Ho).
  pose proof (plotter_show_status 1 st3) as Hs.
  assert (Hz : winchg st2 = 0) by (rewrite Hst2; cbn [winchg emit]; rewrite Hw; reflexivity).
  split; [exact Hz|].
  split; [rewrite Hst2; cbn [width height emit]; rewrite Hx, Hy; reflexivity|].
  split; [rewrite Hst2; cbn [groups emit]; rewrite Hs; reflexivity|].
  split; [exists es; rewrite Hst2; cbn [out emit]; rewrite Ho; reflexivity|].
  rewrite Hz. destruct (redraw_zero st2) as (Rw & Rh & Rg & _).
  rewrite Rw, Rh, Rg. split; reflexivity.
Qed.

End Screen.

(** ** What [show_stats] prints *)

Lemma stats_gwidth_from (gs : list gr) :
  forall g0 : Z,
    0 <= g0 ->
    Forall (fun g => Z.of_nat (String.length (gr_group g)) < 2 ^ 31) gs ->
    let r :=
      fold_left
        (fun gwidth g =>
           let n := wrap_int (Z.of_nat (String.length (gr_group g))) in
           if gwidth <? n then n else gwidth)
        gs g0 in
    g0 <= r /\
    Forall (fun g => Z.of_nat (String.length (gr_group g)) <= r) gs /\
    (r = g0 \/
     Exists (fun g => Z.of_nat (String.length (gr_group g)) = r) gs).
Proof.
  induction gs as [|g gs IH]; intros g0 H0 Hall; cbv zeta in *;
    cbn [fold_left].
  - split; [lia|]. split; [constructor | left; reflexivity].
  - apply Forall_cons in Hall. destruct Hall as [Hg Hall].
    rewrite wrap_int_small by lia.
    set (n := Z.of_nat (String.length (gr_group g))) in *.
    destruct (Z.ltb_spec g0 n) as [Hlt|Hge].
    + destruct (IH n ltac:(lia) Hall) as (Hle & Hmax & Hex).
      split; [lia|]. split; [constructor; [exact Hle | exact Hmax]|].
      right. destruct Hex as [->|Hex];
        [apply Exists_cons_hd; reflexivity | apply Exists_cons_tl; exact Hex].
    + destruct (IH g0 H0 Hall) as (Hle & Hmax & Hex).
      split; [lia|]. split; [constructor; [unfold n; lia | exact Hmax]|].
      destruct Hex as [->|Hex]; [left; reflexivity|].
      right. apply Exists_cons_tl. exact Hex.
Qed.

Lemma stats_lines_closed (gwidth : Z) (gs : list gr) :
  forall total : Z,
    0 <= total < 2 ^ 64 ->
    stats_lines gwidth total gs
    = (map (fun g => PrintGroup gwidth (gr_group g) (gr_count g) (gr_gaps g))
           gs,
       (total + total_count gs) mod 2 ^ 64).
Proof.
  induction gs as [|g gs IH]; intros total Ht; cbn [stats_lines map total_count fold_right].
  - rewrite Z.add_0_r, Z.mod_small by lia. reflexivity.
  - fold (total_count gs). rewrite IH by (unfold wrap_size; apply Z.mod_pos_bound; lia).
    unfold wrap_size. rewrite Zplus_mod_idemp_l. do 2 f_equal. lia.
Qed.

(** X19. A receiver's statistics are one line per group, in table order,
    then the total: the sum of the groups' counts reduced to [size_t].
    The column width of the group names is the length of the longest name,
    so every name fits its column. *)
Theorem statistics_lines (st : state) :
  join st <> 0 ->
  Forall (fun g => Z.of_nat (String.length (gr_group g)) < 2 ^ 31)
    (groups st) ->
  out (show_stats st)
  = PrintTotal (total_count (groups st) mod 2 ^ 64)
    :: rev (map (fun g => PrintGroup (stats_gwidth (groups st)) (gr_group g)
                            (gr_count g) (gr_gaps g))
              (groups st))
    ++ out st /\
  Forall (fun g => Z.of_nat (String.length (gr_group g))
                   <= stats_gwidth (groups st)) (groups st) /\
  (groups st <> [] ->
   Exists (fun g => Z.of_nat (String.length (gr_group g))
                    = stats_gwidth (groups st)) (groups st)).
Proof.
  intros Hjoin Hall.
  pose proof (stats_gwidth_from (groups st) 0 ltac:(lia) Hall) as Hw.
  cbv zeta in Hw. destruct Hw as (_ & Hmax & Hex).
  fold (stats_gwidth (groups st)) in Hmax, Hex.
  split.
  - unfold show_stats. rewrite emit_all_out. unfold stats_events.
    destruct (Z.eqb_spec (join st) 0) as [|_]; [contradiction|].
    rewrite stats_lines_closed by lia. rewrite Z.add_0_l, rev_app_distr.
    reflexivity.
  - split; [exact Hmax|]. intros Hne. destruct Hex as [H0|Hex]; [|exact Hex].
    destruct (groups st) as [|g gs] eqn:Hgs; [congruence|].
    apply Forall_cons in Hmax. destruct Hmax as [Hg Hmax].
    assert (Hl : String.length (gr_group g) = 0%nat) by lia.
    apply Exists_cons_hd. lia.
Qed.

(** ** The options that set a value *)

Section ValueOptions.

Context `{Config} `{Env}.

Lemma getopt_case_values (c : ascii) (optarg : string) (st : state)
  (wait : Z) (st' : state) (wait' : Z) :
  getopt_case c optarg (st, wait) = inr (st', wait') ->
  port st' = (if Ascii.eqb c "p" then atoi optarg else port st) /\
  ttl st' = (if Ascii.eqb c "t" then wrap8 (atoi optarg) else ttl st) /\
  count st'
  = (if Ascii.eqb c "c" then wrap_size (atoi optarg) else count st) /\
  bytes st'
  = (if Ascii.eqb c "b" then wrap_size (atoi optarg) else bytes st) /\
  period st'
  = (if Ascii.eqb c "f" then wrap_int (atoi optarg * 1000) else period st) /\
  iface st' = (if Ascii.eqb c "i" then optarg else iface st) /\
  wait' = (if Ascii.eqb c "w" then atoi optarg else wait) /\
  foreground st' = (if Ascii.eqb c "d" then 0 else foreground st).
Proof.
  unfold getopt_case.
  repeat (cbn [Ascii.eqb Bool.eqb];
          match goal with
          | |- context [if Ascii.eqb c ?x then _ else _] =>
              destruct (Ascii.eqb_spec c x) as [->|?]
          | |- context [if ?b then _ else _] => destruct b
          end);
    intros Heq; try discriminate Heq; injection Heq as <- <-;
    cbn [Ascii.eqb Bool.eqb port ttl count bytes period iface foreground
         set_bytes set_count set_foreground set_period set_iface set_join
         set_old set_port set_ttl emit];
    repeat match goal with
           | Hn : ?c <> ?x |- context [Ascii.eqb ?c ?x] =>
               destruct (Ascii.eqb_spec c x); [contradiction|]
           end;
    repeat split; reflexivity.
Qed.

Lemma parse_opts_values (opts : list (ascii * string)) :
  forall (st : state) (wait : Z) (st' : state) (wait' : Z),
    parse_opts opts (st, wait) = inr (st', wait') ->
    port st' = setting_after "p" atoi (port st) opts /\
    ttl st' = setting_after "t" (fun a => wrap8 (atoi a)) (ttl st) opts /\
    count st'
    = setting_after "c" (fun a => wrap_size (atoi a)) (count st) opts /\
    bytes st'
    = setting_after "b" (fun a => wrap_size (atoi a)) (bytes st) opts /\
    period st'
    = setting_after "f" (fun a => wrap_int (atoi a * 1000)) (period st) opts /\
    iface st' = setting_after "i" (fun a => a) (iface st) opts /\
    wait' = setting_after "w" atoi wait opts /\
    foreground st' = setting_after "d" (fun _ => 0) (foreground st) opts.
Proof.
  induction opts as [|[c optarg] opts IH]; intros st wait st' wait' Hrun;
    cbn [parse_opts] in Hrun.
  - injection Hrun as <- <-. repeat split; reflexivity.
  - destruct (getopt_case c optarg (st, wait)) as [e|[st1 w1]] eqn:Hcase;
      [discriminate|].
    apply getopt_case_values in Hcase.
    destruct Hcase as (H1 & H2 & H3 & H4 & H5 & H6 & H7 & H8).
    unfold setting_after. cbn [fold_left fst snd].
    rewrite <- H1, <- H2, <- H3, <- H4, <- H5, <- H6, <- H7, <- H8.
    exact (IH st1 w1 st' wait' Hrun).
Qed.

(** X20. Of the options that set a value the last one decides, and each
    sets only its own value: when [main] reaches the run loop, the port is
    that of the last [-p] (DEFAULT_PORT without one), and likewise the TTL
    of [-t] cut to a byte (1), the count of [-c] (0), the payload of [-b]
    (100), the period of [-f] in microseconds (100000) and the interface of
    [-i] (the default interface when none or an empty one is given). *)
Theorem last_value_option_decides (opts : list (ascii * string))
  (args : list string) (st : state) :
  main_init opts args = inr st ->
  port st = setting_after "p" atoi DEFAULT_PORT opts /\
  ttl st = setting_after "t" (fun a => wrap8 (atoi a)) 1 opts /\
  count st = setting_after "c" (fun a => wrap_size (atoi a)) 0 opts /\
  bytes st = setting_after "b" (fun a => wrap_size (atoi a)) 100 opts /\
  period st
  = setting_after "f" (fun a => wrap_int (atoi a * 1000)) 100000 opts /\
  iface st
  = (if String.eqb (setting_after "i" (fun a => a) EmptyString opts)
                   EmptyString
     then ifdefault
     else setting_after "i" (fun a => a) EmptyString opts) /\
  foreground st = (if has_opt "d" opts then 0 else 1).
Proof.
  intros Hinit. assert (Hinit' := Hinit). unfold main_init in Hinit'.
  destruct (parse_opts opts (init_state, 0)) as [e|[st0 wait]] eqn:Hopts;
    [discriminate|].
  destruct (main_setup (length args) (st0, wait)) as [e|st1] eqn:Hsetup;
    [discriminate|].
  clear Hinit'.
  pose proof (main_init_settings _ _ _ _ _ Hopts Hsetup Hinit) as Hset.
  unfold settings in Hset.
  injection Hset as _ _ Hfg Hper Hby Hcn Hpo Htt Hif.
  destruct (parse_opts_values _ _ _ _ _ Hopts)
    as (H1 & H2 & H3 & H4 & H5 & H6 & _ & H8).
  cbn [port ttl count bytes period iface foreground init_state] in *.
  pose proof (main_setup_iface _ _ _ _ Hsetup) as Hi1.
  pose proof (main_setup_values _ _ _ _ Hsetup) as (S1 & S2 & S3 & S4 & S5 & S6).
  rewrite Hpo, Htt, Hcn, Hby, Hper, Hif, Hfg, S1, S2, S3, S4, S5, S6, Hi1.
  rewrite <- H1, <- H2, <- H3, <- H4, <- H5, <- H6.
  repeat (split; [reflexivity|]).
  rewrite H8. unfold setting_after, has_opt. clear.
  assert (Hgen : forall v : Z,
             fold_left (fun (v : Z) (o : ascii * string) =>
                          if Ascii.eqb (fst o) "d" then 0 else v) opts v
             = if existsb (fun o => Ascii.eqb (fst o) "d") opts then 0
               else v).
  { induction opts as [|o opts IH]; intros v; cbn [fold_left existsb];
      [reflexivity|].
    rewrite IH. destruct (Ascii.eqb (fst o) "d"); cbn [orb]; [|reflexivity].
    destruct (existsb _ opts); reflexivity. }
  apply Hgen.
Qed.

End ValueOptions.

Lemma resize_is_handled_once_witness :
  old Sample.screen_active = 0 /\ foreground Sample.screen_active <> 0 /\
  winchg (@redraw Ref.small_config Ref.user_env
            (winchg (sigwinch_cb 28 Sample.screen_active))
            (sigwinch_cb 28 Sample.screen_active)) = 0.
Proof.
  assert (H1 : old Sample.screen_active = 0) by (vm_compute; reflexivity).
  assert (H2 : foreground Sample.screen_active <> 0)
    by (vm_compute; discriminate).
  split; [exact H1|]. split; [exact H2|].
  exact (proj1 (@resize_is_handled_once Ref.small_config Ref.user_env 28
                  Sample.screen_active H1 H2)).
Defined.

Lemma statistics_lines_witness :
  join Sample.counted <> 0 /\
  out (show_stats Sample.counted)
  = PrintTotal 12 :: PrintGroup 9 "ff08::1" 7 1
    :: PrintGroup 9 "239.1.1.1" 5 0 :: out Sample.counted.
Proof.
  assert (H1 : join Sample.counted <> 0) by (vm_compute; discriminate).
  assert (H2 : Forall (fun g => Z.of_nat (String.length (gr_group g)) < 2 ^ 31)
                 (groups Sample.counted)).
  { apply List.Forall_forall. intros g Hg. vm_compute in Hg.
    destruct Hg as [<-|[<-|[]]]; vm_compute; reflexivity. }
  split; [exact H1|].
  rewrite (proj1 (statistics_lines Sample.counted H1 H2)).
  vm_compute. reflexivity.
Defined.

Lemma last_value_option_decides_witness :
  @main_init Ref.small_config Ref.user_env Sample.opts_ptp
    ["239.1.1.1"%string] = inr Sample.port_twice /\
  port Sample.port_twice = 6000 /\ ttl Sample.port_twice = 44.
Proof.
  assert (H1 : @main_init Ref.small_config Ref.user_env Sample.opts_ptp
                 ["239.1.1.1"%string] = inr Sample.port_twice)
    by (vm_compute; reflexivity).
  split; [exact H1|].
  destruct (@last_value_option_decides Ref.small_config Ref.user_env
              _ _ _ H1) as (R1 & R2 & _).
  split; [rewrite R1 | rewrite R2]; vm_compute; reflexivity.
Defined.

(* ===================================================================== *)
(** * An IPv4 range on the reference C library, from text to address *)
(* ===================================================================== *)

Section Ipv4Range.

Context `{Config}.

Variable h : endian.
Variable euid : Z.
Variables sig_at fail_at : nat.

Let E : Env := Ref.env h euid sig_at fail_at.

Lemma step4_iter_address (k : nat) (a : list Z) :
  length a = 4%nat -> Forall is_byte a ->
  length (Nat.iter k (step4 h) a) = 4%nat /\
  Forall is_byte (Nat.iter k (step4 h) a) /\
  be32 (Nat.iter k (step4 h) a) = (be32 a + Z.of_nat k) mod 2 ^ 32.
Proof.
  intros Hlen Hb.
  destruct (addr_step_iter_value h AF_INET k a Hlen Hb) as (Hl & Hv & _ & Hw).
  exact (conj Hl (conj Hv Hw)).
Qed.

(** The group address that the resolution loop gives the record of a text
    written by the expansion loop. *)
Lemma resolve_stepped (p : Z) (source : option string) (k : nat)
  (a : list Z) :
  length a = 4%nat -> Forall is_byte a ->
  sa_addr (gr_grp (@resolve_gr H E p
                     (new_gr source
                        (Ref.inet_ntop4_text (Nat.iter (S k) (step4 h) a)))))
  = Nat.iter (S k) (step4 h) a.
Proof.
  intros Hlen Hb. destruct (step4_iter_address k a Hlen Hb) as (Hl & Hv & _).
  destruct (ipv4_step_text h euid sig_at fail_at _ EmptyString Hl Hv)
    as (_ & Hp & Hf).
  rewrite Nat.iter_succ.
  unfold resolve_gr, resolve_addr, new_gr. cbn [gr_group gr_grp sa_addr].
  rewrite Hf. fold E in Hp. rewrite Hp. reflexivity.
Qed.

(** X21. On the reference C library an IPv4 specification [GRP+N] that
    passes the check of its count adds N records, all with the source of
    the specification, and the resolution loop gives them the N addresses
    from GRP on: the k-th has the value of GRP plus k, modulo 2^32. *)
Theorem ipv4_range_is_joined (arg : string) (st : state)
  (source : option string) (group buf : string) (num : Z) (a : list Z)
  (p : Z) :
  parse_spec arg = (source, group, buf, num) ->
  1 <= num ->
  num + Z.of_nat (group_num st) < Z.of_nat MAX_NUM_GROUPS ->
  has_char group ":" = false ->
  Ref.inet_pton4 group = Some a ->
  exists st' : state,
    @expand_spec H E arg st = inr st' /\
    take (group_num st) (groups st') = groups st /\
    map gr_source (drop (group_num st) (groups st'))
    = replicate (Z.to_nat num) source /\
    map (fun g => be32 (sa_addr (gr_grp (@resolve_gr H E p g))))
        (drop (group_num st) (groups st'))
    = map (fun k => (be32 a + Z.of_nat k) mod 2 ^ 32) (seq 0 (Z.to_nat num)).
Proof.
  intros Hparse Hnum Hroom Hcolon Hpton.
  destruct (inet_pton4_bytes group a Hpton) as [Hlen Hb].
  destruct (ipv4_spec_consecutive h euid sig_at fail_at arg st source group
              buf num a Hparse Hnum Hroom Hcolon Hpton)
    as (st' & Hrun & Hgs & _).
  exists st'. split; [exact Hrun|]. rewrite Hgs. unfold group_num.
  rewrite take_app_length, drop_app_length.
  split; [reflexivity|].
  replace (Z.to_nat num) with (S (Z.to_nat num - 1)) at 2 4 by lia.
  generalize (Z.to_nat num - 1)%nat. intros n.
  cbn [map replicate seq]. split.
  - f_equal. rewrite !map_map. cbn [new_gr gr_source].
    clear. generalize 0%nat. induction n as [|n IH]; intros i; [reflexivity|].
    cbn [seq map replicate]. rewrite IH. reflexivity.
  - f_equal.
    + unfold resolve_gr, resolve_addr, new_gr. cbn [gr_group gr_grp sa_addr].
      unfold group_family. rewrite Hcolon.
      change (@inet_pton E AF_INET group) with (Ref.inet_pton4 group).
      rewrite Hpton, Z.add_0_r.
      destruct (step4_iter_address 0 a Hlen Hb) as (_ & _ & Hv).
      cbn [Nat.iter nat_rect] in Hv. rewrite Z.add_0_r in Hv. exact Hv.
    + rewrite !map_map, <- seq_shift, map_map. apply map_ext. intros k.
      rewrite (resolve_stepped p source k a Hlen Hb).
      apply (step4_iter_address (S k) a Hlen Hb).
Qed.

End Ipv4Range.

Lemma ipv4_range_is_joined_witness :
  @parse_spec Ref.small_config "10.0.0.1,239.1.1.255+2"
  = (Some "10.0.0.1"%string, "239.1.1.255"%string, "10.0.0.1"%string, 2) /\
  Ref.inet_pton4 "239.1.1.255" = Some [239; 1; 1; 255] /\
  exists st' : state,
    @expand_spec Ref.small_config Ref.user_env "10.0.0.1,239.1.1.255+2"
      (@init_state Ref.small_config) = inr st' /\
    map (fun g => be32 (sa_addr (gr_grp (@resolve_gr Ref.small_config
                                           Ref.user_env 1234 g))))
        (drop (group_num (@init_state Ref.small_config)) (groups st'))
    = [be32 [239; 1; 1; 255]; be32 [239; 1; 2; 0]].
Proof.
  assert (H1 : @parse_spec Ref.small_config "10.0.0.1,239.1.1.255+2"
               = (Some "10.0.0.1"%string, "239.1.1.255"%string,
                  "10.0.0.1"%string, 2)) by (vm_compute; reflexivity).
  assert (H2 : 1 <= 2) by lia.
  assert (H3 : 2 + Z.of_nat (group_num (@init_state Ref.small_config))
               < Z.of_nat (@MAX_NUM_GROUPS Ref.small_config))
    by (vm_compute; reflexivity).
  assert (H4 : has_char "239.1.1.255" ":" = false) by (vm_compute; reflexivity).
  assert (H5 : Ref.inet_pton4 "239.1.1.255" = Some [239; 1; 1; 255])
    by (vm_compute; reflexivity).
  split; [exact H1|]. split; [exact H5|].
  destruct (@ipv4_range_is_joined Ref.small_config LittleEndian 1000 3 99
              _ _ _ _ _ _ _ 1234 H1 H2 H3 H4 H5) as (st' & Hrun & _ & _ & Hv).
  exists st'. split; [exact Hrun|].
  refine (eq_trans Hv _). vm_compute. reflexivity.
Defined.

(* ===================================================================== *)
(** * The history after a mark and a shift, the tick handler, the stop *)
(* ===================================================================== *)

Section ShiftedMark.

Context `{Config}.





End ShiftedMark.


(** ** The tick handler *)

Section TickHandler.

Context `{Config} `{Env}.





End TickHandler.



(** ** The stop *)


Section Stop.

Context `{Config} `{Env}.



End Stop.


